(** * cdn-services: image variants and storage disks

    A shallow embedding of the request handlers of [src/index.js] and of
    the storage layer ([StorageManager], [FilesystemAdapter] and its four
    drivers), followed by the properties of the specification that were
    checked against them.

    JavaScript strings are modelled as [string]: the sequence of the
    code units of their UTF-8 encoding.  Every character the handlers
    inspect ('x', '.', '/', the digits, the letters of the format names)
    is ASCII, and an ASCII byte never occurs inside the encoding of
    another character, so searching and splitting agree with the
    engine's. *)

From Stdlib Require Import ZArith NArith List Ascii String Bool Lia.
From Stdlib Require Import DecimalString.
From stdpp Require Import gmap strings.
Import ListNotations.

Open Scope string_scope.

(** ** Strings *)

Module Js.

(** [s.startsWith(p)] *)
Fixpoint startsWith (s p : string) {struct p} : bool :=
  match p, s with
  | EmptyString, _ => true
  | String a p', String b s' => if Ascii.eqb a b then startsWith s' p' else false
  | String _ _, EmptyString => false
  end.

(** [s.includes(needle)] *)
Fixpoint includes (s needle : string) : bool :=
  startsWith s needle ||
  match s with
  | EmptyString => false
  | String _ s' => includes s' needle
  end.

(** [s.split(sep)] for a separator of one character. *)
Fixpoint split (s : string) (sep : ascii) : list string :=
  match s with
  | EmptyString => [EmptyString]
  | String c s' =>
      if Ascii.eqb c sep then EmptyString :: split s' sep
      else match split s' sep with
           | piece :: rest => String c piece :: rest
           | [] => [String c EmptyString]
           end
  end.

(** [s.toLowerCase()].  Only the letters A-Z are mapped.  The engine
    also maps letters outside ASCII; the only one whose image is made of
    ASCII letters alone is the Kelvin sign, mapped to k, and no
    supported format name has a k, so membership in the list of
    supported formats, and the case taken by the switch on the format,
    are the same. *)
Definition lower (c : ascii) : ascii :=
  let n := nat_of_ascii c in
  if (65 <=? n)%nat && (n <=? 90)%nat then ascii_of_nat (n + 32) else c.

Fixpoint toLowerCase (s : string) : string :=
  match s with
  | EmptyString => EmptyString
  | String c s' => String (lower c) (toLowerCase s')
  end.

(** [s] between double quotes *)
Definition quoted (s : string) : string :=
  String (ascii_of_nat 34) (s ++ String (ascii_of_nat 34) EmptyString).

(** [array.includes(x)] on an array of strings *)
Definition array_includes (l : list string) (x : string) : bool :=
  existsb (String.eqb x) l.

Definition rev (s : string) : string :=
  string_of_list_ascii (List.rev (list_ascii_of_string s)).

Fixpoint strip_prefix (p s : string) : option string :=
  match p, s with
  | EmptyString, _ => Some s
  | String a p', String b s' => if Ascii.eqb a b then strip_prefix p' s' else None
  | String _ _, EmptyString => None
  end.

(** ** Numbers

    [Number] is the result type of the conversion [Number(string)].  A
    finite value is kept as the exact decimal the literal denotes,
    [numerator / 10 ^ decimals] with [decimals] as small as possible;
    the engine rounds this value to the nearest double, which changes
    neither whether the result is NaN nor any literal of at most 15
    significant digits within the range of a double. *)
Inductive Number :=
  | NaN
  | Infinity (negative : bool)
  | Finite (negative : bool) (numerator : N) (decimals : nat).

Definition num (n : N) : Number := Finite false n 0.

Definition utf8 (bytes : list nat) : string :=
  string_of_list_ascii (map ascii_of_nat bytes).

(** StrWhiteSpaceChar of ECMA-262: WhiteSpace and LineTerminator. *)
Definition StrWhiteSpaceChar : list string :=
  map utf8
    [ [9]; [10]; [11]; [12]; [13]; [32]; [194; 160]; [225; 154; 128];
      [226; 128; 128]; [226; 128; 129]; [226; 128; 130]; [226; 128; 131];
      [226; 128; 132]; [226; 128; 133]; [226; 128; 134]; [226; 128; 135];
      [226; 128; 136]; [226; 128; 137]; [226; 128; 138]; [226; 128; 168];
      [226; 128; 169]; [226; 128; 175]; [226; 129; 159]; [227; 128; 128];
      [239; 187; 191] ].

Fixpoint strip_first (ps : list string) (s : string) : option string :=
  match ps with
  | [] => None
  | p :: ps' =>
      match strip_prefix p s with
      | Some r => Some r
      | None => strip_first ps' s
      end
  end.

Fixpoint trim_start_with (ws : list string) (fuel : nat) (s : string) : string :=
  match fuel with
  | O => s
  | S fuel' =>
      match strip_first ws s with
      | Some r => trim_start_with ws fuel' r
      | None => s
      end
  end.

Definition trim (s : string) : string :=
  let s1 := trim_start_with StrWhiteSpaceChar (String.length s) s in
  rev (trim_start_with (map rev StrWhiteSpaceChar) (String.length s1) (rev s1)).

Definition digit_value (base : N) (c : ascii) : option N :=
  let n := N_of_ascii c in
  let v :=
    if (48 <=? n)%N && (n <=? 57)%N then Some (n - 48)%N
    else if (97 <=? n)%N && (n <=? 102)%N then Some (n - 87)%N
    else if (65 <=? n)%N && (n <=? 70)%N then Some (n - 55)%N
    else None in
  match v with
  | Some d => if (d <? base)%N then Some d else None
  | None => None
  end.

Fixpoint digits_value (base acc : N) (s : string) : option N :=
  match s with
  | EmptyString => Some acc
  | String c s' =>
      match digit_value base c with
      | Some d => digits_value base (acc * base + d)%N s'
      | None => None
      end
  end.

(** One or more digits of the given base. *)
Definition digits1 (base : N) (s : string) : option N :=
  match s with
  | EmptyString => None
  | _ => digits_value base 0 s
  end.

Definition is_digit (c : ascii) : bool :=
  match digit_value 10 c with Some _ => true | None => false end.

Fixpoint span_digits (s : string) : string * string :=
  match s with
  | EmptyString => (EmptyString, EmptyString)
  | String c s' =>
      if is_digit c
      then let (d, r) := span_digits s' in (String c d, r)
      else (EmptyString, s)
  end.

Fixpoint strip_zeros (decimals : nat) (m : N) : N * nat :=
  match decimals with
  | O => (m, O)
  | S k => if (m mod 10 =? 0)%N then strip_zeros k (m / 10)%N else (m, decimals)
  end.

(** The number [m * 10 ^ e] in normal form. *)
Definition decimal (negative : bool) (m : N) (e : Z) : Number :=
  if (0 <=? e)%Z then Finite negative (m * 10 ^ Z.to_N e)%N 0
  else let (m', d) := strip_zeros (Z.to_nat (- e)) m in Finite negative m' d.

(** ExponentPart, or nothing *)
Definition exponent_part (s : string) : option Z :=
  match s with
  | EmptyString => Some 0%Z
  | String c r =>
      if Ascii.eqb c "e" || Ascii.eqb c "E" then
        let (neg, ds) :=
          match r with
          | String "-" r' => (true, r')
          | String "+" r' => (false, r')
          | _ => (false, r)
          end in
        match digits1 10 ds with
        | Some n => Some (if neg then (- Z.of_N n)%Z else Z.of_N n)
        | None => None
        end
      else None
  end.

(** StrUnsignedDecimalLiteral *)
Definition unsigned_decimal (negative : bool) (s : string) : Number :=
  if String.eqb s "Infinity" then Infinity negative
  else
    let (ip, r1) := span_digits s in
    let (fp, r2) :=
      match r1 with
      | String "." r => span_digits r
      | _ => (EmptyString, r1)
      end in
    match ip ++ fp, exponent_part r2, digits_value 10 0 (ip ++ fp) with
    | String _ _, Some e, Some m =>
        decimal negative m (e - Z.of_nat (String.length fp))
    | _, _, _ => NaN
    end.

Definition non_decimal (base : N) (s : string) : Number :=
  match digits1 base s with
  | Some n => num n
  | None => NaN
  end.

(** StringToNumber of ECMA-262, the conversion [Number(s)] applies to a
    string: white space around the literal is dropped; the empty
    literal is 0; a literal in base 16, 8 or 2 carries no sign. *)
Definition StringToNumber (s : string) : Number :=
  let t := trim s in
  if String.eqb t "" then num 0
  else
    match strip_first ["0x"; "0X"] t, strip_first ["0o"; "0O"] t,
          strip_first ["0b"; "0B"] t, strip_prefix "-" t, strip_prefix "+" t with
    | Some r, _, _, _, _ => non_decimal 16 r
    | None, Some r, _, _, _ => non_decimal 8 r
    | None, None, Some r, _, _ => non_decimal 2 r
    | None, None, None, Some r, _ => unsigned_decimal true r
    | None, None, None, None, Some r => unsigned_decimal false r
    | None, None, None, None, None => unsigned_decimal false t
    end.

Definition isNaN_Number (n : Number) : bool :=
  match n with NaN => true | _ => false end.

Definition digits_of (n : N) : string :=
  NilEmpty.string_of_uint (N.to_uint n).

Fixpoint zeros (n : nat) : string :=
  match n with O => EmptyString | S k => String "0" (zeros k) end.

Fixpoint drop_zeros (s : string) : string :=
  match s with
  | String "0" s' => drop_zeros s'
  | _ => s
  end.

Definition strip_trailing_zeros (s : string) : string :=
  rev (drop_zeros (rev s)).

(** Number::toString(x) of ECMA-262 in radix 10: [s] holds the [k]
    significant digits and [n] is the position of the decimal point. *)
Definition NumberToString (x : Number) : string :=
  match x with
  | NaN => "NaN"
  | Infinity negative => if negative then "-Infinity" else "Infinity"
  | Finite negative m d =>
      if (m =? 0)%N then "0"
      else
        let ds := digits_of m in
        let s := strip_trailing_zeros ds in
        let k := String.length s in
        let n := (Z.of_nat (String.length ds) - Z.of_nat d)%Z in
        (if negative then "-" else "") ++
        (if (Z.of_nat k <=? n)%Z && (n <=? 21)%Z
         then s ++ zeros (Z.to_nat n - k)
         else if (0 <? n)%Z && (n <=? 21)%Z
         then substring 0 (Z.to_nat n) s ++ "." ++
              substring (Z.to_nat n) (k - Z.to_nat n) s
         else if (-6 <? n)%Z && (n <=? 0)%Z
         then "0." ++ zeros (Z.to_nat (- n)) ++ s
         else
           let e := (n - 1)%Z in
           let es := (if (e <? 0)%Z then "-" else "+") ++ digits_of (Z.abs_N e) in
           match s with
           | EmptyString => EmptyString
           | String c EmptyString => String c ("e" ++ es)
           | String c r => String c ("." ++ r ++ "e" ++ es)
           end)
  end.

(** ** Values

    The values that flow through the modelled code: [undefined] (which
    also stands for [null]), numbers, strings, and objects whose
    content is not looked at (the SDK clients). *)
Inductive Value :=
  | Undefined
  | Num (n : Number)
  | Str (s : string)
  | Obj (tag : string).

(** Conversion inside a template literal, and of a property key. *)
Definition ToString (v : Value) : string :=
  match v with
  | Undefined => "undefined"
  | Num n => NumberToString n
  | Str s => s
  | Obj _ => "[object Object]"
  end.

Definition ToBoolean (v : Value) : bool :=
  match v with
  | Undefined => false
  | Num NaN => false
  | Num (Finite _ m _) => negb (m =? 0)%N
  | Num (Infinity _) => true
  | Str s => negb (String.eqb s "")
  | Obj _ => true
  end.

(** [a || b] *)
Definition or (a b : Value) : Value := if ToBoolean a then a else b.

(** The global [isNaN(v)], which converts its argument with
    [Number(v)] first. *)
Definition isNaN (v : Value) : bool :=
  match v with
  | Undefined => true
  | Num n => isNaN_Number n
  | Str s => isNaN_Number (StringToNumber s)
  | Obj _ => true
  end.

(** ** Objects used as tables

    [table[key]] on an object literal finds the object's own property
    or, failing that, a member of [Object.prototype]. *)
Definition Object_prototype : list string :=
  [ "constructor"; "__defineGetter__"; "__defineSetter__"; "hasOwnProperty";
    "__lookupGetter__"; "__lookupSetter__"; "isPrototypeOf";
    "propertyIsEnumerable"; "toString"; "valueOf"; "__proto__";
    "toLocaleString" ].

Inductive Property (A : Type) :=
  | Own (a : A)
  | Inherited
  | Missing.
Arguments Own {A} a.
Arguments Inherited {A}.
Arguments Missing {A}.

Definition inherited {A : Type} (key : string) : Property A :=
  if array_includes Object_prototype key then Inherited else Missing.

(** An object literal or a parsed configuration: its own properties. *)
Definition Object := list (string * Value).

Fixpoint own (o : Object) (key : string) : option Value :=
  match o with
  | [] => None
  | (k, v) :: o' => if String.eqb k key then Some v else own o' key
  end.

(** [o.key], where a missing property reads as [undefined] *)
Definition get (o : Object) (key : string) : Value :=
  match own o key with Some v => v | None => Undefined end.

End Js.

Export Js (Number(..), Value(..), Property(..), Object).

(** ** Errors and results *)
Record Error := mkError {
  name : string;          (* "Error", "TypeError" *)
  code : option string;   (* [error.code], set by the fs module *)
  message : string
}.

Inductive Result (A : Type) :=
  | Return (a : A)
  | Throw (e : Error).
Arguments Return {A} a.
Arguments Throw {A} e.


(** ** The world outside the process

    Three local directories are told apart: the working copies
    ([UPLOAD_DIR]), the derivative cache ([CACHE_DIR]) and the root of
    a local disk.  They are taken to be distinct directories, and the
    logical paths of a local disk to be in normal form, so that
    [path.join(dir, p)] names the entry [p] of [dir]. *)
Definition Buffer := list Byte.byte.

Inductive Dir :=
  | UPLOAD_DIR
  | CACHE_DIR
  | Root (root : string).

#[global] Instance Dir_eq_dec : EqDecision Dir.
Proof. solve_decision. Defined.

(** The calls made through the cloud SDKs, with the arguments the
    drivers pass. *)
Inductive SdkCall :=
  | S3_HeadObject (Bucket : Value) (Key : string)
  | S3_DeleteObject (Bucket : Value) (Key : string)
  | S3_PutObject (Bucket : Value) (Key : string) (Body : Buffer)
      (ContentType ACL : Value)
  | S3_PutObject_CopySource (Bucket : Value) (Key : string) (CopySource : string)
  | Azure_getProperties (container : Value) (blob : string)
  | Azure_delete (container : Value) (blob : string)
  | Azure_upload (container : Value) (blob : string) (contents : Buffer)
      (blobContentType : Value)
  | Azure_beginCopyFromURL (container : Value) (source dest : string)
  | GCS_exists (bucket : Value) (file : string)
  | GCS_delete (bucket : Value) (file : string)
  | GCS_save (bucket : Value) (file : string) (contents : Buffer)
      (contentType : Value)
  | GCS_copy (bucket : Value) (source dest : string).

(** The operations of the fs module that the environment can make
    fail, besides the ENOENT of [access] and [unlink] on a missing
    entry. *)
Inductive Op :=
  | readdir (d : Dir)
  | access (d : Dir) (file : string)
  | unlink (d : Dir) (file : string)
  | writeFile (d : Dir) (file : string)
  | copyFile (d : Dir) (source dest : string)
  | mkdir (d : Dir) (file : string).

Inductive Encoder :=
  | jpeg (quality : N)
  | png (compressionLevel : N)
  | webp (quality : N)
  | gif.

Record World := {
  (** the entries of each directory, in the order [readdir] lists them *)
  files : Dir -> list (string * Buffer);
  (** the fs operations that fail, and with which error *)
  fault : Op -> option Error;
  (** the outcome of each SDK call; the boolean is the answer of
      [file.exists()] and is not looked at for the other calls *)
  sdk : SdkCall -> Result bool;
  (** the SDK calls issued so far, latest first *)
  sent : list SdkCall;
  (** the image library: [sharp(original).resize(width, height,
      {fit: 'inside', withoutEnlargement: true})], the encoder and
      [toBuffer()], on the bytes of the original *)
  sharp : option Buffer -> Value -> Value -> option Encoder -> Result Buffer;
  (** the next result of [uuidv4()] and of [new Date().toISOString()] *)
  uuid : string;
  now : string
}.

Definition set_files (w : World) (d : Dir) (l : list (string * Buffer)) : World :=
  {| files := fun d' => if decide (d' = d) then l else files w d';
     fault := fault w; sdk := sdk w; sent := sent w; sharp := sharp w;
     uuid := uuid w; now := now w |}.

Definition log_call (w : World) (c : SdkCall) : World :=
  {| files := files w; fault := fault w; sdk := sdk w; sent := c :: sent w;
     sharp := sharp w; uuid := uuid w; now := now w |}.

(** ** Asynchronous code: state and exceptions

    An [async] function is a computation over the world that returns or
    throws; [await] is the sequencing of the monad.  A handler is
    followed from its first step to its answer on its own: the steps of
    other requests are not interleaved with it. *)
Definition M (A : Type) : Type := World -> Result A * World.

Definition ret {A : Type} (a : A) : M A := fun w => (Return a, w).

Definition throw {A : Type} (e : Error) : M A := fun w => (Throw e, w).

Definition bind {A B : Type} (m : M A) (k : A -> M B) : M B :=
  fun w =>
    match m w with
    | (Return a, w') => k a w'
    | (Throw e, w') => (Throw e, w')
    end.

(** [try { m } catch (error) { h error }]: what [m] did before it threw
    stays done. *)
Definition try_catch {A : Type} (m : M A) (h : Error -> M A) : M A :=
  fun w =>
    match m w with
    | (Return a, w') => (Return a, w')
    | (Throw e, w') => h e w'
    end.

Notation "'let*' x ':=' m 'in' k" := (bind m (fun x => k))
  (at level 10, x name, m at level 100, k at level 200).
Notation "m '>>' k" := (bind m (fun _ => k))
  (at level 100, k at level 200, right associativity).

(** [for (const x of l) { await f x }] *)
Fixpoint for_of {A : Type} (l : list A) (f : A -> M unit) : M unit :=
  match l with
  | [] => ret tt
  | x :: l' => f x >> for_of l' f
  end.

Module fs.

Definition ENOENT : Error :=
  mkError "Error" (Some "ENOENT") "ENOENT: no such file or directory".

Definition lookup (l : list (string * Buffer)) (file : string) : option Buffer :=
  match find (fun e => String.eqb (fst e) file) l with
  | Some e => Some (snd e)
  | None => None
  end.

Definition remove (file : string) (l : list (string * Buffer)) : list (string * Buffer) :=
  List.filter (fun e => negb (String.eqb (fst e) file)) l.

(** An existing entry keeps its place in the listing; a new one goes
    to the end. *)
Definition store (file : string) (b : Buffer) (l : list (string * Buffer))
  : list (string * Buffer) :=
  match lookup l file with
  | Some _ => map (fun e => if String.eqb (fst e) file then (file, b) else e) l
  | None => l ++ [(file, b)]
  end.

Definition attempt (op : Op) : M unit :=
  fun w =>
    match fault w op with
    | Some e => (Throw e, w)
    | None => (Return tt, w)
    end.

Definition readdir (d : Dir) : M (list string) :=
  attempt (readdir d) >> fun w => (Return (map fst (files w d)), w).

Definition access (d : Dir) (file : string) : M unit :=
  attempt (access d file) >>
  fun w =>
    match lookup (files w d) file with
    | Some _ => (Return tt, w)
    | None => (Throw ENOENT, w)
    end.

Definition unlink (d : Dir) (file : string) : M unit :=
  attempt (unlink d file) >>
  fun w =>
    match lookup (files w d) file with
    | Some _ => (Return tt, set_files w d (remove file (files w d)))
    | None => (Throw ENOENT, w)
    end.

Definition writeFile (d : Dir) (file : string) (b : Buffer) : M unit :=
  attempt (writeFile d file) >>
  fun w => (Return tt, set_files w d (store file b (files w d))).

Definition copyFile (d : Dir) (source dest : string) : M unit :=
  attempt (copyFile d source dest) >>
  fun w =>
    match lookup (files w d) source with
    | Some b => (Return tt, set_files w d (store dest b (files w d)))
    | None => (Throw ENOENT, w)
    end.

(** [fs.mkdir(path.dirname(file), { recursive: true })] *)
Definition mkdir (d : Dir) (file : string) : M unit :=
  attempt (mkdir d file).

End fs.

(** A call through one of the cloud SDKs. *)
Definition send (c : SdkCall) : M bool :=
  fun w => (sdk w c, log_call w c).

(** ** Driver instances

    An instance of a driver class is the list of the own properties its
    constructor assigns; the methods live on the prototype of the class.
    Reading [instance.key] finds an own property first and the prototype
    method only when there is none, and calling what was found throws a
    TypeError unless it is a function. *)
Inductive DriverClass := Local | S3 | Azure | GCS.

Record Driver := {
  class : DriverClass;
  properties : Object
}.

Definition prototype (c : DriverClass) : list string :=
  [ "exists"; "get"; "put"; "delete"; "copy"; "size"; "lastModified";
    "mimeType"; "url"; "temporaryUrl" ] ++
  match c with
  | Local => [ "ensureDirectory"; "getFullPath" ]
  | _ => []
  end.

Inductive Member :=
  | Field (v : Value)
  | Method.

Definition member (d : Driver) (key : string) : Member :=
  match Js.own (properties d) key with
  | Some v => Field v
  | None =>
      if Js.array_includes (prototype (class d)) key then Method
      else Field Undefined
  end.

Definition TypeError (msg : string) : Error := mkError "TypeError" None msg.

(** [receiver.key(...)], where [body] is the method of the class *)
Definition invoke {A : Type} (receiver : string) (d : Driver) (key : string)
    (body : M A) : M A :=
  match member d key with
  | Method => body
  | Field _ => throw (TypeError (receiver ++ "." ++ key ++ " is not a function"))
  end.

(** [this.key] for a data property *)
Definition this (d : Driver) (key : string) : Value := Js.get (properties d) key.

(** The second argument of [put] *)
Record PutOptions := {
  contentType : Value;
  acl : Value
}.

(** *** Local filesystem driver *)
Module LocalDriver.

(** [process.cwd()] is written as the directory [.] *)
Definition constructor (config : Object) : Driver :=
  {| class := Local;
     properties :=
       [ ("root", Js.or (Js.get config "root") (Str "./storage"));
         ("url", Js.or (Js.get config "url") (Str "/storage")) ] |}.

Definition root (d : Driver) : Dir := Root (Js.ToString (this d "root")).

Definition ensureDirectory (d : Driver) (file : string) : M unit :=
  try_catch (fs.mkdir (root d) file)
    (fun error =>
       if negb (bool_decide (code error = Some "EEXIST")) then throw error
       else ret tt).

Definition exists_ (d : Driver) (filePath : string) : M bool :=
  try_catch (fs.access (root d) filePath >> ret true)
    (fun _ => ret false).

Definition put (d : Driver) (filePath : string) (contents : Buffer)
    (options : PutOptions) : M bool :=
  ensureDirectory d filePath >>
  fs.writeFile (root d) filePath contents >>
  ret true.

Definition delete (d : Driver) (filePath : string) : M bool :=
  try_catch (fs.unlink (root d) filePath >> ret true)
    (fun error =>
       if bool_decide (code error = Some "ENOENT") then ret false
       else throw error).

Definition copy (d : Driver) (from to : string) : M bool :=
  ensureDirectory d to >>
  fs.copyFile (root d) from to >>
  ret true.

Definition url (d : Driver) (filePath : string) : M string :=
  ret (Js.ToString (this d "url") ++ "/" ++ filePath).

End LocalDriver.

(** *** AWS S3 driver *)
Module S3Driver.

Definition constructor (config : Object) : Driver :=
  {| class := S3;
     properties :=
       [ ("bucket", Js.get config "bucket");
         ("region", Js.or (Js.get config "region") (Str "us-east-1"));
         ("url", Js.get config "url");
         ("client", Js.Obj "S3Client") ] |}.

Definition exists_ (d : Driver) (filePath : string) : M bool :=
  try_catch (send (S3_HeadObject (this d "bucket") filePath) >> ret true)
    (fun _ => ret false).

Definition put (d : Driver) (filePath : string) (contents : Buffer)
    (options : PutOptions) : M bool :=
  send (S3_PutObject (this d "bucket") filePath contents
          (contentType options) (Js.or (acl options) (Str "public-read"))) >>
  ret true.

Definition delete (d : Driver) (filePath : string) : M bool :=
  try_catch (send (S3_DeleteObject (this d "bucket") filePath) >> ret true)
    (fun _ => ret false).

Definition copy (d : Driver) (from to : string) : M bool :=
  send (S3_PutObject_CopySource (this d "bucket") to
          (Js.ToString (this d "bucket") ++ "/" ++ from)) >>
  ret true.

Definition url (d : Driver) (filePath : string) : M string :=
  if Js.ToBoolean (this d "url")
  then ret (Js.ToString (this d "url") ++ "/" ++ filePath)
  else ret ("https://" ++ Js.ToString (this d "bucket") ++ ".s3." ++
            Js.ToString (this d "region") ++ ".amazonaws.com/" ++ filePath).

End S3Driver.

(** *** Azure Blob Storage driver *)
Module AzureDriver.

Definition constructor (config : Object) : Driver :=
  {| class := Azure;
     properties :=
       [ ("containerName", Js.or (Js.get config "container") (Str "files"));
         ("connectionString", Js.get config "connectionString");
         ("url", Js.get config "url");
         ("client", Js.Obj "BlobServiceClient");
         ("containerClient", Js.Obj "ContainerClient") ] |}.

Definition exists_ (d : Driver) (filePath : string) : M bool :=
  try_catch (send (Azure_getProperties (this d "containerName") filePath) >> ret true)
    (fun _ => ret false).

Definition put (d : Driver) (filePath : string) (contents : Buffer)
    (options : PutOptions) : M bool :=
  send (Azure_upload (this d "containerName") filePath contents
          (contentType options)) >>
  ret true.

Definition delete (d : Driver) (filePath : string) : M bool :=
  try_catch (send (Azure_delete (this d "containerName") filePath) >> ret true)
    (fun _ => ret false).

Definition copy (d : Driver) (from to : string) : M bool :=
  send (Azure_beginCopyFromURL (this d "containerName") from to) >>
  ret true.

(** [blobClient.url] of the SDK is the URL of the blob inside its
    container; the account part comes from the connection string and is
    left as a placeholder. *)
Definition url (d : Driver) (filePath : string) : M string :=
  if Js.ToBoolean (this d "url")
  then ret (Js.ToString (this d "url") ++ "/" ++ filePath)
  else ret ("https://{account}.blob.core.windows.net/" ++
            Js.ToString (this d "containerName") ++ "/" ++ filePath).

End AzureDriver.

(** *** Google Cloud Storage driver *)
Module GCSDriver.

Definition constructor (config : Object) : Driver :=
  {| class := GCS;
     properties :=
       [ ("bucketName", Js.get config "bucket");
         ("projectId", Js.get config "projectId");
         ("keyFilename", Js.get config "keyFilename");
         ("url", Js.get config "url");
         ("storage", Js.Obj "Storage");
         ("bucket", Js.Obj "Bucket") ] |}.

Definition exists_ (d : Driver) (filePath : string) : M bool :=
  let* exists' := send (GCS_exists (this d "bucketName") filePath) in
  ret exists'.

Definition put (d : Driver) (filePath : string) (contents : Buffer)
    (options : PutOptions) : M bool :=
  send (GCS_save (this d "bucketName") filePath contents (contentType options)) >>
  ret true.

Definition delete (d : Driver) (filePath : string) : M bool :=
  try_catch (send (GCS_delete (this d "bucketName") filePath) >> ret true)
    (fun _ => ret false).

Definition copy (d : Driver) (from to : string) : M bool :=
  send (GCS_copy (this d "bucketName") from to) >>
  ret true.

Definition url (d : Driver) (filePath : string) : M string :=
  if Js.ToBoolean (this d "url")
  then ret (Js.ToString (this d "url") ++ "/" ++ filePath)
  else ret ("https://storage.googleapis.com/" ++
            Js.ToString (this d "bucketName") ++ "/" ++ filePath).

End GCSDriver.

(** ** FilesystemAdapter *)
Record FilesystemAdapter := {
  driver : string;
  config : Object;
  client : Driver
}.

Module FilesystemAdapter.

Definition initializeDriver (driver : string) (config : Object) : Result Driver :=
  if String.eqb driver "local" then Return (LocalDriver.constructor config)
  else if String.eqb driver "s3" then Return (S3Driver.constructor config)
  else if String.eqb driver "azure" then Return (AzureDriver.constructor config)
  else if String.eqb driver "gcs" then Return (GCSDriver.constructor config)
  else Throw (mkError "Error" None ("Unsupported storage driver: " ++ driver)).

(** [new FilesystemAdapter(driver, config)]; an argument that is
    [undefined] takes the default of the parameter. *)
Definition constructor (driver : Value) (config : option Object)
  : Result FilesystemAdapter :=
  let driver := match driver with Undefined => "local" | v => Js.ToString v end in
  let config := match config with Some c => c | None => [] end in
  match initializeDriver driver config with
  | Return c => Return {| driver := driver; config := config; client := c |}
  | Throw e => Throw e
  end.

Definition exists_ (a : FilesystemAdapter) (filePath : string) : M bool :=
  invoke "this.client" (client a) "exists"
    match class (client a) with
    | Local => LocalDriver.exists_ (client a) filePath
    | S3 => S3Driver.exists_ (client a) filePath
    | Azure => AzureDriver.exists_ (client a) filePath
    | GCS => GCSDriver.exists_ (client a) filePath
    end.

Definition put (a : FilesystemAdapter) (filePath : string) (contents : Buffer)
    (options : PutOptions) : M bool :=
  invoke "this.client" (client a) "put"
    match class (client a) with
    | Local => LocalDriver.put (client a) filePath contents options
    | S3 => S3Driver.put (client a) filePath contents options
    | Azure => AzureDriver.put (client a) filePath contents options
    | GCS => GCSDriver.put (client a) filePath contents options
    end.

Definition delete (a : FilesystemAdapter) (filePath : string) : M bool :=
  invoke "this.client" (client a) "delete"
    match class (client a) with
    | Local => LocalDriver.delete (client a) filePath
    | S3 => S3Driver.delete (client a) filePath
    | Azure => AzureDriver.delete (client a) filePath
    | GCS => GCSDriver.delete (client a) filePath
    end.

Definition copy (a : FilesystemAdapter) (from to : string) : M bool :=
  invoke "this.client" (client a) "copy"
    match class (client a) with
    | Local => LocalDriver.copy (client a) from to
    | S3 => S3Driver.copy (client a) from to
    | Azure => AzureDriver.copy (client a) from to
    | GCS => GCSDriver.copy (client a) from to
    end.

Definition move (a : FilesystemAdapter) (from to : string) : M bool :=
  copy a from to >>
  delete a from >>
  ret true.

Definition url (a : FilesystemAdapter) (filePath : string) : M string :=
  invoke "this.client" (client a) "url"
    match class (client a) with
    | Local => LocalDriver.url (client a) filePath
    | S3 => S3Driver.url (client a) filePath
    | Azure => AzureDriver.url (client a) filePath
    | GCS => GCSDriver.url (client a) filePath
    end.

End FilesystemAdapter.

(** ** Configuration ([config.storage]) *)
Record DiskConfig := {
  disk_driver : Value;
  disk_config : option Object
}.

Record Storage := {
  default : Value;
  local : option Object;
  disks : option (list (string * DiskConfig))
}.

Record Config := {
  storage : option Storage
}.

(** [config.storage?.default] *)
Definition storage_default (config : Config) : Value :=
  match storage config with Some s => default s | None => Undefined end.

(** [config.storage?.local?.key] *)
Definition storage_local (config : Config) (key : string) : Value :=
  match storage config with
  | Some s => match local s with Some o => Js.get o key | None => Undefined end
  | None => Undefined
  end.

(** [config.storage?.disks || {}], as the list of its entries *)
Definition storage_disks (config : Config) : list (string * DiskConfig) :=
  match storage config with
  | Some s => match disks s with Some l => l | None => [] end
  | None => []
  end.

(** ** StorageManager *)
Record StorageManager := {
  manager_disks : gmap string FilesystemAdapter;
  defaultDisk : string
}.

Module StorageManager.

(** [this.disks[name]] on an object created as [{}] *)
Definition disks_get (disks : gmap string FilesystemAdapter) (name : string)
  : Property FilesystemAdapter :=
  match disks !! name with
  | Some a => Own a
  | None => Js.inherited name
  end.

(** The loop over [Object.entries(disks)].  (An entry named
    [__proto__] would replace the prototype of [this.disks] instead of
    adding a property; an object literal cannot have such an entry.) *)
Fixpoint configured (entries : list (string * DiskConfig))
    (disks : gmap string FilesystemAdapter)
  : Result (gmap string FilesystemAdapter) :=
  match entries with
  | [] => Return disks
  | (name, diskConfig) :: entries' =>
      match FilesystemAdapter.constructor (disk_driver diskConfig)
              (disk_config diskConfig) with
      | Return a => configured entries' (<[name := a]> disks)
      | Throw e => Throw e
      end
  end.

Definition initializeDisks (config : Config) (defaultDisk : string)
  : Result (gmap string FilesystemAdapter) :=
  match configured (storage_disks config) ∅ with
  | Throw e => Throw e
  | Return disks =>
      (* Ensure default disk exists *)
      match disks_get disks defaultDisk with
      | Missing =>
          match FilesystemAdapter.constructor (Str "local")
                  (Some [ ("root", Js.or (storage_local config "root") (Str "storage"));
                          ("url", Js.or (storage_local config "url") (Str "/storage")) ]) with
          | Return a => Return (<[defaultDisk := a]> disks)
          | Throw e => Throw e
          end
      | _ => Return disks
      end
  end.

(** [new StorageManager()], run once when the module is loaded *)
Definition constructor (config : Config) : Result StorageManager :=
  let defaultDisk := Js.ToString (Js.or (storage_default config) (Str "local")) in
  match initializeDisks config defaultDisk with
  | Return disks => Return {| manager_disks := disks; defaultDisk := defaultDisk |}
  | Throw e => Throw e
  end.

(** What [disk(name)] hands back: an adapter, or the member of
    [Object.prototype] of that name. *)
Inductive Disk :=
  | Adapter (a : FilesystemAdapter)
  | Builtin (name : string).

Definition disk (m : StorageManager) (name : Value) : Result Disk :=
  let diskName := Js.ToString (Js.or name (Str (defaultDisk m))) in
  match disks_get (manager_disks m) diskName with
  | Own a => Return (Adapter a)
  | Inherited => Return (Builtin diskName)
  | Missing =>
      Throw (mkError "Error" None
               ("Storage disk " ++ Js.quoted diskName ++ " is not configured"))
  end.

End StorageManager.

(** ** [path.extname] *)
Module path.

Fixpoint drop_slashes (s : list ascii) : list ascii :=
  match s with
  | "/"%char :: s' => drop_slashes s'
  | _ => s
  end.

Fixpoint upto_slash (s : list ascii) : list ascii :=
  match s with
  | [] => []
  | c :: s' => if Ascii.eqb c "/" then [] else c :: upto_slash s'
  end.

(** The characters up to and including the first dot, with what
    follows the dot. *)
Fixpoint upto_dot (s : list ascii) : option (list ascii * list ascii) :=
  match s with
  | [] => None
  | c :: s' =>
      if Ascii.eqb c "." then Some ([c], s')
      else match upto_dot s' with
           | Some (e, r) => Some (c :: e, r)
           | None => None
           end
  end.

(** The extension of the last segment of the path, read from its end:
    empty when the segment has no dot, starts with its only dot, or is
    [..]. *)
Definition extname (p : string) : string :=
  let base := upto_slash (drop_slashes (List.rev (list_ascii_of_string p))) in
  match upto_dot base with
  | None => ""
  | Some (_, []) => ""
  | Some (e, _ :: _) =>
      if bool_decide (base = ["."; "."]%char) then ""
      else string_of_list_ascii (List.rev e)
  end.

End path.

(** ** The HTTP handlers of [src/index.js] *)

Record FileInfo := {
  fi_id : string;
  fi_originalName : string;
  fi_filename : string;
  fi_path : string;
  fi_size : nat;
  fi_mimetype : string;
  fi_disk : Value;
  fi_uploadedBy : Value;
  fi_uploadedAt : string;
  fi_url : string
}.

(** What the handler sends: [res.status(n).json(...)], [res.json(...)],
    [res.sendFile(...)] or [res.send(buffer)] with its two headers.
    The field [details] of the upload error, present in development
    mode only, is left out. *)
Inductive Body :=
  | error_json (error : string) (message : option string)
  | upload_json (file : FileInfo)
  | deleted_json (message : string) (deletedBy : Value)
  | sendFile (d : Dir) (file : string)
  | send_image (Content_Type Cache_Control : string) (data : Buffer).

Record Response := {
  status : N;
  body : Body
}.

Definition res_json (b : Body) : M Response := ret {| status := 200; body := b |}.

Definition res_status_json (n : N) (error : string) (msg : option string) : M Response :=
  ret {| status := n; body := error_json error msg |}.

Record Size := {
  width : Value;
  height : Value
}.

Definition supportedFormats : list string := ["jpeg"; "jpg"; "png"; "webp"; "gif"].

Definition presetSizes : list (string * Size) :=
  [ ("thumbnail", {| width := Num (Js.num 150); height := Num (Js.num 150) |});
    ("small", {| width := Num (Js.num 300); height := Num (Js.num 300) |});
    ("medium", {| width := Num (Js.num 800); height := Num (Js.num 800) |});
    ("large", {| width := Num (Js.num 1920); height := Num (Js.num 1080) |}) ].

(** [presetSizes[size]] *)
Definition preset (size : string) : Property Size :=
  match find (fun e => String.eqb (fst e) size) presetSizes with
  | Some e => Own (snd e)
  | None => Js.inherited size
  end.

(** Lines 274-292 of the variant handler: the width and height asked
    for, or the error of the 400 response.  A member of
    [Object.prototype] is truthy and has neither a [width] nor a
    [height]. *)
Definition parseSize (size : string) : Size + string :=
  match preset size with
  | Own p => inl p
  | Inherited => inl {| width := Undefined; height := Undefined |}
  | Missing =>
      if Js.includes size "x" then
        let parts := map (fun p => Num (Js.StringToNumber p)) (Js.split size "x") in
        let width := nth 0 parts Undefined in
        let height := nth 1 parts Undefined in
        if Js.isNaN width || Js.isNaN height then inr "Invalid size format"
        else inl {| width := width; height := height |}
      else inr "Invalid size parameter"
  end.

Definition cacheKey (id : string) (sz : Size) (format : string) : string :=
  id ++ "_" ++ Js.ToString (width sz) ++ "x" ++ Js.ToString (height sz) ++ "_" ++ format.

(** The entry of [CACHE_DIR] that [cachePath] names *)
Definition cacheFile (id : string) (sz : Size) (format : string) : string :=
  cacheKey id sz format ++ "." ++ format.

(** The [switch (format.toLowerCase())] *)
Definition encoder (format : string) : option Encoder :=
  let f := Js.toLowerCase format in
  if String.eqb f "jpeg" || String.eqb f "jpg" then Some (jpeg 85)
  else if String.eqb f "png" then Some (png 8)
  else if String.eqb f "webp" then Some (webp 85)
  else if String.eqb f "gif" then Some gif
  else None.

Definition contentType_of (format : string) : string :=
  "image/" ++ (if String.eqb format "jpg" then "jpeg" else format).

Definition toBuffer (originalFile : string) (sz : Size) (e : option Encoder) : M Buffer :=
  fun w =>
    (sharp w (fs.lookup (files w UPLOAD_DIR) originalFile) (width sz) (height sz) e, w).

(** [files.find(f => f.startsWith(id))] *)
Definition find_original (files : list string) (id : string) : option string :=
  find (fun f => Js.startsWith f id) files.

(** [GET /api/image/:id] *)
Definition get_image (id : string) : M Response :=
  try_catch
    (let* files := fs.readdir UPLOAD_DIR in
     match find_original files id with
     | None => res_status_json 404 "Image not found" None
     | Some file => res_json (sendFile UPLOAD_DIR file)
     end)
    (fun error => res_status_json 500 "Failed to serve image" None).

(** [GET /api/image/:id/:size/:format] *)
Definition get_variant (id size format : string) : M Response :=
  try_catch
    (if negb (Js.array_includes supportedFormats (Js.toLowerCase format))
     then res_status_json 400 "Unsupported format" None
     else
       let* files := fs.readdir UPLOAD_DIR in
       match find_original files id with
       | None => res_status_json 404 "Image not found" None
       | Some originalFile =>
           match parseSize size with
           | inr msg => res_status_json 400 msg None
           | inl sz =>
               let cachePath := cacheFile id sz format in
               let* cached :=
                 try_catch (fs.access CACHE_DIR cachePath >> ret true)
                   (fun _ => ret false) in
               if cached : bool then res_json (sendFile CACHE_DIR cachePath)
               else
                 let* processedBuffer := toBuffer originalFile sz (encoder format) in
                 fs.writeFile CACHE_DIR cachePath processedBuffer >>
                 res_json (send_image (contentType_of format)
                             "public, max-age=31536000" processedBuffer)
           end
       end)
    (fun error =>
       res_status_json 500 "Failed to process image" (Some (message error))).

(** A method call on what [storage.disk(name)] returned. *)
Definition disk_call {A : Type} (disk : StorageManager.Disk) (key : string)
    (method : FilesystemAdapter -> M A) : M A :=
  match disk with
  | StorageManager.Adapter a => method a
  | StorageManager.Builtin _ => throw (TypeError ("disk." ++ key ++ " is not a function"))
  end.

Definition lift {A : Type} (r : Result A) : M A := fun w => (r, w).

Definition uuidv4 : M string := fun w => (Return (uuid w), w).

Definition toISOString : M string := fun w => (Return (now w), w).

(** [req.file] as multer's memory storage fills it *)
Record UploadedFile := {
  originalname : string;
  mimetype : string;
  buffer : Buffer
}.

(** Whether the probe [fs.access(cachePath)] of the variant handler
    goes through. *)
Definition cache_hit (w : World) (file : string) : bool :=
  match fst (fs.access CACHE_DIR file w) with
  | Return _ => true
  | Throw _ => false
  end.

(** The names [fs.readdir(UPLOAD_DIR)] lists. *)
Definition originals (w : World) : list string := map fst (files w UPLOAD_DIR).

Section Handlers.

(** The two modules the handlers close over: [require('./config')] and
    the manager exported by [require('./storage/StorageManager')]. *)
Variable config : Config.
Variable storage : StorageManager.

(** [req.body.disk || config.storage?.default || 'local'], the same
    expression on [req.query.disk] in the delete handler *)
Definition diskName_of (requested : Value) : Value :=
  Js.or (Js.or requested (storage_default config)) (Str "local").

(** [POST /api/upload], after [authenticate] and [upload.single] *)
Definition upload (userId : Value) (file : option UploadedFile) (body_disk : Value)
  : M Response :=
  try_catch
    (match file with
     | None => res_status_json 400 "No file uploaded" None
     | Some f =>
         let* uniqueId := uuidv4 in
         let ext := path.extname (originalname f) in
         let filename := uniqueId ++ ext in
         let filePath := "images/" ++ filename in
         let diskName := diskName_of body_disk in
         let* disk := lift (StorageManager.disk storage diskName) in
         disk_call disk "put"
           (fun a => FilesystemAdapter.put a filePath (buffer f)
                       {| contentType := Str (mimetype f); acl := Undefined |}) >>
         fs.writeFile UPLOAD_DIR filename (buffer f) >>
         let* uploadedAt := toISOString in
         let* url := disk_call disk "url" (fun a => FilesystemAdapter.url a filePath) in
         res_json (upload_json
           {| fi_id := uniqueId;
              fi_originalName := originalname f;
              fi_filename := filename;
              fi_path := filePath;
              fi_size := List.length (buffer f);
              fi_mimetype := mimetype f;
              fi_disk := diskName;
              fi_uploadedBy := userId;
              fi_uploadedAt := uploadedAt;
              fi_url := url |})
     end)
    (fun error => res_status_json 500 "Upload failed" (Some (message error))).

(** [DELETE /api/image/:id], after [authenticate] *)
Definition delete_image (userId : Value) (id : string) (query_disk : Value)
  : M Response :=
  try_catch
    (let diskName := diskName_of query_disk in
     let* disk := lift (StorageManager.disk storage diskName) in
     try_catch
       (let* files := fs.readdir UPLOAD_DIR in
        let originalFile := find_original files id in
        match originalFile with
        | Some f =>
            let fullPath := "images/" ++ f in
            let* present :=
              disk_call disk "exists" (fun a => FilesystemAdapter.exists_ a fullPath) in
            if present : bool
            then disk_call disk "delete" (fun a => FilesystemAdapter.delete a fullPath) >> ret tt
            else ret tt
        | None => ret tt
        end >>
        match originalFile with
        | Some f => try_catch (fs.unlink UPLOAD_DIR f) (fun _ => ret tt)
        | None => ret tt
        end)
       (fun _ => ret tt) >>
     try_catch
       (let* cacheFiles := fs.readdir CACHE_DIR in
        let relatedCacheFiles := List.filter (fun f => Js.startsWith f id) cacheFiles in
        for_of relatedCacheFiles (fun cacheFile => fs.unlink CACHE_DIR cacheFile) >>
        res_json (deleted_json "Image deleted successfully" userId))
       (fun _ => res_json (deleted_json "Image deleted from storage" userId)))
    (fun error => res_status_json 500 "Failed to delete image" (Some (message error))).

End Handlers.

(** ** Sample inputs *)
Module Sample.

Definition no_error : Op -> option Error := fun _ => None.

Definition reachable : SdkCall -> Result bool := fun _ => Return true.

Definition unreachable : SdkCall -> Result bool :=
  fun _ => Throw (mkError "Error" (Some "ETIMEDOUT") "connect ETIMEDOUT").

Definition pixels : Buffer := [Byte.x89; Byte.x50; Byte.x4e; Byte.x47].

Definition rendered : Buffer := [Byte.x52; Byte.x49; Byte.x46; Byte.x46].

(** An image library that, like sharp's [resize], takes a dimension
    that is [undefined] or a positive integer and throws on any other. *)
Definition positive_integer (v : Value) : bool :=
  match v with
  | Undefined => true
  | Num (Js.Finite false m O) => negb (m =? 0)%N
  | _ => false
  end.

Definition renders : option Buffer -> Value -> Value -> option Encoder -> Result Buffer :=
  fun original width height _ =>
    match original with
    | None => Throw (mkError "Error" None "Input file is missing")
    | Some _ =>
        if negb (positive_integer width) then
          Throw (mkError "Error" None
                   ("Expected positive integer for width but received " ++
                    Js.ToString width ++ " of type number"))
        else if negb (positive_integer height) then
          Throw (mkError "Error" None
                   ("Expected positive integer for height but received " ++
                    Js.ToString height ++ " of type number"))
        else Return rendered
    end.

Definition dirs (uploads cache local_root : list (string * Buffer)) : Dir -> list (string * Buffer) :=
  fun d =>
    match d with
    | UPLOAD_DIR => uploads
    | CACHE_DIR => cache
    | Root _ => local_root
    end.

Definition world (uploads cache local_root : list (string * Buffer)) : World :=
  {| files := dirs uploads cache local_root; fault := no_error; sdk := reachable;
     sent := []; sharp := renders; uuid := "1b9d6bcd"; now := "2024-01-01T00:00:00.000Z" |}.

Definition with_fault (w : World) (f : Op -> option Error) : World :=
  {| files := files w; fault := f; sdk := sdk w; sent := sent w; sharp := sharp w;
     uuid := uuid w; now := now w |}.

Definition with_sdk (w : World) (f : SdkCall -> Result bool) : World :=
  {| files := files w; fault := fault w; sdk := f; sent := sent w; sharp := sharp w;
     uuid := uuid w; now := now w |}.

(** The configuration [config/index.js] builds from an empty
    environment: the local disk only. *)
Definition config_default : Config :=
  {| storage := Some
       {| default := Str "local";
          local := Some [("root", Str "storage"); ("url", Str "/storage")];
          disks := Some
            [ ("local", {| disk_driver := Str "local";
                           disk_config := Some [("root", Str "storage"); ("url", Str "/storage")] |}) ] |} |}.



(** The manager built from [config_s3_default]: the implicit local
    backend, registered under the name "s3". *)
Definition fallback : FilesystemAdapter :=
  {| driver := "local";
     config := [("root", Str "storage"); ("url", Str "/storage")];
     client := LocalDriver.constructor [("root", Str "storage"); ("url", Str "/storage")] |}.


Definition manager_default : StorageManager :=
  {| manager_disks := <["local" := fallback]> ∅; defaultDisk := "local" |}.


Definition s3_adapter : FilesystemAdapter :=
  {| driver := "s3";
     config := [("bucket", Str "assets")];
     client := S3Driver.constructor [("bucket", Str "assets")] |}.

Definition EACCES : Error := mkError "Error" (Some "EACCES") "EACCES: permission denied".

Definition ENOSPC : Error := mkError "Error" (Some "ENOSPC") "ENOSPC: no space left on device".

Definition timeout : Error := mkError "Error" (Some "ETIMEDOUT") "connect ETIMEDOUT".

(** The bucket accepts writes and refuses deletions. *)
Definition delete_refused : SdkCall -> Result bool :=
  fun c =>
    match c with
    | S3_DeleteObject _ _ => Throw timeout
    | _ => Return true
    end.

End Sample.


(** ** Vocabulary of the statements *)

(** The adapter was built by [new FilesystemAdapter(driver, config)]. *)
Definition constructed (a : FilesystemAdapter) : Prop :=
  exists driver config, FilesystemAdapter.constructor driver config = Return a.

(** The call returns a boolean: it does not throw. *)
Definition returns (w : World) (m : M bool) : Prop := exists b w', m w = (Return b, w').

Definition supported (format : string) : bool :=
  Js.array_includes supportedFormats (Js.toLowerCase format).

Definition response (n : N) (b : Body) : Response := {| status := n; body := b |}.

(** Strings of decimal digits *)
Definition digits (s : string) : bool :=
  forallb Js.is_digit (list_ascii_of_string s).

Definition preset_forms : list (string * string) :=
  [ ("thumbnail", "150x150"); ("small", "300x300"); ("medium", "800x800");
    ("large", "1920x1080") ].

(** What precedes the format token in a cache key *)
Definition key_prefix (id : string) (sz : Size) : string :=
  id ++ "_" ++ Js.ToString (width sz) ++ "x" ++ Js.ToString (height sz) ++ "_".

(** No operation of the fs module is made to fail, and every SDK call
    comes back. *)
Definition quiet (w : World) : Prop :=
  (forall op, fault w op = None) /\ (forall c, exists b, sdk w c = Return b).

(** What the handler's [disk.exists] and [disk.delete] leave behind for
    the path [p]: on a local disk the entry is gone; on the other disks
    the deletion was sent (on gcs, if [file.exists()] answered true). *)
Definition removed_from_backend (a : FilesystemAdapter) (p : string) (w w' : World) : Prop :=
  match class (client a) with
  | Local => fs.lookup (files w' (LocalDriver.root (client a))) p = None
  | S3 => In (S3_DeleteObject (this (client a) "bucket") p) (sent w')
  | Azure => In (Azure_delete (this (client a) "containerName") p) (sent w')
  | GCS =>
      sdk w (GCS_exists (this (client a) "bucketName") p) = Return true ->
      In (GCS_delete (this (client a) "bucketName") p) (sent w')
  end.

(** ** Reading files

    [fs.readFile] and [fs.stat] only read.  The reads that the
    environment makes fail, and the creation times [fs.stat] reports,
    are given beside the world. *)
Inductive ReadOp :=
  | readFile (d : Dir) (file : string)
  | stat (d : Dir) (file : string).

Record Stats := {
  stats_size : nat;
  stats_birthtime : string
}.

Record Reads := {
  read_fault : ReadOp -> option Error;
  birthtime : Dir -> string -> string;
  (** [sharp(file).metadata()], on the bytes of the file *)
  metadata : option Buffer -> Result Object
}.

Module fs_read.

Definition readFile (env : Reads) (d : Dir) (file : string) : M Buffer :=
  fun w =>
    match read_fault env (readFile d file) with
    | Some e => (Throw e, w)
    | None =>
        match fs.lookup (files w d) file with
        | Some b => (Return b, w)
        | None => (Throw fs.ENOENT, w)
        end
    end.

Definition stat (env : Reads) (d : Dir) (file : string) : M Stats :=
  fun w =>
    match read_fault env (stat d file) with
    | Some e => (Throw e, w)
    | None =>
        match fs.lookup (files w d) file with
        | Some b =>
            (Return {| stats_size := List.length b; stats_birthtime := birthtime env d file |}, w)
        | None => (Throw fs.ENOENT, w)
        end
    end.

End fs_read.

(** ** [path.parse(p).name] *)
Module path_parse.

(** The last segment of the path without its extension; the extension
    is the one [path.extname] finds. *)
Definition name (p : string) : string :=
  let base := path.upto_slash (path.drop_slashes (List.rev (list_ascii_of_string p))) in
  match path.upto_dot base with
  | None => string_of_list_ascii (List.rev base)
  | Some (_, []) => string_of_list_ascii (List.rev base)
  | Some (_, (_ :: _) as r) =>
      if bool_decide (base = ["."; "."]%char) then string_of_list_ascii (List.rev base)
      else string_of_list_ascii (List.rev r)
  end.

End path_parse.

(** ** The rest of the local driver *)
Module LocalDriverReads.

Definition get (env : Reads) (d : Driver) (filePath : string) : M Buffer :=
  fs_read.readFile env (LocalDriver.root d) filePath.

Definition size (env : Reads) (d : Driver) (filePath : string) : M nat :=
  let* stats := fs_read.stat env (LocalDriver.root d) filePath in
  ret (stats_size stats).

Definition mimeTypes : list (string * string) :=
  [ (".jpg", "image/jpeg"); (".jpeg", "image/jpeg"); (".png", "image/png");
    (".gif", "image/gif"); (".webp", "image/webp"); (".svg", "image/svg+xml");
    (".pdf", "application/pdf"); (".txt", "text/plain");
    (".json", "application/json") ].

(** [mimeTypes[ext] || 'application/octet-stream']; a member of
    [Object.prototype] would be handed back as it is. *)
Definition mimeType (d : Driver) (filePath : string) : M Value :=
  let ext := Js.toLowerCase (path.extname filePath) in
  ret match find (fun e => String.eqb (fst e) ext) mimeTypes with
      | Some e => Js.or (Str (snd e)) (Str "application/octet-stream")
      | None =>
          match @Js.inherited unit ext with
          | Inherited => Js.Obj ext
          | _ => Str "application/octet-stream"
          end
      end.

(** [return this.url(filePath)] *)
Definition temporaryUrl (d : Driver) (filePath : string) (expiration : Value) : M string :=
  invoke "this" d "url" (LocalDriver.url d filePath).

End LocalDriverReads.

(** [FilesystemAdapter.temporaryUrl]; the signed URLs of the three
    cloud drivers come from their SDKs and are given as [signed]. *)
Definition adapter_temporaryUrl (signed : Driver -> string -> Value -> M string)
    (a : FilesystemAdapter) (filePath : string) (expiration : Value) : M string :=
  invoke "this.client" (client a) "temporaryUrl"
    match class (client a) with
    | Local => LocalDriverReads.temporaryUrl (client a) filePath expiration
    | _ => signed (client a) filePath expiration
    end.

(** ** The storage section of [config/index.js]

    [envVars] holds the variables after validation; a variable that is
    not set is [undefined]. *)
Record EnvVars := {
  STORAGE_DEFAULT : Value;
  STORAGE_LOCAL_ROOT : Value;
  STORAGE_LOCAL_URL : Value;
  STORAGE_S3_BUCKET : Value;
  STORAGE_S3_REGION : Value;
  STORAGE_S3_URL : Value;
  AWS_ACCESS_KEY_ID : Value;
  AWS_SECRET_ACCESS_KEY : Value;
  STORAGE_AZURE_CONTAINER : Value;
  STORAGE_AZURE_CONNECTION_STRING : Value;
  STORAGE_AZURE_URL : Value;
  STORAGE_GCS_BUCKET : Value;
  STORAGE_GCS_PROJECT_ID : Value;
  STORAGE_GCS_KEY_FILENAME : Value;
  STORAGE_GCS_URL : Value
}.

(** [...(flag && { name: disk })] *)
Definition spread_if (flag : Value) (name : string) (disk : DiskConfig)
  : list (string * DiskConfig) :=
  if Js.ToBoolean flag then [(name, disk)] else [].

Definition config_of (envVars : EnvVars) : Config :=
  {| storage := Some
       {| default := STORAGE_DEFAULT envVars;
          local := Some [ ("root", STORAGE_LOCAL_ROOT envVars);
                          ("url", STORAGE_LOCAL_URL envVars) ];
          disks := Some
            ([ ("local",
                {| disk_driver := Str "local";
                   disk_config := Some [ ("root", STORAGE_LOCAL_ROOT envVars);
                                         ("url", STORAGE_LOCAL_URL envVars) ] |}) ] ++
             spread_if (STORAGE_S3_BUCKET envVars) "s3"
               {| disk_driver := Str "s3";
                  disk_config := Some
                    [ ("bucket", STORAGE_S3_BUCKET envVars);
                      ("region", STORAGE_S3_REGION envVars);
                      ("url", STORAGE_S3_URL envVars);
                      ("credentials",
                       if Js.ToBoolean (AWS_ACCESS_KEY_ID envVars) &&
                          Js.ToBoolean (AWS_SECRET_ACCESS_KEY envVars)
                       then Js.Obj "credentials" else Undefined) ] |} ++
             spread_if (STORAGE_AZURE_CONNECTION_STRING envVars) "azure"
               {| disk_driver := Str "azure";
                  disk_config := Some
                    [ ("container", STORAGE_AZURE_CONTAINER envVars);
                      ("connectionString", STORAGE_AZURE_CONNECTION_STRING envVars);
                      ("url", STORAGE_AZURE_URL envVars) ] |} ++
             spread_if (STORAGE_GCS_BUCKET envVars) "gcs"
               {| disk_driver := Str "gcs";
                  disk_config := Some
                    [ ("bucket", STORAGE_GCS_BUCKET envVars);
                      ("projectId", STORAGE_GCS_PROJECT_ID envVars);
                      ("keyFilename", STORAGE_GCS_KEY_FILENAME envVars);
                      ("url", STORAGE_GCS_URL envVars) ] |})%list |} |}.

(** ** The upload filter *)

Definition allowedTypes : list string :=
  ["jpeg"; "jpg"; "png"; "gif"; "webp"; "svg"; "bmp"; "tiff"].

(** [allowedTypes.test(s)]: the regular expression is an alternation of
    literals, with neither anchors nor flags, so it finds any of them as
    a substring. *)
Definition allowedTypes_test (s : string) : bool :=
  existsb (fun t => Js.includes s t) allowedTypes.

(** multer's [fileFilter]: [cb(null, true)] or [cb(new Error(...))] *)
Definition fileFilter (originalname mimetype : string) : Result bool :=
  let extname := allowedTypes_test (Js.toLowerCase (path.extname originalname)) in
  let mimetype := allowedTypes_test mimetype in
  if mimetype && extname then Return true
  else Throw (mkError "Error" None "Only image files are allowed").

(** ** Listing and describing the originals *)

Record ImageUrls := {
  url_original : string;
  url_thumbnail : string;
  url_small : string;
  url_medium : string;
  url_large : string
}.

Definition urls_of (id : string) : ImageUrls :=
  {| url_original := "/api/image/" ++ id;
     url_thumbnail := "/api/image/" ++ id ++ "/thumbnail/jpeg";
     url_small := "/api/image/" ++ id ++ "/300x300/webp";
     url_medium := "/api/image/" ++ id ++ "/800x800/webp";
     url_large := "/api/image/" ++ id ++ "/1920x1080/webp" |}.

Record ImageEntry := {
  image_id : string;
  image_filename : string;
  image_size : nat;
  image_uploadedAt : string;
  image_urls : ImageUrls
}.

(** The bodies of the two answers; the fields that are the same in
    every answer ([success], [availableFormats], [availableSizes]) are
    left out. *)
Inductive ListBody :=
  | images_json (count : nat) (images : list ImageEntry)
  | info_json (id filename : string) (size : nat) (uploadedAt : string)
      (width height format space channels density hasAlpha : Value)
  | failure_json (error : string).

Record ListResponse := {
  list_status : N;
  list_body : ListBody
}.

(** The loop [for (const file of files)] of [GET /api/images], with
    the array [images] it pushes to *)
Fixpoint images_loop (env : Reads) (files : list string) (images : list ImageEntry)
  : M (list ImageEntry) :=
  match files with
  | [] => ret images
  | file :: files' =>
      let* stats := fs_read.stat env UPLOAD_DIR file in
      let id := path_parse.name file in
      images_loop env files'
        (images ++ [ {| image_id := id;
                        image_filename := file;
                        image_size := stats_size stats;
                        image_uploadedAt := stats_birthtime stats;
                        image_urls := urls_of id |} ])
  end.

(** [GET /api/images] *)
Definition get_images (env : Reads) : M ListResponse :=
  try_catch
    (let* files := fs.readdir UPLOAD_DIR in
     let* images := images_loop env files [] in
     ret {| list_status := 200; list_body := images_json (List.length images) images |})
    (fun error =>
       ret {| list_status := 500; list_body := failure_json "Failed to list images" |}).

(** [sharp(filePath).metadata()] *)
Definition sharp_metadata (env : Reads) (file : string) : M Object :=
  fun w => (metadata env (fs.lookup (files w UPLOAD_DIR) file), w).

(** [GET /api/info/:id] *)
Definition get_info (env : Reads) (id : string) : M ListResponse :=
  try_catch
    (let* files := fs.readdir UPLOAD_DIR in
     match find_original files id with
     | None => ret {| list_status := 404; list_body := failure_json "Image not found" |}
     | Some file =>
         let* metadata := sharp_metadata env file in
         let* stats := fs_read.stat env UPLOAD_DIR file in
         ret {| list_status := 200;
                list_body :=
                  info_json id file (stats_size stats) (stats_birthtime stats)
                    (Js.get metadata "width") (Js.get metadata "height")
                    (Js.get metadata "format") (Js.get metadata "space")
                    (Js.get metadata "channels") (Js.get metadata "density")
                    (Js.get metadata "hasAlpha") |}
     end)
    (fun error =>
       ret {| list_status := 500; list_body := failure_json "Failed to get image info" |}).

(** The world with another image library. *)
Definition with_sharp (w : World)
    (s : option Buffer -> Value -> Value -> option Encoder -> Result Buffer) : World :=
  {| files := files w; fault := fault w; sdk := sdk w; sent := sent w; sharp := s;
     uuid := uuid w; now := now w |}.

(** ** Authentication middleware ([middleware/auth.js])

    The payload of a token, with the properties the middleware and the
    token service name.  [jwt.verify] is given as a function from the
    token to the payload or to the error it throws.  The header
    [authorization] is absent or a string. *)
Record Payload := {
  p_id : Value;
  p_userId : Value;
  p_sub : Value;
  p_email : Value;
  p_role : Value;
  p_roles : option (list Value);
  p_name : Value;
  p_iat : Value
}.

(** [req.user] and [req.userId] *)
Record AuthState := {
  req_user : option Payload;
  req_userId : Value
}.

Definition anonymous : AuthState := {| req_user := None; req_userId := Undefined |}.

Inductive Outcome :=
  | next (req : AuthState)
  | answered (r : Response).

Module auth.

(** [s.slice(n)] for [n] within the string or beyond it *)
Fixpoint slice (n : nat) (s : string) : string :=
  match n, s with
  | O, _ => s
  | S n', String _ s' => slice n' s'
  | S _, EmptyString => EmptyString
  end.

(** [authHeader.startsWith('Bearer ') ? authHeader.slice(7) : authHeader] *)
Definition token_of (authHeader : string) : string :=
  if Js.startsWith authHeader "Bearer " then slice 7 authHeader else authHeader.

(** [decoded.id || decoded.userId || decoded.sub] *)
Definition userId_of (decoded : Payload) : Value :=
  Js.or (Js.or (p_id decoded) (p_userId decoded)) (p_sub decoded).

Definition unauthorized (msg : string) : Outcome :=
  answered {| status := 401; body := error_json "Unauthorized" (Some msg) |}.

Definition authenticate (verify : string -> Result Payload) (authorization : option string)
  : Outcome :=
  match authorization with
  | None => unauthorized "No authorization token provided"
  | Some authHeader =>
      if String.eqb authHeader "" then unauthorized "No authorization token provided"
      else
        let token := token_of authHeader in
        if String.eqb token "" then unauthorized "Invalid authorization header format"
        else
          match verify token with
          | Return decoded =>
              next {| req_user := Some decoded; req_userId := userId_of decoded |}
          | Throw error =>
              if String.eqb (name error) "TokenExpiredError"
              then unauthorized "Token has expired"
              else if String.eqb (name error) "JsonWebTokenError"
              then unauthorized "Invalid token"
              else answered {| status := 500;
                               body := error_json "Authentication error"
                                         (Some (message error)) |}
          end
  end.

Definition optionalAuth (verify : string -> Result Payload) (authorization : option string)
  : Outcome :=
  match authorization with
  | None => next anonymous
  | Some authHeader =>
      if String.eqb authHeader "" then next anonymous
      else
        let token := token_of authHeader in
        if String.eqb token "" then next anonymous
        else
          match verify token with
          | Return decoded =>
              next {| req_user := Some decoded; req_userId := userId_of decoded |}
          | Throw _ => next anonymous
          end
  end.

(** [req.user.role || req.user.roles?.[0]] *)
Definition userRole (user : Payload) : Value :=
  Js.or (p_role user)
    match p_roles user with
    | Some (r :: _) => r
    | _ => Undefined
    end.

(** [authorize(...roles)], for role names given as strings *)
Definition authorize (roles : list string) (req : AuthState) : Outcome :=
  match req_user req with
  | None =>
      answered {| status := 401;
                  body := error_json "Unauthorized" (Some "Authentication required") |}
  | Some user =>
      let included :=
        match userRole user with
        | Str r => Js.array_includes roles r
        | _ => false
        end in
      if negb included
      then answered {| status := 403;
                       body := error_json "Forbidden" (Some "Insufficient permissions") |}
      else next req
  end.

End auth.

(** [AuthService.createTokenPayload] ([services/authService.js]) *)
Record User := {
  user_id : Value;
  user_email : Value;
  user_role : Value;
  user_roles : option (list Value);
  user_name : Value
}.

(** [iat] is [Math.floor(Date.now() / 1000)], given as [seconds]. *)
Definition createTokenPayload (user : User) (seconds : Value) : Payload :=
  {| p_id := user_id user;
     p_userId := user_id user;
     p_sub := user_id user;
     p_email := user_email user;
     p_role := user_role user;
     p_roles :=
       match user_roles user with
       | Some l => Some l
       | None => Some (if Js.ToBoolean (user_role user) then [user_role user] else [])
       end;
     p_name := user_name user;
     p_iat := seconds |}.

(** ** Vocabulary of the further statements *)

(** No character of the string is a slash: a name as [readdir] lists
    it. *)
Definition no_slash (s : string) : bool :=
  forallb (fun c => negb (Ascii.eqb c "/")) (list_ascii_of_string s).

(** A logical path in normal form: segments separated by single
    slashes, none of them empty, [.] or [..].  For such a path
    [path.join(root, p)] is [root/p], below the root, and (on a
    case-sensitive file system without links) two of them name the same
    file only when they are equal.  The statements about the other
    paths of a disk are about these.  The world records the files of a
    directory and not its subdirectories: the directories that
    [ensureDirectory] makes are not part of it. *)
Definition normal (p : string) : bool :=
  forallb
    (fun segment =>
       negb (String.eqb segment "") && negb (String.eqb segment ".") &&
       negb (String.eqb segment ".."))
    (Js.split p "/").

(** A name that [res.sendFile] refuses with its default options: one
    of two characters or more that starts with a dot.  (The check is
    made on every segment of the absolute path; the directories of the
    working copies and of the cache are taken to have no such segment.)
    The handlers hand the file to [res.sendFile] and do not see what it
    answers: for these names the client gets a 404 from the error
    handler of the application instead of the file. *)
Definition dotfile (file : string) : bool :=
  match file with
  | String "." (String _ _) => true
  | _ => false
  end.

(** Neither a slash nor a dot in the string, as in the identifiers
    [uuidv4] makes. *)
Definition plain (s : string) : bool :=
  forallb (fun c => negb (Ascii.eqb c "/") && negb (Ascii.eqb c "."))
    (list_ascii_of_string s).

(** The entry that [GET /api/images] pushes for a working copy. *)
Definition entry_of (env : Reads) (w : World) (file : string) : ImageEntry :=
  let id := path_parse.name file in
  {| image_id := id;
     image_filename := file;
     image_size :=
       match fs.lookup (files w UPLOAD_DIR) file with
       | Some b => List.length b
       | None => 0
       end;
     image_uploadedAt := birthtime env UPLOAD_DIR file;
     image_urls := urls_of id |}.

(** [fs.stat] goes through on the working copy. *)
Definition stat_ok (env : Reads) (file : string) : bool :=
  match read_fault env (stat UPLOAD_DIR file) with
  | None => true
  | Some _ => false
  end.

(** The working copies can be listed and each of them described. *)
Definition listable (env : Reads) (w : World) : bool :=
  match fault w (readdir UPLOAD_DIR) with
  | None => forallb (stat_ok env) (originals w)
  | Some _ => false
  end.

(** ** More sample inputs *)
Module Fixture.

(** Every read goes through; the image library describes a file that is
    there. *)
Definition reads : Reads :=
  {| read_fault := fun _ => None;
     birthtime := fun _ _ => "2024-01-01T00:00:00.000Z";
     metadata := fun original =>
       match original with
       | Some _ => Return [("width", Num (Js.num 4)); ("height", Num (Js.num 3));
                           ("format", Str "png")]
       | None => Throw (mkError "Error" None "Input file is missing")
       end |}.

Definition options : PutOptions := {| contentType := Str "image/png"; acl := Undefined |}.

(** The directory of the file cannot be made. *)
Definition mkdir_refused : Op -> option Error :=
  fun op => match op with mkdir _ _ => Some Sample.EACCES | _ => None end.

Definition EEXIST : Error := mkError "Error" (Some "EEXIST") "EEXIST: file already exists".

Definition ENOTDIR : Error := mkError "Error" (Some "ENOTDIR") "ENOTDIR: not a directory".

(** A file stands where the directory should be. *)
Definition blocked_by_a_file : Op -> option Error :=
  fun op =>
    match op with
    | mkdir _ _ => Some EEXIST
    | writeFile _ _ => Some ENOTDIR
    | _ => None
    end.

(** The environment names a bucket and nothing else. *)
Definition env_s3 : EnvVars :=
  {| STORAGE_DEFAULT := Str "local";
     STORAGE_LOCAL_ROOT := Str "storage";
     STORAGE_LOCAL_URL := Str "/storage";
     STORAGE_S3_BUCKET := Str "assets";
     STORAGE_S3_REGION := Str "us-east-1";
     STORAGE_S3_URL := Undefined;
     AWS_ACCESS_KEY_ID := Undefined;
     AWS_SECRET_ACCESS_KEY := Undefined;
     STORAGE_AZURE_CONTAINER := Str "files";
     STORAGE_AZURE_CONNECTION_STRING := Undefined;
     STORAGE_AZURE_URL := Undefined;
     STORAGE_GCS_BUCKET := Undefined;
     STORAGE_GCS_PROJECT_ID := Undefined;
     STORAGE_GCS_KEY_FILENAME := Undefined;
     STORAGE_GCS_URL := Undefined |}.

Definition s3_config : Object :=
  [ ("bucket", Str "assets"); ("region", Str "us-east-1"); ("url", Undefined);
    ("credentials", Undefined) ].

Definition s3_disk : FilesystemAdapter :=
  {| driver := "s3"; config := s3_config; client := S3Driver.constructor s3_config |}.

(** The manager built from [env_s3]. *)
Definition manager_s3 : StorageManager :=
  {| manager_disks := <["s3" := s3_disk]> (<["local" := Sample.fallback]> ∅);
     defaultDisk := "local" |}.

Definition upload_png : UploadedFile :=
  {| originalname := "cat.png"; mimetype := "image/png"; buffer := Sample.pixels |}.

Definition payload : Payload :=
  {| p_id := Str "u1"; p_userId := Str "u1"; p_sub := Str "u1";
     p_email := Str "u1@example.org"; p_role := Str "admin";
     p_roles := Some [Str "admin"]; p_name := Str "U"; p_iat := Num (Js.num 1700000000) |}.

(** A [jwt.verify] that accepts one token. *)
Definition verify : string -> Result Payload :=
  fun token =>
    if String.eqb token "abc" then Return payload
    else Throw (mkError "JsonWebTokenError" None "jwt malformed").

End Fixture.

(** * Properties *)

(** ** Dispatch on driver instances *)

Section Dispatch.

Variable a : FilesystemAdapter.

Lemma constructed_client :
  constructed a ->
  client a = LocalDriver.constructor (config a) \/
  client a = S3Driver.constructor (config a) \/
  client a = AzureDriver.constructor (config a) \/
  client a = GCSDriver.constructor (config a).
Proof.
  intros (drv & cfg & H).
  unfold FilesystemAdapter.constructor, FilesystemAdapter.initializeDriver in H.
  repeat match type of H with
         | context [String.eqb ?x ?y] => destruct (String.eqb x y)
         end;
    inversion H; subst; simpl; auto.
Qed.

Lemma url_is_a_field : constructed a -> exists v, member (client a) "url" = Field v.
Proof.
  intros H. destruct (constructed_client H) as [E | [E | [E | E]]];
    rewrite E; unfold member; simpl; eauto.
Qed.

Lemma methods_are_inherited (key : string) :
  constructed a ->
  In key ["exists"; "put"; "delete"; "copy"] ->
  member (client a) key = Method.
Proof.
  intros H Hk.
  destruct (constructed_client H) as [E | [E | [E | E]]]; rewrite E;
    simpl in Hk; intuition subst; reflexivity.
Qed.

Lemma url_throws (p : string) (w : World) :
  constructed a ->
  FilesystemAdapter.url a p w =
  (Throw (TypeError "this.client.url is not a function"), w).
Proof.
  intros H. destruct (url_is_a_field H) as [v Hv].
  unfold FilesystemAdapter.url, invoke. rewrite Hv. reflexivity.
Qed.

End Dispatch.

(** C1.  [url] is assigned as a data property by the constructor of
    each of the four drivers, so the method of the same name on the
    prototype is never reached: for every supported driver, every
    configuration object and every path, calling [url] on the adapter
    throws a TypeError instead of returning a string; a driver name
    outside the four is refused by the constructor. *)
Theorem C1_url_is_not_a_function :
  forall (driver : string) (config : Object) (p : string) (w : World),
    match FilesystemAdapter.constructor (Str driver) (Some config) with
    | Return a =>
        In driver ["local"; "s3"; "azure"; "gcs"] /\
        FilesystemAdapter.url a p w =
        (Throw (TypeError "this.client.url is not a function"), w)
    | Throw _ => ~ In driver ["local"; "s3"; "azure"; "gcs"]
    end.
Proof.
  intros drv cfg p w.
  destruct (FilesystemAdapter.constructor (Str drv) (Some cfg)) as [a | e] eqn:E.
  - split.
    + unfold FilesystemAdapter.constructor, FilesystemAdapter.initializeDriver in E.
      simpl in E.
      destruct (String.eqb_spec drv "local"); [subst; simpl; auto |].
      destruct (String.eqb_spec drv "s3"); [subst; simpl; auto |].
      destruct (String.eqb_spec drv "azure"); [subst; simpl; auto |].
      destruct (String.eqb_spec drv "gcs"); [subst; simpl; auto 6 |].
      discriminate.
    + apply url_throws. exists (Str drv), (Some cfg). exact E.
  - unfold FilesystemAdapter.constructor, FilesystemAdapter.initializeDriver in E.
    simpl in E. simpl.
    intros [<- | [<- | [<- | [<- | []]]]]; discriminate.
Qed.

(** ** The disk registry *)

Lemma array_includes_In (l : list string) (x : string) :
  Js.array_includes l x = true <-> In x l.
Proof.
  unfold Js.array_includes. rewrite existsb_exists. split.
  - intros (y & Hy & E). apply String.eqb_eq in E. now subst.
  - intros H. exists x. split; [assumption | apply String.eqb_refl].
Qed.



Lemma configured_lookup (entries : list (string * DiskConfig)) :
  forall (disks0 disks : gmap string FilesystemAdapter) (name : string),
    StorageManager.configured entries disks0 = Return disks ->
    (disks !! name = None <-> disks0 !! name = None /\ ~ In name (map fst entries)).
Proof.
  induction entries as [| [n c] entries IH]; intros disks0 disks name H; simpl in H.
  - inversion H; subst. simpl. tauto.
  - destruct (FilesystemAdapter.constructor _ _) as [a | e]; [| discriminate].
    rewrite (IH _ _ name H). simpl.
    destruct (decide (n = name)) as [-> | Hne].
    + rewrite lookup_insert_eq. split; [intros [? _]; discriminate | tauto].
    + rewrite lookup_insert_ne by assumption. tauto.
Qed.

Lemma configured_constructed (entries : list (string * DiskConfig)) :
  forall disks0 disks : gmap string FilesystemAdapter,
    map_Forall (fun _ a => constructed a) disks0 ->
    StorageManager.configured entries disks0 = Return disks ->
    map_Forall (fun _ a => constructed a) disks.
Proof.
  induction entries as [| [n c] entries IH]; intros disks0 disks H0 H; simpl in H.
  - now inversion H; subst.
  - destruct (FilesystemAdapter.constructor _ _) as [a | e] eqn:E; [| discriminate].
    refine (IH _ _ _ H).
    apply map_Forall_insert_2; [| exact H0].
    eexists _, _. exact E.
Qed.

(** Every disk of a manager was built by the adapter's constructor. *)
Lemma manager_constructed (config : Config) (m : StorageManager) :
  StorageManager.constructor config = Return m ->
  map_Forall (fun _ a => constructed a) (manager_disks m).
Proof.
  unfold StorageManager.constructor, StorageManager.initializeDisks.
  destruct (StorageManager.configured _ _) as [ds | e] eqn:E; [| discriminate].
  pose proof (configured_constructed _ _ _ (map_Forall_empty _) E) as Hds.
  destruct (StorageManager.disks_get ds _); intros H.
  - now inversion H.
  - now inversion H.
  - destruct (FilesystemAdapter.constructor _ _) as [a | e] eqn:Ea; [| discriminate].
    inversion H; subst; simpl.
    apply map_Forall_insert_2; [eexists _, _; exact Ea | exact Hds].
Qed.

Lemma disk_of_name (m : StorageManager) (name : string) :
  name <> "" ->
  StorageManager.disk m (Str name) =
  match StorageManager.disks_get (manager_disks m) name with
  | Own a => Return (StorageManager.Adapter a)
  | Inherited => Return (StorageManager.Builtin name)
  | Missing =>
      Throw (mkError "Error" None
               ("Storage disk " ++ Js.quoted name ++ " is not configured"))
  end.
Proof.
  intros Hne. unfold StorageManager.disk, Js.or. simpl.
  destruct (String.eqb_spec name ""); [contradiction | reflexivity].
Qed.

Lemma disk_of_default (m : StorageManager) :
  StorageManager.disk m (Str (defaultDisk m)) = StorageManager.disk m Undefined.
Proof.
  unfold StorageManager.disk, Js.or. simpl.
  now destruct (negb (String.eqb (defaultDisk m) "")).
Qed.

Lemma configured_keeps (entries : list (string * DiskConfig)) :
  forall (disks0 disks : gmap string FilesystemAdapter) (name : string),
    StorageManager.configured entries disks0 = Return disks ->
    ~ In name (map fst entries) ->
    disks !! name = disks0 !! name.
Proof.
  induction entries as [| [n c] entries IH]; intros disks0 disks name H Hn; simpl in H.
  - now inversion H.
  - destruct (FilesystemAdapter.constructor _ _) as [a | e]; [| discriminate].
    rewrite (IH _ _ name H) by (simpl in Hn; tauto).
    apply lookup_insert_ne. simpl in Hn. tauto.
Qed.







(** ** Faults inside the drivers *)

Section Drivers.

Variable d : Driver.
Variable p : string.
Variable w : World.

Lemma try_catch_returns (m : M bool) : returns w (try_catch m (fun _ => ret false)).
Proof.
  unfold returns, try_catch. destruct (m w) as [[b | e] w']; simpl; eauto.
Qed.

Lemma local_exists_returns : returns w (LocalDriver.exists_ d p).
Proof. apply try_catch_returns. Qed.

Lemma local_exists_fault (e : Error) :
  fst (fs.access (LocalDriver.root d) p w) = Throw e ->
  fst (LocalDriver.exists_ d p w) = Return false.
Proof.
  unfold LocalDriver.exists_, try_catch, bind.
  destruct (fs.access _ _ _) as [[u | e'] w']; simpl; [discriminate | reflexivity].
Qed.

Lemma sdk_fault_is_false (c : SdkCall) (e : Error) :
  sdk w c = Throw e ->
  try_catch (send c >> ret true) (fun _ => ret false) w = (Return false, log_call w c).
Proof. intros H. unfold try_catch, bind, send. now rewrite H. Qed.

Lemma local_delete_absent :
  fs.lookup (files w (LocalDriver.root d)) p = None ->
  fault w (unlink (LocalDriver.root d) p) = None ->
  LocalDriver.delete d p w = (Return false, w).
Proof.
  intros Hl Hf.
  unfold LocalDriver.delete, try_catch, bind, fs.unlink, bind, fs.attempt.
  now rewrite Hf, Hl.
Qed.

Lemma local_delete_fault (e : Error) :
  fault w (unlink (LocalDriver.root d) p) = Some e ->
  LocalDriver.delete d p w =
  if bool_decide (code e = Some "ENOENT") then (Return false, w) else (Throw e, w).
Proof.
  intros Hf.
  unfold LocalDriver.delete, try_catch, bind, fs.unlink, bind, fs.attempt.
  rewrite Hf. now destruct (bool_decide _).
Qed.

End Drivers.

(** C6, as the code has it.  On the local, s3 and azure drivers
    [exists] never throws and answers false on every fault; on the s3,
    azure and gcs drivers [delete] never throws and answers false on
    every fault; on the local driver [delete] answers false when the
    path is absent (and on any other ENOENT) and throws every other
    fault to its caller. *)
Theorem C6_faults_become_false_except_local_delete :
  forall (d : Driver) (p : string) (w : World),
    (returns w (LocalDriver.exists_ d p) /\
     returns w (S3Driver.exists_ d p) /\
     returns w (AzureDriver.exists_ d p) /\
     returns w (S3Driver.delete d p) /\
     returns w (AzureDriver.delete d p) /\
     returns w (GCSDriver.delete d p)) /\
    (forall e : Error,
        (fst (fs.access (LocalDriver.root d) p w) = Throw e ->
         fst (LocalDriver.exists_ d p w) = Return false) /\
        (sdk w (S3_HeadObject (this d "bucket") p) = Throw e ->
         fst (S3Driver.exists_ d p w) = Return false) /\
        (sdk w (Azure_getProperties (this d "containerName") p) = Throw e ->
         fst (AzureDriver.exists_ d p w) = Return false) /\
        (sdk w (S3_DeleteObject (this d "bucket") p) = Throw e ->
         fst (S3Driver.delete d p w) = Return false) /\
        (sdk w (Azure_delete (this d "containerName") p) = Throw e ->
         fst (AzureDriver.delete d p w) = Return false) /\
        (sdk w (GCS_delete (this d "bucketName") p) = Throw e ->
         fst (GCSDriver.delete d p w) = Return false)) /\
    (fs.lookup (files w (LocalDriver.root d)) p = None ->
     fault w (unlink (LocalDriver.root d) p) = None ->
     LocalDriver.delete d p w = (Return false, w)) /\
    (forall e : Error,
        fault w (unlink (LocalDriver.root d) p) = Some e ->
        LocalDriver.delete d p w =
        if bool_decide (code e = Some "ENOENT") then (Return false, w) else (Throw e, w)).
Proof.
  intros d p w. split; [| split; [| split]].
  - repeat split; apply try_catch_returns.
  - intros e. repeat split; intros H.
    + exact (local_exists_fault d p w e H).
    + unfold S3Driver.exists_. now rewrite (sdk_fault_is_false w _ e H).
    + unfold AzureDriver.exists_. now rewrite (sdk_fault_is_false w _ e H).
    + unfold S3Driver.delete. now rewrite (sdk_fault_is_false w _ e H).
    + unfold AzureDriver.delete. now rewrite (sdk_fault_is_false w _ e H).
    + unfold GCSDriver.delete. now rewrite (sdk_fault_is_false w _ e H).
  - apply local_delete_absent.
  - apply local_delete_fault.
Qed.

Lemma C6_faults_become_false_except_local_delete_witness :
  let w := Sample.with_sdk (Sample.world [] [] []) Sample.unreachable in
  fst (S3Driver.delete (client Sample.s3_adapter) "images/a.png" w) = Return false /\
  LocalDriver.delete (client Sample.fallback) "images/a.png" w = (Return false, w).
Proof.
  intros w.
  destruct (C6_faults_become_false_except_local_delete
              (client Sample.s3_adapter) "images/a.png" w) as (_ & H & _).
  destruct (C6_faults_become_false_except_local_delete
              (client Sample.fallback) "images/a.png" w) as (_ & _ & H' & _).
  split.
  - apply (H Sample.timeout). reflexivity.
  - apply H'; reflexivity.
Defined.

(** On the local disk, a file that cannot be removed for lack of
    permission makes [delete] throw, through the adapter as well. *)
Lemma C6_counterexample :
  let w :=
    Sample.with_fault (Sample.world [] [] [("images/a.png", Sample.pixels)])
      (fun op => match op with unlink _ _ => Some Sample.EACCES | _ => None end) in
  FilesystemAdapter.constructor (Str "local")
    (Some [("root", Str "storage"); ("url", Str "/storage")]) = Return Sample.fallback /\
  FilesystemAdapter.delete Sample.fallback "images/a.png" w = (Throw Sample.EACCES, w).
Proof. split; reflexivity. Qed.

(** The gcs driver asks the SDK directly: a fault of the call is thrown
    to the caller of [exists]. *)
Example gcs_exists_throws :
  fst (GCSDriver.exists_ (GCSDriver.constructor [("bucket", Str "assets")]) "images/a.png"
         (Sample.with_sdk (Sample.world [] [] []) Sample.unreachable)) =
  Throw Sample.timeout.
Proof. reflexivity. Qed.

(** ** move *)

Lemma delete_dispatch (a : FilesystemAdapter) (p : string) :
  constructed a ->
  FilesystemAdapter.delete a p =
  match class (client a) with
  | Local => LocalDriver.delete (client a) p
  | S3 => S3Driver.delete (client a) p
  | Azure => AzureDriver.delete (client a) p
  | GCS => GCSDriver.delete (client a) p
  end.
Proof.
  intros H. unfold FilesystemAdapter.delete, invoke.
  rewrite (methods_are_inherited a "delete" H); [reflexivity | simpl; tauto].
Qed.

Lemma exists_dispatch (a : FilesystemAdapter) (p : string) :
  constructed a ->
  FilesystemAdapter.exists_ a p =
  match class (client a) with
  | Local => LocalDriver.exists_ (client a) p
  | S3 => S3Driver.exists_ (client a) p
  | Azure => AzureDriver.exists_ (client a) p
  | GCS => GCSDriver.exists_ (client a) p
  end.
Proof.
  intros H. unfold FilesystemAdapter.exists_, invoke.
  rewrite (methods_are_inherited a "exists" H); [reflexivity | simpl; tauto].
Qed.

Lemma remote_delete_returns (a : FilesystemAdapter) (p : string) (w : World) :
  constructed a ->
  class (client a) <> Local ->
  returns w (FilesystemAdapter.delete a p).
Proof.
  intros H Hc. rewrite delete_dispatch by assumption.
  destruct (class (client a)); [contradiction | | |]; apply try_catch_returns.
Qed.

(** C7, as the code has it.  [move] runs [copy], then [delete] on the
    source, and answers true without looking at what [delete] answered:
    it fails exactly when [copy] throws or [delete] throws.  On the s3,
    azure and gcs drivers [delete] never throws, so there a move whose
    copy went through is reported as done, whether or not the source
    could be deleted. *)
Theorem C7_move_ignores_the_answer_of_delete :
  forall (a : FilesystemAdapter) (from to : string) (w : World),
    match FilesystemAdapter.copy a from to w with
    | (Throw e, w1) => FilesystemAdapter.move a from to w = (Throw e, w1)
    | (Return _, w1) =>
        match FilesystemAdapter.delete a from w1 with
        | (Throw e, w2) => FilesystemAdapter.move a from to w = (Throw e, w2)
        | (Return _, w2) => FilesystemAdapter.move a from to w = (Return true, w2)
        end /\
        (constructed a -> class (client a) <> Local ->
         exists w2, FilesystemAdapter.move a from to w = (Return true, w2))
    end.
Proof.
  intros a from to w. unfold FilesystemAdapter.move, bind.
  destruct (FilesystemAdapter.copy a from to w) as [[b | e] w1]; [| reflexivity].
  split.
  - destruct (FilesystemAdapter.delete a from w1) as [[b' | e] w2]; reflexivity.
  - intros H Hc. destruct (remote_delete_returns a from w1 H Hc) as (b' & w2 & E).
    rewrite E. now exists w2.
Qed.

Lemma C7_move_ignores_the_answer_of_delete_witness :
  let w := Sample.with_sdk (Sample.world [] [] []) Sample.delete_refused in
  exists w2, FilesystemAdapter.move Sample.s3_adapter "a.png" "b.png" w = (Return true, w2).
Proof.
  intros w.
  pose proof (C7_move_ignores_the_answer_of_delete Sample.s3_adapter "a.png" "b.png" w) as H.
  cbv beta iota zeta delta [w FilesystemAdapter.copy invoke member] in H.
  simpl in H. destruct H as [_ H]. apply H.
  - exists (Str "s3"), (Some [("bucket", Str "assets")]). reflexivity.
  - discriminate.
Defined.

(** A bucket that takes the copy and refuses the deletion: [delete]
    answers false, the source is still there, and [move] answers
    true. *)
Lemma C7_counterexample :
  let w := Sample.with_sdk (Sample.world [] [] []) Sample.delete_refused in
  let w1 := snd (FilesystemAdapter.copy Sample.s3_adapter "a.png" "b.png" w) in
  fst (FilesystemAdapter.copy Sample.s3_adapter "a.png" "b.png" w) = Return true /\
  fst (FilesystemAdapter.delete Sample.s3_adapter "a.png" w1) = Return false /\
  fst (FilesystemAdapter.move Sample.s3_adapter "a.png" "b.png" w) = Return true.
Proof. repeat split. Qed.

(** ** The variant handler, step by step *)

Lemma readdir_eq (d : Dir) (w : World) :
  fs.readdir d w =
  match fault w (readdir d) with
  | Some e => (Throw e, w)
  | None => (Return (map fst (files w d)), w)
  end.
Proof.
  unfold fs.readdir, bind, fs.attempt. now destruct (fault w (readdir d)).
Qed.

Lemma access_keeps_world (d : Dir) (file : string) (w : World) :
  snd (fs.access d file w) = w.
Proof.
  unfold fs.access, bind, fs.attempt.
  destruct (fault w (access d file)); [reflexivity |].
  now destruct (fs.lookup (files w d) file).
Qed.

Lemma writeFile_eq (d : Dir) (file : string) (b : Buffer) (w : World) :
  fs.writeFile d file b w =
  match fault w (writeFile d file) with
  | Some e => (Throw e, w)
  | None => (Return tt, set_files w d (fs.store file b (files w d)))
  end.
Proof.
  unfold fs.writeFile, bind, fs.attempt. now destruct (fault w (writeFile d file)).
Qed.

(** The handler as a decision list over the world it runs in. *)
Lemma get_variant_eq (id size format : string) (w : World) :
  get_variant id size format w =
  if negb (supported format)
  then (Return (response 400 (error_json "Unsupported format" None)), w)
  else
    match fault w (readdir UPLOAD_DIR) with
    | Some e =>
        (Return (response 500 (error_json "Failed to process image" (Some (message e)))), w)
    | None =>
        match find_original (originals w) id with
        | None => (Return (response 404 (error_json "Image not found" None)), w)
        | Some originalFile =>
            match parseSize size with
            | inr msg => (Return (response 400 (error_json msg None)), w)
            | inl sz =>
                let cachePath := cacheFile id sz format in
                if cache_hit w cachePath
                then (Return (response 200 (sendFile CACHE_DIR cachePath)), w)
                else
                  match sharp w (fs.lookup (files w UPLOAD_DIR) originalFile)
                          (width sz) (height sz) (encoder format) with
                  | Throw e =>
                      (Return (response 500
                         (error_json "Failed to process image" (Some (message e)))), w)
                  | Return processedBuffer =>
                      match fault w (writeFile CACHE_DIR cachePath) with
                      | Some e =>
                          (Return (response 500
                             (error_json "Failed to process image" (Some (message e)))), w)
                      | None =>
                          (Return (response 200
                             (send_image (contentType_of format)
                                "public, max-age=31536000" processedBuffer)),
                           set_files w CACHE_DIR
                             (fs.store cachePath processedBuffer (files w CACHE_DIR)))
                      end
                  end
            end
        end
    end.
Proof.
  unfold get_variant, try_catch, supported.
  destruct (negb _); [reflexivity |].
  unfold bind at 1. rewrite readdir_eq.
  destruct (fault w (readdir UPLOAD_DIR)); [reflexivity |].
  fold (originals w).
  destruct (find_original (originals w) id) as [f |]; [| reflexivity].
  destruct (parseSize size) as [sz | msg]; [| reflexivity].
  unfold bind at 1; cbv beta. unfold bind at 1. unfold cache_hit.
  pose proof (access_keeps_world CACHE_DIR (cacheFile id sz format) w) as Hw.
  destruct (fs.access CACHE_DIR (cacheFile id sz format) w) as [[u | e] w'];
    simpl in Hw; subst w'; simpl; [reflexivity |].
  unfold bind, toBuffer.
  destruct (sharp w _ _ _ _); [| reflexivity].
  rewrite writeFile_eq.
  now destruct (fault w (writeFile CACHE_DIR _)).
Qed.

(** C3, as the code has it.  The format token is checked first, the
    original is located next, and the size token is parsed last.  A
    format outside the supported list is answered 400 for every id and
    every size.  With a supported format (and a working copy directory
    that can be listed), an id without original is answered 404 whatever
    the size token, and a size token that does not parse is answered 400
    only when an original was found.  A 404 implies a supported format
    and no matching original. *)
Theorem C3_format_then_original_then_size :
  forall (id size format : string) (w : World),
    (supported format = false ->
     get_variant id size format w =
     (Return (response 400 (error_json "Unsupported format" None)), w)) /\
    (supported format = true ->
     fault w (readdir UPLOAD_DIR) = None ->
     find_original (originals w) id = None ->
     get_variant id size format w =
     (Return (response 404 (error_json "Image not found" None)), w)) /\
    (forall (originalFile msg : string),
        supported format = true ->
        fault w (readdir UPLOAD_DIR) = None ->
        find_original (originals w) id = Some originalFile ->
        parseSize size = inr msg ->
        get_variant id size format w =
        (Return (response 400 (error_json msg None)), w)) /\
    (forall r : Response,
        fst (get_variant id size format w) = Return r ->
        status r = 404%N ->
        supported format = true /\ find_original (originals w) id = None).
Proof.
  intros id size format w. rewrite get_variant_eq. repeat split.
  - now intros ->.
  - intros -> -> ->. reflexivity.
  - intros f msg -> -> -> ->. reflexivity.
  - revert H H0. destruct (supported format); simpl; [reflexivity |].
    intros H; inversion H; subst; discriminate.
  - revert H H0. destruct (supported format); simpl.
    2: { intros H; inversion H; subst; discriminate. }
    destruct (fault w (readdir UPLOAD_DIR)).
    { intros H; inversion H; subst; discriminate. }
    destruct (find_original (originals w) id); [| reflexivity].
    destruct (parseSize size) as [sz | msg].
    2: { intros H; inversion H; subst; discriminate. }
    simpl. destruct (cache_hit w _).
    { intros H; inversion H; subst; discriminate. }
    destruct (sharp w _ _ _ _).
    2: { intros H; inversion H; subst; discriminate. }
    destruct (fault w (writeFile CACHE_DIR _));
      intros H; inversion H; subst; discriminate.
Qed.

Lemma C3_format_then_original_then_size_witness :
  let w := Sample.world [("abc.png", Sample.pixels)] [] [] in
  get_variant "abc" "abcxdef" "bmp" w =
  (Return (response 400 (error_json "Unsupported format" None)), w) /\
  get_variant "zzz" "150x150" "png" w =
  (Return (response 404 (error_json "Image not found" None)), w) /\
  get_variant "abc" "abcxdef" "png" w =
  (Return (response 400 (error_json "Invalid size format" None)), w).
Proof.
  intros w. split; [| split].
  - apply (C3_format_then_original_then_size "abc" "abcxdef" "bmp" w). reflexivity.
  - apply (C3_format_then_original_then_size "zzz" "150x150" "png" w); reflexivity.
  - apply (proj1 (proj2 (proj2
             (C3_format_then_original_then_size "abc" "abcxdef" "png" w)))
             "abc.png"); reflexivity.
Defined.

(** An id without original and a size token that does not parse: the
    answer is 404, not 400. *)
Lemma C3_counterexample :
  let w := Sample.world [("abc.png", Sample.pixels)] [] [] in
  parseSize "abcxdef" = inr "Invalid size format" /\
  find_original (originals w) "zzz" = None /\
  get_variant "zzz" "abcxdef" "png" w =
  (Return (response 404 (error_json "Image not found" None)), w).
Proof. repeat split. Qed.

(** C2, as the code has it.  The write to the derivative cache is not
    guarded on its own: when a request has reached the transform step,
    the transform has produced its bytes and the write fails, the
    handler's catch-all answers 500 "Failed to process image" with the
    message of the error, and the rendered bytes are not sent. *)
Theorem C2_cache_write_failure_is_a_500 :
  forall (id size format originalFile : string) (sz : Size) (w : World)
         (processedBuffer : Buffer) (e : Error),
    supported format = true ->
    fault w (readdir UPLOAD_DIR) = None ->
    find_original (originals w) id = Some originalFile ->
    parseSize size = inl sz ->
    cache_hit w (cacheFile id sz format) = false ->
    sharp w (fs.lookup (files w UPLOAD_DIR) originalFile) (width sz) (height sz)
      (encoder format) = Return processedBuffer ->
    fault w (writeFile CACHE_DIR (cacheFile id sz format)) = Some e ->
    get_variant id size format w =
    (Return (response 500 (error_json "Failed to process image" (Some (message e)))), w).
Proof.
  intros id size format f sz w buf e Hs Hr Hf Hp Hc Ht Hw.
  rewrite get_variant_eq, Hs, Hr, Hf, Hp. simpl. now rewrite Hc, Ht, Hw.
Qed.

Lemma C2_cache_write_failure_is_a_500_witness :
  let w :=
    Sample.with_fault (Sample.world [("abc.png", Sample.pixels)] [] [])
      (fun op => match op with writeFile CACHE_DIR _ => Some Sample.ENOSPC | _ => None end) in
  get_variant "abc" "150x150" "png" w =
  (Return (response 500
     (error_json "Failed to process image" (Some "ENOSPC: no space left on device"))), w).
Proof.
  intros w.
  apply (C2_cache_write_failure_is_a_500 "abc" "150x150" "png" "abc.png"
           {| width := Num (Js.num 150); height := Num (Js.num 150) |} w
           Sample.rendered Sample.ENOSPC); reflexivity.
Defined.

(** A full disk under the cache directory: the transform has rendered
    the variant, and the answer is a 500 without the bytes. *)
Lemma C2_counterexample :
  let w :=
    Sample.with_fault (Sample.world [("abc.png", Sample.pixels)] [] [])
      (fun op => match op with writeFile CACHE_DIR _ => Some Sample.ENOSPC | _ => None end) in
  sharp w (fs.lookup (files w UPLOAD_DIR) "abc.png") (Num (Js.num 150)) (Num (Js.num 150))
    (encoder "png") = Return Sample.rendered /\
  fst (get_variant "abc" "150x150" "png" w) =
  Return (response 500
    (error_json "Failed to process image" (Some "ENOSPC: no space left on device"))).
Proof. split; reflexivity. Qed.

(** ** Size tokens *)

Lemma digit_cases (c : ascii) :
  Js.is_digit c = true ->
  In c ["0"; "1"; "2"; "3"; "4"; "5"; "6"; "7"; "8"; "9"]%char.
Proof.
  destruct c as [[] [] [] [] [] [] [] []]; intros H; vm_compute in H;
    try discriminate H; simpl; tauto.
Qed.

Ltac by_digit H :=
  apply digit_cases in H; simpl in H;
  repeat (destruct H as [<- | H]; [reflexivity |]); contradiction.

Lemma digit_is_not_x (c : ascii) : Js.is_digit c = true -> Ascii.eqb c "x" = false.
Proof. intros H. by_digit H. Qed.

Lemma digit_is_not_space (c : ascii) (r : string) :
  Js.is_digit c = true ->
  Js.strip_first Js.StrWhiteSpaceChar (String c r) = None /\
  Js.strip_first (map Js.rev Js.StrWhiteSpaceChar) (String c r) = None.
Proof. intros H. split; by_digit H. Qed.

Lemma digit_is_not_a_sign (c : ascii) (r : string) :
  Js.is_digit c = true ->
  Js.strip_prefix "-" (String c r) = None /\
  Js.strip_prefix "+" (String c r) = None /\
  String.eqb (String c r) "Infinity" = false.
Proof. intros H. repeat split; by_digit H. Qed.

Lemma digit_is_no_property (c : ascii) (r : string) :
  Js.is_digit c = true -> preset (String c r) = Missing.
Proof. intros H. by_digit H. Qed.

Lemma digits_no_radix (s : string) (p : ascii) :
  digits s = true ->
  Js.is_digit p = false ->
  Js.strip_prefix (String "0" (String p "")) s = None.
Proof.
  intros H Hp. destruct s as [| c1 [| c2 r]]; cbn [Js.strip_prefix]; try reflexivity.
  - now destruct (Ascii.eqb "0" c1).
  - destruct (Ascii.eqb "0" c1); [| reflexivity].
    destruct (Ascii.eqb_spec p c2) as [-> | _]; [| reflexivity].
    unfold digits in H. simpl in H.
    apply andb_prop in H as [_ H]. apply andb_prop in H as [H _]. congruence.
Qed.

Lemma digits_value_digits (s : string) :
  forall acc v, Js.digits_value 10 acc s = Some v -> digits s = true.
Proof.
  induction s as [| c s IH]; intros acc v H; [reflexivity |].
  simpl in H. unfold digits. simpl. unfold Js.is_digit at 1.
  destruct (Js.digit_value 10 c); [| discriminate].
  simpl. exact (IH _ _ H).
Qed.

Lemma span_digits_all (s : string) :
  digits s = true -> Js.span_digits s = (s, "").
Proof.
  induction s as [| c s IH]; [reflexivity |].
  unfold digits. simpl. intros H. apply andb_prop in H as [Hc Hs].
  now rewrite Hc, (IH Hs).
Qed.

Lemma split_digits (s : string) : digits s = true -> Js.split s "x" = [s].
Proof.
  induction s as [| c s IH]; [reflexivity |].
  unfold digits. simpl. intros H. apply andb_prop in H as [Hc Hs].
  now rewrite (digit_is_not_x c Hc), (IH Hs).
Qed.

Lemma split_digits_x (a b : string) :
  digits a = true -> Js.split (a ++ "x" ++ b) "x" = a :: Js.split b "x".
Proof.
  induction a as [| c a IH]; [reflexivity |].
  unfold digits. simpl. intros H. apply andb_prop in H as [Hc Ha].
  rewrite (digit_is_not_x c Hc). change (String.append a (String "x" b)) with (a ++ "x" ++ b).
  now rewrite (IH Ha).
Qed.

Lemma includes_x (a b : string) : Js.includes (a ++ "x" ++ b) "x" = true.
Proof.
  induction a as [| c a IH]; [reflexivity |].
  simpl. change (String.append a (String "x" b)) with (a ++ "x" ++ b).
  rewrite IH. apply orb_true_r.
Qed.

Lemma rev_rev (s : string) : Js.rev (Js.rev s) = s.
Proof.
  unfold Js.rev.
  now rewrite list_ascii_of_string_of_list_ascii, List.rev_involutive,
    string_of_list_ascii_of_string.
Qed.

Lemma digits_rev (s : string) : digits s = true -> digits (Js.rev s) = true.
Proof.
  unfold digits, Js.rev. rewrite list_ascii_of_string_of_list_ascii.
  rewrite !forallb_forall. intros H c Hc. apply H. now apply in_rev.
Qed.

Lemma trim_start_digit (ws : list string) (fuel : nat) (s : string) :
  Js.strip_first ws s = None -> Js.trim_start_with ws fuel s = s.
Proof. intros H. destruct fuel; simpl; [reflexivity | now rewrite H]. Qed.

Lemma trim_digits (s : string) : digits s = true -> Js.trim s = s.
Proof.
  intros H. unfold Js.trim.
  destruct s as [| c r]; [reflexivity |].
  assert (Hc : Js.is_digit c = true).
  { unfold digits in H. simpl in H. now apply andb_prop in H as [Hc _]. }
  rewrite (trim_start_digit _ _ _ (proj1 (digit_is_not_space c r Hc))).
  pose proof (digits_rev _ H) as Hr.
  destruct (Js.rev (String c r)) as [| c' r'] eqn:E.
  - rewrite <- (rev_rev (String c r)), E. reflexivity.
  - assert (Hc' : Js.is_digit c' = true).
    { unfold digits in Hr. simpl in Hr. now apply andb_prop in Hr as [Hc' _]. }
    rewrite (trim_start_digit _ _ _ (proj2 (digit_is_not_space c' r' Hc'))).
    now rewrite <- E, rev_rev.
Qed.

Lemma append_empty (s : string) : s ++ "" = s.
Proof.
  induction s as [| c s IH]; [reflexivity |].
  change (String c s ++ "") with (String c (s ++ "")). now rewrite IH.
Qed.

(** [Number] of one or more decimal digits is their value. *)
Lemma StringToNumber_digits (s : string) (v : N) :
  Js.digits1 10 s = Some v -> Js.StringToNumber s = Js.num v.
Proof.
  intros H. destruct s as [| c r]; [discriminate |].
  unfold Js.digits1 in H.
  pose proof (digits_value_digits _ _ _ H) as Hd.
  assert (Hc : Js.is_digit c = true).
  { unfold digits in Hd. simpl in Hd. now apply andb_prop in Hd as [Hc _]. }
  unfold Js.StringToNumber. rewrite (trim_digits _ Hd).
  cbv zeta. change (String.eqb (String c r) "") with false. cbv iota.
  unfold Js.strip_first.
  rewrite !(digits_no_radix _ _ Hd) by reflexivity.
  destruct (digit_is_not_a_sign c r Hc) as (-> & -> & Hinf).
  unfold Js.unsigned_decimal. rewrite Hinf, (span_digits_all _ Hd).
  rewrite append_empty, H. simpl.
  unfold Js.decimal, Js.num. simpl. now rewrite N.mul_1_r.
Qed.

Lemma split_nonempty (s : string) (sep : ascii) : Js.split s sep <> [].
Proof.
  destruct s as [| c s]; cbn [Js.split]; [discriminate |].
  destruct (Ascii.eqb c sep); [discriminate |].
  destruct (Js.split s sep); discriminate.
Qed.

Lemma split_has_two (s : string) :
  Js.includes s "x" = true -> exists a b rest, Js.split s "x" = a :: b :: rest.
Proof.
  induction s as [| c s IH]; [discriminate |].
  cbn [Js.includes Js.startsWith Js.split].
  destruct (Ascii.eqb_spec c "x") as [-> | Hne].
  - intros _. pose proof (split_nonempty s "x") as Hs.
    destruct (Js.split s "x") as [| b rest]; [contradiction | eauto].
  - destruct (Ascii.eqb_spec "x"%char c) as [<- | _]; [contradiction |].
    cbn [orb]. intros H. destruct (IH H) as (a & b & rest & ->). eauto.
Qed.

(** A token made of digits, an x and digits is accepted, with the
    values of the two digit strings; this includes zero. *)
Lemma parseSize_digits (a b : string) (va vb : N) :
  Js.digits1 10 a = Some va ->
  Js.digits1 10 b = Some vb ->
  parseSize (a ++ "x" ++ b) =
  inl {| width := Num (Js.num va); height := Num (Js.num vb) |}.
Proof.
  intros Ha Hb.
  pose proof (StringToNumber_digits _ _ Ha) as Na.
  pose proof (StringToNumber_digits _ _ Hb) as Nb.
  destruct a as [| c r]; [discriminate |]. unfold Js.digits1 in Ha.
  destruct b as [| c' r']; [discriminate |]. unfold Js.digits1 in Hb.
  pose proof (digits_value_digits _ _ _ Ha) as Da.
  pose proof (digits_value_digits _ _ _ Hb) as Db.
  assert (Hc : Js.is_digit c = true).
  { unfold digits in Da. simpl in Da. now apply andb_prop in Da as [Hc _]. }
  unfold parseSize.
  change (String c r ++ "x" ++ String c' r') with (String c (r ++ "x" ++ String c' r')) at 1.
  rewrite (digit_is_no_property c _ Hc).
  rewrite includes_x, (split_digits_x _ _ Da), (split_digits _ Db).
  simpl nth. simpl map. unfold nth. unfold Js.isNaN. rewrite Na, Nb. reflexivity.
Qed.

Lemma parseSize_eq (size : string) :
  preset size = Missing ->
  parseSize size =
  if Js.includes size "x" then
    let width := nth 0 (map (fun p => Num (Js.StringToNumber p)) (Js.split size "x")) Undefined in
    let height := nth 1 (map (fun p => Num (Js.StringToNumber p)) (Js.split size "x")) Undefined in
    if Js.isNaN width || Js.isNaN height then inr "Invalid size format"
    else inl {| width := width; height := height |}
  else inr "Invalid size parameter".
Proof. intros H. unfold parseSize. now rewrite H. Qed.

(** Once the format is supported and the original found, the answer is
    400 exactly when the size token is refused. *)
Lemma status_400_iff_refused (id size format originalFile : string) (w : World) (r : Response) :
  supported format = true ->
  fault w (readdir UPLOAD_DIR) = None ->
  find_original (originals w) id = Some originalFile ->
  fst (get_variant id size format w) = Return r ->
  status r = 400%N <-> exists msg, parseSize size = inr msg.
Proof.
  intros Hs Hr Hf. rewrite get_variant_eq, Hs, Hr, Hf. simpl.
  destruct (parseSize size) as [sz | msg]; simpl.
  - destruct (cache_hit w _); simpl.
    { intros H; inversion H; subst; simpl. split; [discriminate | intros [? ?]; discriminate]. }
    destruct (sharp w _ _ _ _); simpl.
    2: { intros H; inversion H; subst; simpl. split; [discriminate | intros [? ?]; discriminate]. }
    destruct (fault w (writeFile CACHE_DIR _)); simpl;
      intros H; inversion H; subst; simpl;
      (split; [discriminate | intros [? ?]; discriminate]).
  - intros H; inversion H; subst; simpl. split; eauto.
Qed.

(** C4, as the code has it.  A size token that names no property of the
    preset table is refused when it has no x, and otherwise judged on
    the text before its first x and the text between its first and
    second x: it is accepted exactly when [Number] turns both into
    something other than NaN, and the two numbers are taken as they
    are.  Digits, x, digits is always accepted, zero included.  Once
    the format is supported and the original found, the answer is 400
    exactly when the token is refused. *)
Theorem C4_size_is_accepted_iff_both_parts_are_numbers :
  forall size : string,
    preset size = Missing ->
    (Js.includes size "x" = false -> parseSize size = inr "Invalid size parameter") /\
    (Js.includes size "x" = true ->
     exists a b rest,
       Js.split size "x" = a :: b :: rest /\
       parseSize size =
       if Js.isNaN_Number (Js.StringToNumber a) || Js.isNaN_Number (Js.StringToNumber b)
       then inr "Invalid size format"
       else inl {| width := Num (Js.StringToNumber a);
                   height := Num (Js.StringToNumber b) |}) /\
    (forall (a b : string) (va vb : N),
        size = a ++ "x" ++ b ->
        Js.digits1 10 a = Some va ->
        Js.digits1 10 b = Some vb ->
        parseSize size = inl {| width := Num (Js.num va); height := Num (Js.num vb) |}) /\
    (forall (id format originalFile : string) (w : World) (r : Response),
        supported format = true ->
        fault w (readdir UPLOAD_DIR) = None ->
        find_original (originals w) id = Some originalFile ->
        fst (get_variant id size format w) = Return r ->
        status r = 400%N <-> exists msg, parseSize size = inr msg).
Proof.
  intros size Hp. repeat apply conj.
  - intros H. now rewrite parseSize_eq, H.
  - intros H. destruct (split_has_two size H) as (a & b & rest & E).
    exists a, b, rest. split; [exact E |].
    rewrite parseSize_eq, H, E by assumption. reflexivity.
  - intros a b va vb -> Ha Hb. now apply parseSize_digits.
  - intros id format f w r. apply status_400_iff_refused.
Qed.

Lemma C4_size_is_accepted_iff_both_parts_are_numbers_witness :
  parseSize "1024" = inr "Invalid size parameter" /\
  parseSize "640x0" = inl {| width := Num (Js.num 640); height := Num (Js.num 0) |}.
Proof.
  split.
  - apply (C4_size_is_accepted_iff_both_parts_are_numbers "1024"); reflexivity.
  - apply (proj1 (proj2 (proj2
             (C4_size_is_accepted_iff_both_parts_are_numbers "640x0" eq_refl)))
             "640" "0"); reflexivity.
Defined.

(** Tokens with a zero, a negative, a fractional or an empty component
    are accepted by the parser; for 0x0 on an existing original the
    request goes on to the image library, and the answer is not a
    400. *)
Lemma C4_counterexample :
  let w := Sample.world [("abc.png", Sample.pixels)] [] [] in
  parseSize "0x0" = inl {| width := Num (Js.num 0); height := Num (Js.num 0) |} /\
  parseSize "-5x10" =
  inl {| width := Num (Js.Finite true 5 0); height := Num (Js.num 10) |} /\
  parseSize "1.5x2" =
  inl {| width := Num (Js.Finite false 15 1); height := Num (Js.num 2) |} /\
  parseSize "x100" = inl {| width := Num (Js.num 0); height := Num (Js.num 100) |} /\
  fst (get_variant "abc" "0x0" "png" w) =
  Return (response 500
    (error_json "Failed to process image"
       (Some "Expected positive integer for width but received 0 of type number"))).
Proof. repeat split. Qed.

(** ** Presets and cache keys *)

(** C8.  A preset name and its explicit form parse to the same width
    and height, so that for every id and format they give the same
    cache key and the handler does the same with both: same answer,
    same cache entry. *)
Theorem C8_preset_is_its_explicit_form :
  forall name explicit : string,
    In (name, explicit) preset_forms ->
    (exists sz : Size,
        parseSize name = inl sz /\
        parseSize explicit = inl sz /\
        forall id format : string,
          cacheKey id sz format = id ++ "_" ++ explicit ++ "_" ++ format /\
          cacheFile id sz format =
          (id ++ "_" ++ explicit ++ "_" ++ format) ++ "." ++ format) /\
    (forall (id format : string) (w : World),
        get_variant id name format w = get_variant id explicit format w).
Proof.
  intros name explicit H.
  assert (E : parseSize name = parseSize explicit).
  { simpl in H. intuition (match goal with H : (_, _) = (_, _) |- _ => inversion H end);
      reflexivity. }
  split.
  - simpl in H.
    destruct H as [H | [H | [H | [H | []]]]]; inversion H; subst;
      eexists; (split; [reflexivity |]); (split; [reflexivity |]);
      intros id format; split; reflexivity.
  - intros id format w. rewrite !get_variant_eq. now rewrite E.
Qed.

Lemma C8_preset_is_its_explicit_form_witness :
  let w := Sample.world [("abc.png", Sample.pixels)] [] [] in
  get_variant "abc" "large" "webp" w = get_variant "abc" "1920x1080" "webp" w.
Proof.
  intros w. apply (C8_preset_is_its_explicit_form "large" "1920x1080").
  simpl. tauto.
Defined.

Lemma append_assoc (a b c : string) : (a ++ b) ++ c = a ++ (b ++ c).
Proof.
  induction a as [| x a IH]; [reflexivity |].
  change (String x ((a ++ b) ++ c) = String x (a ++ (b ++ c))). now rewrite IH.
Qed.

Lemma append_length (a b : string) :
  String.length (a ++ b) = String.length a + String.length b.
Proof.
  induction a as [| x a IH]; [reflexivity |].
  change (S (String.length (a ++ b)) = S (String.length a + String.length b)).
  now rewrite IH.
Qed.

Lemma append_same_length (a b x y : string) :
  a ++ x = b ++ y -> String.length a = String.length b -> a = b.
Proof.
  revert b. induction a as [| c a IH]; intros [| c' b] H Hl; try discriminate Hl.
  - reflexivity.
  - change (String c (a ++ x) = String c' (b ++ y)) in H.
    inversion H; subst. f_equal. apply IH; [assumption | now inversion Hl].
Qed.

Lemma cacheKey_prefix (id : string) (sz : Size) (format : string) :
  cacheKey id sz format = key_prefix id sz ++ format.
Proof.
  unfold cacheKey, key_prefix. now rewrite !append_assoc.
Qed.

Lemma cacheKey_inj (id : string) (sz : Size) (f1 f2 : string) :
  cacheKey id sz f1 = cacheKey id sz f2 -> f1 = f2.
Proof. rewrite !cacheKey_prefix. apply (inj (String.app _)). Qed.

Lemma cacheFile_inj (id : string) (sz : Size) (f1 f2 : string) :
  cacheFile id sz f1 = cacheFile id sz f2 -> f1 = f2.
Proof.
  unfold cacheFile. rewrite !cacheKey_prefix, !append_assoc.
  intros H. apply (inj (String.app _)) in H.
  apply (append_same_length _ _ _ _ H).
  apply (f_equal String.length) in H. rewrite !append_length in H.
  simpl in H. lia.
Qed.

Lemma lookup_store (file : string) (b : Buffer) (l : list (string * Buffer)) :
  fs.lookup (fs.store file b l) file = Some b.
Proof.
  unfold fs.store. destruct (fs.lookup l file) eqn:E.
  - unfold fs.lookup in *. induction l as [| [n c] l IH]; [discriminate |].
    simpl in *. destruct (String.eqb_spec n file) as [-> | Hne]; simpl.
    + now rewrite String.eqb_refl.
    + destruct (String.eqb_spec n file); [contradiction | auto].
  - unfold fs.lookup in *. induction l as [| [n c] l IH]; simpl in *.
    + now rewrite String.eqb_refl.
    + destruct (String.eqb n file); [discriminate | auto].
Qed.

Lemma files_set_files (w : World) (d : Dir) (l : list (string * Buffer)) :
  files (set_files w d l) d = l.
Proof. simpl. now destruct (decide (d = d)). Qed.

(** C10.  The cache key and the name of the cache file are built from
    the format token as it was requested: two tokens that differ give
    two keys and two file names, and a request that renders stores its
    bytes under the name made from its own token.  The encoder is chosen
    from the token in lower case, so that tokens equal up to case, and
    jpg and jpeg, get the same encoder (jpeg at quality 85 for the
    latter two); both jpg and jpeg are announced as image/jpeg. *)
Theorem C10_cache_key_keeps_the_format_token :
  forall (id : string) (sz : Size) (f1 f2 : string),
    (f1 <> f2 ->
     cacheKey id sz f1 <> cacheKey id sz f2 /\
     cacheFile id sz f1 <> cacheFile id sz f2) /\
    (Js.toLowerCase f1 = Js.toLowerCase f2 -> encoder f1 = encoder f2) /\
    (encoder "jpg" = Some (jpeg 85) /\ encoder "jpeg" = Some (jpeg 85)) /\
    (contentType_of "jpg" = "image/jpeg" /\ contentType_of "jpeg" = "image/jpeg") /\
    (forall (size originalFile : string) (w : World) (processedBuffer : Buffer),
        supported f1 = true ->
        fault w (readdir UPLOAD_DIR) = None ->
        find_original (originals w) id = Some originalFile ->
        parseSize size = inl sz ->
        cache_hit w (cacheFile id sz f1) = false ->
        sharp w (fs.lookup (files w UPLOAD_DIR) originalFile) (width sz) (height sz)
          (encoder f1) = Return processedBuffer ->
        fault w (writeFile CACHE_DIR (cacheFile id sz f1)) = None ->
        exists w',
          get_variant id size f1 w =
          (Return (response 200
             (send_image (contentType_of f1) "public, max-age=31536000" processedBuffer)),
           w') /\
          fs.lookup (files w' CACHE_DIR) (cacheFile id sz f1) = Some processedBuffer).
Proof.
  intros id sz f1 f2. repeat apply conj; try reflexivity.
  - intros Hne. split; intros H; apply Hne.
    + exact (cacheKey_inj _ _ _ _ H).
    + exact (cacheFile_inj _ _ _ _ H).
  - intros H. unfold encoder. now rewrite H.
  - intros size f w buf Hs Hr Hf Hp Hc Ht Hw.
    rewrite get_variant_eq, Hs, Hr, Hf, Hp. simpl. rewrite Hc, Ht, Hw.
    eexists. split; [reflexivity |].
    rewrite files_set_files. apply lookup_store.
Qed.

Lemma C10_cache_key_keeps_the_format_token_witness :
  let sz := {| width := Num (Js.num 150); height := Num (Js.num 150) |} in
  let w := Sample.world [("abc.png", Sample.pixels)] [] [] in
  (cacheKey "abc" sz "jpg" <> cacheKey "abc" sz "jpeg" /\
   cacheFile "abc" sz "jpg" <> cacheFile "abc" sz "jpeg") /\
  encoder "PNG" = encoder "png" /\
  exists w',
    get_variant "abc" "150x150" "jpg" w =
    (Return (response 200
       (send_image "image/jpeg" "public, max-age=31536000" Sample.rendered)), w') /\
    fs.lookup (files w' CACHE_DIR) "abc_150x150_jpg.jpg" = Some Sample.rendered.
Proof.
  intros sz w.
  destruct (C10_cache_key_keeps_the_format_token "abc" sz "jpg" "jpeg")
    as (H1 & _ & _ & _ & H5).
  destruct (C10_cache_key_keeps_the_format_token "abc" sz "PNG" "png")
    as (_ & H2 & _).
  split; [apply H1; discriminate |].
  split; [apply H2; reflexivity |].
  apply (H5 "150x150" "abc.png" w Sample.rendered); reflexivity.
Defined.

(** ** Deleting an image *)

Lemma bind_Return {A B : Type} (m : M A) (k : A -> M B) (w w' : World) (b : B) :
  bind m k w = (Return b, w') ->
  exists a w1, m w = (Return a, w1) /\ k a w1 = (Return b, w').
Proof.
  unfold bind. destruct (m w) as [[a | e] w1]; [eauto | discriminate].
Qed.

Lemma try_catch_unit (m : M unit) (w : World) :
  exists w1, try_catch m (fun _ => ret tt) w = (Return tt, w1).
Proof.
  unfold try_catch. destruct (m w) as [[[] | e] w1]; eauto.
Qed.

(** The delete handler answers with a success whenever the disk name
    resolves, whatever fails afterwards. *)
Lemma delete_image_success (config : Config) (m : StorageManager) (userId : Value)
    (id : string) (query_disk : Value) (w : World) (d : StorageManager.Disk) :
  StorageManager.disk m (diskName_of config query_disk) = Return d ->
  exists msg w',
    delete_image config m userId id query_disk w =
    (Return (response 200 (deleted_json msg userId)), w').
Proof.
  intros Hd. unfold delete_image.
  unfold try_catch at 1. unfold bind at 1. unfold lift. rewrite Hd.
  unfold bind at 1.
  match goal with
  | |- context [try_catch ?m (fun _ => ret tt) w] =>
      destruct (try_catch_unit m w) as [w1 ->]
  end.
  unfold try_catch.
  match goal with
  | |- context [bind ?m ?k w1] => destruct (bind m k w1) as [[r | e] w2] eqn:E
  end.
  - apply bind_Return in E as (names & w3 & _ & E).
    apply bind_Return in E as (u & w4 & _ & E).
    inversion E; subst. eauto.
  - unfold res_json, ret. eauto.
Qed.

Lemma lookup_In (l : list (string * Buffer)) (n : string) :
  In n (map fst l) -> exists b, fs.lookup l n = Some b.
Proof.
  unfold fs.lookup. induction l as [| [k c] l IH]; simpl; [tauto |].
  intros [-> | H].
  - rewrite String.eqb_refl. eauto.
  - destruct (String.eqb k n); eauto.
Qed.

Lemma lookup_remove (l : list (string * Buffer)) (n : string) :
  fs.lookup (fs.remove n l) n = None.
Proof.
  unfold fs.lookup, fs.remove. induction l as [| [k c] l IH]; simpl; [reflexivity |].
  destruct (String.eqb k n) eqn:E; simpl; [exact IH | now rewrite E].
Qed.

Lemma unlink_present (d : Dir) (n : string) (w : World) :
  fault w (unlink d n) = None ->
  In n (map fst (files w d)) ->
  fs.unlink d n w = (Return tt, set_files w d (fs.remove n (files w d))).
Proof.
  intros Hf Hn. destruct (lookup_In _ _ Hn) as [b Hb].
  unfold fs.unlink, bind, fs.attempt. now rewrite Hf, Hb.
Qed.

Lemma backend_step (a : FilesystemAdapter) (p : string) (w : World) :
  constructed a ->
  quiet w ->
  exists w',
    (let* present := FilesystemAdapter.exists_ a p in
     if present : bool then FilesystemAdapter.delete a p >> ret tt else ret tt) w =
    (Return tt, w') /\
    fault w' = fault w /\ sdk w' = sdk w /\
    files w' UPLOAD_DIR = files w UPLOAD_DIR /\
    files w' CACHE_DIR = files w CACHE_DIR /\
    removed_from_backend a p w w'.
Proof.
  intros Ha [Hq Hs].
  rewrite exists_dispatch, delete_dispatch by assumption.
  unfold removed_from_backend.
  destruct (class (client a)).
  - unfold LocalDriver.exists_, LocalDriver.delete, try_catch, bind, fs.access,
      fs.unlink, bind, fs.attempt.
    rewrite !Hq.
    destruct (fs.lookup (files w (LocalDriver.root (client a))) p) as [b |] eqn:E.
    + cbn [ret]. rewrite Hq, E. eexists. split; [reflexivity |].
      repeat split. rewrite files_set_files. apply lookup_remove.
    + cbn [ret]. eexists. split; [reflexivity |]. repeat split. exact E.
  - unfold S3Driver.exists_, S3Driver.delete, try_catch, bind, send.
    destruct (Hs (S3_HeadObject (this (client a) "bucket") p)) as [b ->].
    cbn [ret sdk log_call].
    destruct (Hs (S3_DeleteObject (this (client a) "bucket") p)) as [b' ->].
    eexists. split; [reflexivity |]. repeat split. simpl. tauto.
  - unfold AzureDriver.exists_, AzureDriver.delete, try_catch, bind, send.
    destruct (Hs (Azure_getProperties (this (client a) "containerName") p)) as [b ->].
    cbn [ret sdk log_call].
    destruct (Hs (Azure_delete (this (client a) "containerName") p)) as [b' ->].
    eexists. split; [reflexivity |]. repeat split. simpl. tauto.
  - unfold GCSDriver.exists_, GCSDriver.delete, try_catch, bind, send.
    destruct (Hs (GCS_exists (this (client a) "bucketName") p)) as [b Hb].
    rewrite Hb. cbn [ret]. destruct b.
    + cbn [sdk log_call].
      destruct (Hs (GCS_delete (this (client a) "bucketName") p)) as [b' ->].
      eexists. split; [reflexivity |]. repeat split. simpl. tauto.
    + eexists. split; [reflexivity |]. repeat split. discriminate.
Qed.

Lemma In_remove (l : list (string * Buffer)) (n n' : string) :
  In n' (map fst l) -> n' <> n -> In n' (map fst (fs.remove n l)).
Proof.
  unfold fs.remove. induction l as [| [k c] l IH]; simpl; [tauto |].
  intros [-> | H] Hne.
  - destruct (String.eqb_spec n' n); [contradiction | simpl; tauto].
  - destruct (String.eqb k n); simpl; auto.
Qed.

Lemma filter_remove (keep : string -> bool) (n : string) (l : list (string * Buffer)) :
  List.filter (fun e => negb (keep (fst e))) (fs.remove n l) =
  List.filter (fun e => negb (String.eqb (fst e) n || keep (fst e))) l.
Proof.
  unfold fs.remove. induction l as [| [k c] l IH]; simpl; [reflexivity |].
  destruct (String.eqb k n); simpl; [exact IH |].
  destruct (keep k); simpl; now rewrite IH.
Qed.

(** The loop over the related cache files, when nothing fails and no
    name is listed twice: the named entries are gone and nothing else
    has changed. *)
Lemma purge (l : list string) :
  forall w : World,
    (forall op, fault w op = None) ->
    List.NoDup l ->
    (forall n, In n l -> In n (map fst (files w CACHE_DIR))) ->
    exists w',
      for_of l (fun cacheFile => fs.unlink CACHE_DIR cacheFile) w = (Return tt, w') /\
      fault w' = fault w /\
      (sent w' = sent w /\ forall d, d <> CACHE_DIR -> files w' d = files w d) /\
      files w' CACHE_DIR =
      List.filter (fun e => negb (existsb (String.eqb (fst e)) l)) (files w CACHE_DIR).
Proof.
  induction l as [| n l IH]; intros w Hq Hnd Hin.
  - exists w. simpl. repeat split.
    induction (files w CACHE_DIR) as [| e r IHr]; simpl; [reflexivity | now rewrite <- IHr].
  - apply List.NoDup_cons_iff in Hnd as [Hn Hnd].
    cbn [for_of]. unfold bind at 1.
    rewrite (unlink_present CACHE_DIR n w (Hq _) (Hin n (or_introl eq_refl))).
    set (w1 := set_files w CACHE_DIR (fs.remove n (files w CACHE_DIR))).
    destruct (IH w1 Hq Hnd) as (w' & -> & Hf & Hu & Hc).
    { intros n' Hn'. unfold w1. rewrite files_set_files.
      apply In_remove; [apply Hin; now right |]. intros ->. contradiction. }
    exists w'. split; [reflexivity |]. split; [exact Hf |]. split.
    { destruct Hu as [Hs Hu]. split; [exact Hs |]. intros d Hd.
      rewrite (Hu d Hd). unfold w1. simpl. now destruct (decide (d = CACHE_DIR)). }
    rewrite Hc. unfold w1. rewrite files_set_files.
    rewrite (filter_remove (fun k => existsb (String.eqb k) l)).
    apply List.filter_ext. intros [k c]. simpl. now rewrite String.eqb_sym.
Qed.

Lemma find_original_In (names : list string) (id f : string) :
  find_original names id = Some f -> In f names /\ Js.startsWith f id = true.
Proof. unfold find_original. intros H. now apply List.find_some in H. Qed.

Lemma find_original_removed (l : list (string * Buffer)) (id f : string) :
  (forall g, In g (map fst l) -> Js.startsWith g id = true -> g = f) ->
  find_original (map fst (fs.remove f l)) id = None.
Proof.
  intros H. unfold find_original, fs.remove.
  induction l as [| [k c] l IH]; simpl; [reflexivity |].
  destruct (String.eqb_spec k f) as [-> | Hne]; simpl.
  - apply IH. intros g Hg. apply H. simpl. tauto.
  - destruct (Js.startsWith k id) eqn:E.
    + exfalso. apply Hne. apply H; simpl; tauto.
    + apply IH. intros g Hg. apply H. simpl. tauto.
Qed.

Lemma get_image_eq (id : string) (w : World) :
  fault w (readdir UPLOAD_DIR) = None ->
  get_image id w =
  match find_original (originals w) id with
  | None => (Return (response 404 (error_json "Image not found" None)), w)
  | Some file => (Return (response 200 (sendFile UPLOAD_DIR file)), w)
  end.
Proof.
  intros H. unfold get_image, try_catch, bind. rewrite readdir_eq, H.
  fold (originals w). now destruct (find_original (originals w) id).
Qed.

Lemma existsb_filter (keep : string -> bool) (names : list string) (k : string) :
  In k names ->
  existsb (String.eqb k) (List.filter keep names) = keep k.
Proof.
  intros Hk. destruct (keep k) eqn:E.
  - apply existsb_exists. exists k. split; [| apply String.eqb_refl].
    apply List.filter_In. tauto.
  - destruct (existsb _ _) eqn:Ex; [| reflexivity].
    apply existsb_exists in Ex as (x & Hx & Hkx).
    apply String.eqb_eq in Hkx. subst x.
    apply List.filter_In in Hx. destruct Hx; congruence.
Qed.

(** The delete handler when nothing fails, on a disk of the manager. *)
Lemma delete_image_quiet (config : Config) (m : StorageManager) (userId : Value)
    (id : string) (query_disk : Value) (w : World) (a : FilesystemAdapter) :
  constructed a ->
  StorageManager.disk m (diskName_of config query_disk) = Return (StorageManager.Adapter a) ->
  quiet w ->
  List.NoDup (map fst (files w CACHE_DIR)) ->
  exists w',
    delete_image config m userId id query_disk w =
    (Return (response 200 (deleted_json "Image deleted successfully" userId)), w') /\
    fault w' = fault w /\
    files w' CACHE_DIR =
    List.filter (fun e => negb (Js.startsWith (fst e) id)) (files w CACHE_DIR) /\
    match find_original (originals w) id with
    | None => files w' UPLOAD_DIR = files w UPLOAD_DIR
    | Some f =>
        files w' UPLOAD_DIR = fs.remove f (files w UPLOAD_DIR) /\
        removed_from_backend a ("images/" ++ f) w w'
    end.
Proof.
  intros Ha Hd Hq Hnd. pose proof Hq as [Hf Hs].
  (* the storage and the working copy *)
  assert (H1 : exists w1,
    try_catch
      (let* files := fs.readdir UPLOAD_DIR in
       let originalFile := find_original files id in
       match originalFile with
       | Some f =>
           let fullPath := "images/" ++ f in
           let* present :=
             disk_call (StorageManager.Adapter a) "exists"
               (fun a => FilesystemAdapter.exists_ a fullPath) in
           if present : bool
           then disk_call (StorageManager.Adapter a) "delete"
                  (fun a => FilesystemAdapter.delete a fullPath) >> ret tt
           else ret tt
       | None => ret tt
       end >>
       match originalFile with
       | Some f => try_catch (fs.unlink UPLOAD_DIR f) (fun _ => ret tt)
       | None => ret tt
       end)
      (fun _ => ret tt) w = (Return tt, w1) /\
    fault w1 = fault w /\
    files w1 CACHE_DIR = files w CACHE_DIR /\
    match find_original (originals w) id with
    | None => files w1 UPLOAD_DIR = files w UPLOAD_DIR
    | Some f =>
        files w1 UPLOAD_DIR = fs.remove f (files w UPLOAD_DIR) /\
        removed_from_backend a ("images/" ++ f) w w1
    end).
  { unfold try_catch at 1. unfold bind at 1. rewrite readdir_eq, Hf.
    fold (originals w). cbv zeta.
    destruct (find_original (originals w) id) as [f |] eqn:Ef.
    - destruct (backend_step a ("images/" ++ f) w Ha Hq)
        as (w1 & E1 & Hf1 & Hs1 & Hu1 & Hc1 & Hb1).
      unfold disk_call. unfold bind at 1. rewrite E1.
      unfold try_catch.
      rewrite (unlink_present UPLOAD_DIR f w1).
      + eexists. split; [reflexivity |]. split; [exact Hf1 |].
        split; [exact Hc1 |]. split.
        * rewrite files_set_files. now rewrite Hu1.
        * revert Hb1. unfold removed_from_backend.
          destruct (class (client a)); simpl; auto.
      + now rewrite Hf1.
      + rewrite Hu1. now apply find_original_In in Ef.
    - exists w. repeat split. }
  destruct H1 as (w1 & E1 & Hf1 & Hc1 & Hu1).
  (* the cache *)
  destruct (purge (List.filter (fun f => Js.startsWith f id) (map fst (files w1 CACHE_DIR))) w1)
    as (w2 & E2 & Hf2 & [Hs2 Hu2] & Hc2).
  { intros op. now rewrite Hf1. }
  { apply List.NoDup_filter. now rewrite Hc1. }
  { intros n Hn. now apply List.filter_In in Hn. }
  exists w2. split.
  - unfold delete_image. unfold try_catch at 1. unfold bind at 1. unfold lift.
    rewrite Hd. unfold bind at 1. cbv zeta in E1 |- *. rewrite E1.
    unfold try_catch. unfold bind at 1. rewrite readdir_eq, Hf1, Hf.
    cbv zeta. unfold bind at 1. rewrite E2. reflexivity.
  - split; [now rewrite Hf2 |]. split.
    + rewrite Hc2, Hc1. apply List.filter_ext_in. intros [k c] Hk. simpl.
      f_equal. apply (existsb_filter (fun f => Js.startsWith f id)).
      apply (in_map fst) in Hk. exact Hk.
    + destruct (find_original (originals w) id) as [f |].
      * destruct Hu1 as [Hu1 Hb1]. split.
        -- rewrite Hu2 by discriminate. exact Hu1.
        -- revert Hb1. unfold removed_from_backend.
           destruct (class (client a)); rewrite ?Hs2, ?Hu2 by discriminate; auto.
      * rewrite Hu2 by discriminate. exact Hu1.
Qed.

Lemma disk_adapter_constructed (config : Config) (m : StorageManager) (name : Value)
    (a : FilesystemAdapter) :
  StorageManager.constructor config = Return m ->
  StorageManager.disk m name = Return (StorageManager.Adapter a) ->
  constructed a.
Proof.
  intros Hm Hd. unfold StorageManager.disk, StorageManager.disks_get in Hd.
  destruct (manager_disks m !! _) as [a' |] eqn:E.
  - inversion Hd; subst. exact (manager_constructed config m Hm _ _ E).
  - unfold Js.inherited in Hd. destruct (Js.array_includes _ _); discriminate.
Qed.

(** C9, as the code has it.  When the disk name resolves, the delete
    handler answers with a success whatever it finds and whatever fails
    on the way.  When nothing fails, the disk is one of the manager's
    and the cache directory lists no name twice, it removes the first
    working copy whose name starts with the id, removes that file from
    the disk, and removes every cache entry whose name starts with the
    id.  A later request for the
    original of that id is answered 404 when no other working copy has
    a name that starts with the id. *)
Theorem C9_delete_reports_success :
  forall (config : Config) (m : StorageManager) (userId : Value) (id : string)
         (query_disk : Value) (w : World) (d : StorageManager.Disk),
    StorageManager.constructor config = Return m ->
    StorageManager.disk m (diskName_of config query_disk) = Return d ->
    (exists msg w',
        delete_image config m userId id query_disk w =
        (Return (response 200 (deleted_json msg userId)), w')) /\
    (forall a : FilesystemAdapter,
        d = StorageManager.Adapter a ->
        quiet w ->
        List.NoDup (map fst (files w CACHE_DIR)) ->
        exists w',
          delete_image config m userId id query_disk w =
          (Return (response 200 (deleted_json "Image deleted successfully" userId)), w') /\
          files w' CACHE_DIR =
          List.filter (fun e => negb (Js.startsWith (fst e) id)) (files w CACHE_DIR) /\
          match find_original (originals w) id with
          | None => files w' UPLOAD_DIR = files w UPLOAD_DIR
          | Some f =>
              files w' UPLOAD_DIR = fs.remove f (files w UPLOAD_DIR) /\
              removed_from_backend a ("images/" ++ f) w w'
          end /\
          ((forall g, In g (originals w) -> Js.startsWith g id = true ->
                      find_original (originals w) id = Some g) ->
           get_image id w' =
           (Return (response 404 (error_json "Image not found" None)), w'))).
Proof.
  intros config m userId id q w d Hm Hd. split.
  - exact (delete_image_success config m userId id q w d Hd).
  - intros a -> Hq Hnd.
    pose proof (disk_adapter_constructed config m _ a Hm Hd) as Ha.
    destruct (delete_image_quiet config m userId id q w a Ha Hd Hq Hnd)
      as (w' & E & Hf & Hc & Hu).
    exists w'. split; [exact E |]. split; [exact Hc |]. split; [exact Hu |].
    intros Huniq. rewrite get_image_eq by (rewrite Hf; apply Hq).
    unfold originals at 1.
    destruct (find_original (originals w) id) as [f |] eqn:Ef.
    + destruct Hu as [-> _]. rewrite find_original_removed; [reflexivity |].
      intros g Hg Hs. specialize (Huniq g Hg Hs). congruence.
    + rewrite Hu. fold (originals w). now rewrite Ef.
Qed.

Lemma C9_delete_reports_success_witness :
  let w :=
    Sample.world [("abc.png", Sample.pixels); ("xyz.png", Sample.pixels)]
      [("abc_150x150_png.png", Sample.rendered); ("xyz_150x150_png.png", Sample.rendered)]
      [("images/abc.png", Sample.pixels); ("images/xyz.png", Sample.pixels)] in
  exists w',
    delete_image Sample.config_default Sample.manager_default (Str "u1") "abc" Undefined w =
    (Return (response 200 (deleted_json "Image deleted successfully" (Str "u1"))), w') /\
    files w' CACHE_DIR = [("xyz_150x150_png.png", Sample.rendered)] /\
    files w' UPLOAD_DIR = [("xyz.png", Sample.pixels)] /\
    fs.lookup (files w' (Root "storage")) "images/abc.png" = None /\
    get_image "abc" w' = (Return (response 404 (error_json "Image not found" None)), w').
Proof.
  intros w.
  destruct (C9_delete_reports_success Sample.config_default Sample.manager_default
              (Str "u1") "abc" Undefined w (StorageManager.Adapter Sample.fallback)
              eq_refl eq_refl) as [_ H].
  destruct (H Sample.fallback eq_refl) as (w' & E & Hc & Hu & H404).
  - split; [reflexivity |]. intros c. exists true. reflexivity.
  - simpl. repeat constructor; simpl; intuition discriminate.
  - exists w'. split; [exact E |]. split; [exact Hc |].
    simpl in Hu. destruct Hu as [Hu Hb]. split; [exact Hu |]. split; [exact Hb |].
    apply H404. simpl.
    intros g [<- | [<- | []]]; [reflexivity | discriminate].
Defined.

(** Two working copies whose names start with the id: the handler
    removes the first and reports success, and the original of that id
    is still served. *)
Lemma C9_counterexample :
  let w :=
    Sample.world [("abc1.png", Sample.pixels); ("abc2.png", Sample.pixels)] []
      [("images/abc1.png", Sample.pixels); ("images/abc2.png", Sample.pixels)] in
  let r :=
    delete_image Sample.config_default Sample.manager_default (Str "u1") "abc" Undefined w in
  StorageManager.constructor Sample.config_default = Return Sample.manager_default /\
  fst r = Return (response 200 (deleted_json "Image deleted successfully" (Str "u1"))) /\
  fst (get_image "abc" (snd r)) = Return (response 200 (sendFile UPLOAD_DIR "abc2.png")).
Proof. repeat split. Qed.

(** ** Uploading *)

(** With a file in the request, the upload handler always ends in its
    catch-all: when the disk resolved and both writes went through, the
    call of [disk.url] throws. *)
Lemma upload_never_succeeds (config : Config) (m : StorageManager) (userId : Value)
    (f : UploadedFile) (body_disk : Value) (w : World) :
  StorageManager.constructor config = Return m ->
  exists msg w',
    upload config m userId (Some f) body_disk w =
    (Return (response 500 (error_json "Upload failed" (Some msg))), w').
Proof.
  intros Hm. unfold upload, try_catch.
  match goal with
  | |- context [bind ?b ?k w] => destruct (bind b k w) as [[r | e] w'] eqn:E
  end.
  - exfalso.
    apply bind_Return in E as (uniqueId & w1 & _ & E).
    apply bind_Return in E as (d & w2 & Hd & E).
    apply bind_Return in E as (b & w3 & _ & E).
    apply bind_Return in E as (u & w4 & _ & E).
    apply bind_Return in E as (uploadedAt & w5 & _ & E).
    apply bind_Return in E as (url & w6 & Hu & _).
    unfold lift in Hd. inversion Hd as [[Hd' Hw]].
    destruct d as [a | name]; [| discriminate].
    unfold disk_call in Hu.
    rewrite (url_throws a _ w5 (disk_adapter_constructed config m _ a Hm Hd')) in Hu.
    discriminate.
  - eexists _, _. reflexivity.
Qed.

(** The default configuration, a PNG of four bytes: both copies are
    written, and the answer is the 500 of the catch-all. *)
Example upload_fails_after_storing :
  let w := Sample.world [] [] [] in
  let r :=
    upload Sample.config_default Sample.manager_default (Str "u1")
      (Some {| originalname := "cat.png"; mimetype := "image/png"; buffer := Sample.pixels |})
      Undefined w in
  fst r = Return (response 500
            (error_json "Upload failed" (Some "this.client.url is not a function"))) /\
  files (snd r) (Root "storage") = [("images/1b9d6bcd.png", Sample.pixels)] /\
  files (snd r) UPLOAD_DIR = [("1b9d6bcd.png", Sample.pixels)].
Proof. repeat split. Qed.

(** * Further properties *)

(** ** Files on a local disk *)

Lemma lookup_store_other (file other : string) (b : Buffer) (l : list (string * Buffer)) :
  other <> file -> fs.lookup (fs.store file b l) other = fs.lookup l other.
Proof.
  intros Hne. unfold fs.store. destruct (fs.lookup l file) eqn:E.
  - clear E. unfold fs.lookup. induction l as [| [n c] l IH]; [reflexivity |].
    simpl. destruct (String.eqb_spec n file) as [-> | Hn]; simpl.
    + destruct (String.eqb_spec file other); [congruence | exact IH].
    + destruct (String.eqb n other); [reflexivity | exact IH].
  - clear E. unfold fs.lookup. induction l as [| [n c] l IH]; simpl.
    + destruct (String.eqb_spec file other); [congruence | reflexivity].
    + destruct (String.eqb n other); [reflexivity | exact IH].
Qed.

Lemma lookup_remove_other (file other : string) (l : list (string * Buffer)) :
  other <> file -> fs.lookup (fs.remove file l) other = fs.lookup l other.
Proof.
  intros Hne. unfold fs.lookup, fs.remove.
  induction l as [| [n c] l IH]; [reflexivity |].
  simpl. destruct (String.eqb_spec n file) as [-> | Hn]; simpl.
  - destruct (String.eqb_spec file other); [congruence | exact IH].
  - destruct (String.eqb n other); [reflexivity | exact IH].
Qed.

Lemma files_set_files_other (w : World) (d d' : Dir) (l : list (string * Buffer)) :
  d' <> d -> files (set_files w d l) d' = files w d'.
Proof. intros H. simpl. now destruct (decide (d' = d)). Qed.

Section LocalDisk.

Variable env : Reads.
Variable d : Driver.

Let root := LocalDriver.root d.

Lemma put_eq (p : string) (b : Buffer) (options : PutOptions) (w : World) :
  fault w (mkdir root p) = None ->
  fault w (writeFile root p) = None ->
  LocalDriver.put d p b options w =
  (Return true, set_files w root (fs.store p b (files w root))).
Proof.
  intros Hm Hw.
  unfold LocalDriver.put, LocalDriver.ensureDirectory, try_catch, bind,
    fs.mkdir, fs.writeFile, bind, fs.attempt.
  fold root. rewrite Hm. cbv beta iota. now rewrite Hw.
Qed.

(** X1.  What [put] has written is what [get] reads, whatever was there
    before; [exists] then answers true and [size] the number of bytes. *)
Theorem local_put_then_get (p : string) (b : Buffer) (options : PutOptions) (w : World) :
  fault w (mkdir root p) = None ->
  fault w (writeFile root p) = None ->
  fault w (access root p) = None ->
  read_fault env (readFile root p) = None ->
  read_fault env (stat root p) = None ->
  exists w1,
    LocalDriver.put d p b options w = (Return true, w1) /\
    LocalDriverReads.get env d p w1 = (Return b, w1) /\
    LocalDriverReads.size env d p w1 = (Return (List.length b), w1) /\
    LocalDriver.exists_ d p w1 = (Return true, w1).
Proof.
  intros Hm Hw Ha Hr Hs. eexists. split; [apply put_eq; assumption |].
  unfold LocalDriverReads.get, LocalDriverReads.size, LocalDriver.exists_,
    fs_read.readFile, fs_read.stat, try_catch, bind, fs.access, bind, fs.attempt.
  fold root. rewrite Hr, Hs. cbn [fault set_files]. rewrite Ha.
  rewrite files_set_files, lookup_store. repeat split.
Qed.

Lemma put_cases (p : string) (b : Buffer) (options : PutOptions) (w : World) :
  (exists e, LocalDriver.put d p b options w = (Throw e, w)) \/
  LocalDriver.put d p b options w =
  (Return true, set_files w root (fs.store p b (files w root))).
Proof.
  unfold LocalDriver.put, LocalDriver.ensureDirectory, try_catch, bind,
    fs.mkdir, fs.writeFile, bind, fs.attempt.
  fold root.
  destruct (fault w (mkdir root p)) as [e |]; cbv beta iota.
  - destruct (negb _); [left; now exists e |].
    unfold ret. destruct (fault w (writeFile root p)) as [e' |];
      [left; now exists e' | now right].
  - destruct (fault w (writeFile root p)) as [e' |];
      [left; now exists e' | now right].
Qed.

(** X2.  [put] creates, changes or removes no file of the disk but the
    one it is given, whether it returns or throws: every other path in
    normal form holds what it held before.  It sends nothing to an
    SDK. *)
Theorem local_put_changes_one_path (p : string) (b : Buffer) (options : PutOptions)
    (w w1 : World) (r : Result bool) :
  normal p = true ->
  LocalDriver.put d p b options w = (r, w1) ->
  (forall q, normal q = true -> q <> p ->
             fs.lookup (files w1 root) q = fs.lookup (files w root) q) /\
  sent w1 = sent w.
Proof.
  intros _.
  destruct (put_cases p b options w) as [[e ->] | ->];
    intros H; inversion H; subst; clear H.
  - repeat split.
  - repeat split.
    intros q _ Hq. rewrite files_set_files. now apply lookup_store_other.
Qed.

(** X3.  The directory of the file is made first, and an error of that
    step is reported unless its code is EEXIST: any other error is
    thrown by [put] and no file is written.  An EEXIST is swallowed and
    [put] goes on to write the file, so what it then reports is the
    outcome of the write: the error of [fs.writeFile] when that fails
    (as it does when a file stands where the directory should be), and
    true otherwise. *)
Theorem local_put_makes_the_directory_first (p : string) (b : Buffer)
    (options : PutOptions) (w : World) (e : Error) :
  fault w (mkdir root p) = Some e ->
  (code e <> Some "EEXIST" -> LocalDriver.put d p b options w = (Throw e, w)) /\
  (code e = Some "EEXIST" ->
   LocalDriver.put d p b options w =
   match fault w (writeFile root p) with
   | Some e' => (Throw e', w)
   | None => (Return true, set_files w root (fs.store p b (files w root)))
   end).
Proof.
  intros Hm.
  unfold LocalDriver.put, LocalDriver.ensureDirectory, try_catch, bind,
    fs.mkdir, fs.attempt.
  fold root. rewrite Hm. split.
  - intros Hc. now rewrite bool_decide_eq_false_2.
  - intros Hc. rewrite bool_decide_eq_true_2 by assumption. cbn [negb ret].
    rewrite writeFile_eq. now destruct (fault w (writeFile root p)).
Qed.

(** X4.  A file that is there is removed by [delete], which answers true;
    after that [exists] answers false and a second [delete] answers
    false.  The other paths in normal form hold what they held
    before. *)
Theorem local_delete_then_absent (p : string) (b : Buffer) (w : World) :
  normal p = true ->
  fs.lookup (files w root) p = Some b ->
  fault w (unlink root p) = None ->
  exists w1,
    LocalDriver.delete d p w = (Return true, w1) /\
    fst (LocalDriver.exists_ d p w1) = Return false /\
    LocalDriver.delete d p w1 = (Return false, w1) /\
    (forall q, normal q = true -> q <> p ->
               fs.lookup (files w1 root) q = fs.lookup (files w root) q).
Proof.
  intros _ Hl Hf.
  exists (set_files w root (fs.remove p (files w root))).
  assert (Hgone : fs.lookup (files (set_files w root (fs.remove p (files w root))) root) p = None).
  { rewrite files_set_files. apply lookup_remove. }
  repeat split.
  - unfold LocalDriver.delete, try_catch, bind, fs.unlink, bind, fs.attempt.
    fold root. now rewrite Hf, Hl.
  - unfold LocalDriver.exists_, try_catch, bind, fs.access, bind, fs.attempt.
    fold root. destruct (fault _ (access root p)); [reflexivity |].
    now rewrite Hgone.
  - apply local_delete_absent; [exact Hgone | exact Hf].
  - intros q _ Hq. rewrite files_set_files. now apply lookup_remove_other.
Qed.

Lemma copy_eq (from to : string) (w : World) :
  fault w (mkdir root to) = None ->
  fault w (copyFile root from to) = None ->
  LocalDriver.copy d from to w =
  match fs.lookup (files w root) from with
  | Some b => (Return true, set_files w root (fs.store to b (files w root)))
  | None => (Throw fs.ENOENT, w)
  end.
Proof.
  intros Hm Hc.
  unfold LocalDriver.copy, LocalDriver.ensureDirectory, try_catch, bind,
    fs.mkdir, fs.copyFile, bind, fs.attempt.
  fold root. rewrite Hm, Hc. now destruct (fs.lookup (files w root) from).
Qed.

(** X5.  [copy] of a file gives the destination the bytes of the source
    (in place of what was there) and keeps the source; the paths in
    normal form other than the destination hold what they held
    before. *)
Theorem local_copy (from to : string) (b : Buffer) (w : World) :
  normal from = true ->
  normal to = true ->
  fs.lookup (files w root) from = Some b ->
  fault w (mkdir root to) = None ->
  fault w (copyFile root from to) = None ->
  exists w1,
    LocalDriver.copy d from to w = (Return true, w1) /\
    fs.lookup (files w1 root) to = Some b /\
    fs.lookup (files w1 root) from = Some b /\
    (forall q, normal q = true -> q <> to ->
               fs.lookup (files w1 root) q = fs.lookup (files w root) q).
Proof.
  intros _ _ Hb Hm Hc. rewrite copy_eq by assumption.
  rewrite Hb. eexists. split; [reflexivity |].
  rewrite files_set_files. split; [apply lookup_store |]. split.
  - destruct (String.eqb_spec from to) as [-> | Hne]; [apply lookup_store |].
    now rewrite lookup_store_other.
  - intros q _ Hq. now apply lookup_store_other.
Qed.

End LocalDisk.

(** ** The adapter of a local disk *)

Section LocalAdapter.

Variable a : FilesystemAdapter.
Hypothesis Ha : constructed a.
Hypothesis Hlocal : class (client a) = Local.

Let root := LocalDriver.root (client a).

Lemma copy_dispatch_local (from to : string) :
  FilesystemAdapter.copy a from to = LocalDriver.copy (client a) from to.
Proof.
  unfold FilesystemAdapter.copy, invoke.
  rewrite (methods_are_inherited a "copy" Ha) by (simpl; tauto).
  now rewrite Hlocal.
Qed.

Lemma delete_dispatch_local (p : string) :
  FilesystemAdapter.delete a p = LocalDriver.delete (client a) p.
Proof. rewrite delete_dispatch by exact Ha. now rewrite Hlocal. Qed.

Lemma local_client : client a = LocalDriver.constructor (config a).
Proof.
  destruct (constructed_client a Ha) as [E | [E | [E | E]]];
    [exact E | | |]; rewrite E in Hlocal; discriminate.
Qed.

Lemma move_eq (from to : string) (b : Buffer) (w : World) :
  fs.lookup (files w root) from = Some b ->
  fault w (mkdir root to) = None ->
  fault w (copyFile root from to) = None ->
  fault w (unlink root from) = None ->
  FilesystemAdapter.move a from to w =
  (Return true,
   let w1 := set_files w root (fs.store to b (files w root)) in
   set_files w1 root (fs.remove from (files w1 root))).
Proof.
  intros Hb Hm Hc Hu.
  unfold FilesystemAdapter.move.
  rewrite copy_dispatch_local, delete_dispatch_local.
  unfold bind at 1. fold root. rewrite (copy_eq (client a) from to w Hm Hc).
  fold root. rewrite Hb.
  unfold bind at 1.
  unfold LocalDriver.delete, try_catch, bind, fs.unlink, bind, fs.attempt.
  fold root. cbn [fault set_files]. rewrite Hu.
  rewrite files_set_files.
  assert (Hfrom : fs.lookup (fs.store to b (files w root)) from = Some b).
  { destruct (String.eqb_spec from to) as [-> | Hne]; [apply lookup_store |].
    now rewrite lookup_store_other. }
  rewrite Hfrom. reflexivity.
Qed.

(** X6.  On a local disk, [move] of a file to another path (both in
    normal form) leaves the bytes of the source at the destination and
    nothing at the source; the paths in normal form other than these
    two hold what they held before. *)
Theorem local_move_relocates (from to : string) (b : Buffer) (w : World) :
  normal from = true ->
  normal to = true ->
  from <> to ->
  fs.lookup (files w root) from = Some b ->
  fault w (mkdir root to) = None ->
  fault w (copyFile root from to) = None ->
  fault w (unlink root from) = None ->
  exists w2,
    FilesystemAdapter.move a from to w = (Return true, w2) /\
    fs.lookup (files w2 root) to = Some b /\
    fs.lookup (files w2 root) from = None /\
    (forall q, normal q = true -> q <> from -> q <> to ->
               fs.lookup (files w2 root) q = fs.lookup (files w root) q).
Proof.
  intros _ _ Hne Hb Hm Hc Hu. eexists.
  split; [exact (move_eq from to b w Hb Hm Hc Hu) |].
  cbv zeta. rewrite !files_set_files. split; [| split].
  - rewrite lookup_remove_other by congruence. apply lookup_store.
  - apply lookup_remove.
  - intros q _ Hq1 Hq2. rewrite lookup_remove_other by assumption.
    now apply lookup_store_other.
Qed.

(** X7.  On a local disk, [move] of a path onto itself answers true and
    leaves no file at that path: the copy of a file onto itself goes
    through and changes nothing, and the source is then deleted. *)
Theorem local_move_onto_itself_deletes (p : string) (b : Buffer) (w : World) :
  fs.lookup (files w root) p = Some b ->
  fault w (mkdir root p) = None ->
  fault w (copyFile root p p) = None ->
  fault w (unlink root p) = None ->
  exists w2,
    FilesystemAdapter.move a p p w = (Return true, w2) /\
    fs.lookup (files w2 root) p = None /\
    (forall q, q <> p -> fs.lookup (files w2 root) q = fs.lookup (files w root) q).
Proof.
  intros Hb Hm Hc Hu. eexists. split; [exact (move_eq p p b w Hb Hm Hc Hu) |].
  cbv zeta. rewrite !files_set_files. split.
  - apply lookup_remove.
  - intros q Hq. rewrite lookup_remove_other by assumption.
    now apply lookup_store_other.
Qed.

(** X8.  On a local disk [temporaryUrl] calls [this.url], which is the
    string the constructor assigned: it throws a TypeError for every
    path and every expiration. *)
Theorem local_temporaryUrl_throws (signed : Driver -> string -> Value -> M string)
    (p : string) (expiration : Value) (w : World) :
  adapter_temporaryUrl signed a p expiration w =
  (Throw (TypeError "this.url is not a function"), w).
Proof.
  unfold adapter_temporaryUrl. rewrite Hlocal, local_client. reflexivity.
Qed.

End LocalAdapter.

(** ** Names and extensions *)

Lemma string_of_list_ascii_app (a b : list ascii) :
  string_of_list_ascii (a ++ b) = string_of_list_ascii a ++ string_of_list_ascii b.
Proof. induction a as [| c a IH]; [reflexivity |]. simpl. now rewrite IH. Qed.

Lemma list_ascii_of_string_app (a b : string) :
  list_ascii_of_string (a ++ b) = (list_ascii_of_string a ++ list_ascii_of_string b)%list.
Proof.
  induction a as [| c a IH]; [reflexivity |].
  change (String c a ++ b) with (String c (a ++ b)). simpl. now rewrite IH.
Qed.

Lemma upto_dot_Some (s e r : list ascii) :
  path.upto_dot s = Some (e, r) ->
  exists pre, e = (pre ++ ["."%char])%list /\ s = (e ++ r)%list /\
              forallb (fun c => negb (Ascii.eqb c ".")) pre = true.
Proof.
  revert e r. induction s as [| c s IH]; intros e r; cbn [path.upto_dot]; [discriminate |].
  destruct (Ascii.eqb_spec c ".") as [-> | Hc].
  - intros H. inversion H; subst. now exists [].
  - destruct (path.upto_dot s) as [[e' r'] |]; [| discriminate].
    intros H. inversion H; subst.
    destruct (IH e' r eq_refl) as (pre & -> & -> & Hp).
    exists (c :: pre). repeat split. cbn [forallb].
    destruct (Ascii.eqb_spec c "."); [contradiction | exact Hp].
Qed.

Lemma upto_dot_None (s : list ascii) :
  forallb (fun c => negb (Ascii.eqb c ".")) s = true -> path.upto_dot s = None.
Proof.
  induction s as [| c s IH]; cbn [forallb path.upto_dot]; [reflexivity |].
  destruct (Ascii.eqb c "."); [discriminate |]. intros H. now rewrite IH.
Qed.

Lemma upto_dot_app (pre r : list ascii) :
  forallb (fun c => negb (Ascii.eqb c ".")) pre = true ->
  path.upto_dot (pre ++ "."%char :: r) = Some ((pre ++ ["."%char])%list, r).
Proof.
  induction pre as [| c pre IH]; cbn [forallb app path.upto_dot]; [reflexivity |].
  destruct (Ascii.eqb c "."); [discriminate |]. intros H. now rewrite IH.
Qed.

Lemma upto_slash_all (s : list ascii) :
  forallb (fun c => negb (Ascii.eqb c "/")) s = true -> path.upto_slash s = s.
Proof.
  induction s as [| c s IH]; cbn [forallb path.upto_slash]; [reflexivity |].
  destruct (Ascii.eqb c "/"); [discriminate |]. intros H. now rewrite IH.
Qed.

Lemma drop_slashes_none (s : list ascii) :
  forallb (fun c => negb (Ascii.eqb c "/")) s = true -> path.drop_slashes s = s.
Proof.
  destruct s as [| c s]; [reflexivity |]. cbn [forallb].
  destruct (Ascii.eqb_spec c "/") as [-> | Hc]; [discriminate |].
  intros _. unfold path.drop_slashes.
  destruct c as [[] [] [] [] [] [] [] []]; try reflexivity. contradiction.
Qed.

Lemma upto_slash_no_slash (s : list ascii) :
  forallb (fun c => negb (Ascii.eqb c "/")) (path.upto_slash s) = true.
Proof.
  induction s as [| c s IH]; cbn [path.upto_slash]; [reflexivity |].
  destruct (Ascii.eqb c "/") eqn:E; [reflexivity |]. cbn [forallb]. now rewrite E.
Qed.

Lemma forallb_rev {A : Type} (f : A -> bool) (l : list A) :
  forallb f (List.rev l) = forallb f l.
Proof.
  induction l as [| x l IH]; [reflexivity |].
  simpl. rewrite forallb_app, IH. simpl. destruct (f x), (forallb f l); reflexivity.
Qed.

(** The base name of a path of one segment is the path. *)
Lemma base_of_name (f : string) :
  no_slash f = true ->
  path.upto_slash (path.drop_slashes (List.rev (list_ascii_of_string f))) =
  List.rev (list_ascii_of_string f).
Proof.
  intros H. unfold no_slash in H. rewrite <- forallb_rev in H.
  now rewrite drop_slashes_none, upto_slash_all.
Qed.

(** The extension is empty or a dot followed by characters that are
    neither dots nor slashes. *)
Lemma extname_shape (p : string) :
  path.extname p = "" \/
  exists x, path.extname p = String "." x /\ plain x = true.
Proof.
  unfold path.extname.
  set (base := path.upto_slash _).
  pose proof (upto_slash_no_slash
                (path.drop_slashes (List.rev (list_ascii_of_string p)))) as Hb.
  fold base in Hb.
  destruct (path.upto_dot base) as [[e r] |] eqn:E; [| now left].
  destruct r as [| c r]; [now left |].
  destruct (bool_decide _); [now left |]. right.
  destruct (upto_dot_Some _ _ _ E) as (pre & -> & Hbase & Hp).
  exists (string_of_list_ascii (List.rev pre)). split.
  - now rewrite List.rev_app_distr.
  - unfold plain. rewrite list_ascii_of_string_of_list_ascii, forallb_rev.
    rewrite Hbase, !forallb_app in Hb.
    apply andb_true_iff in Hb as [Hb _]. apply andb_true_iff in Hb as [Hb _].
    clear - Hb Hp. induction pre as [| c pre IH]; [reflexivity |].
    cbn [forallb] in *.
    apply andb_true_iff in Hb as [-> Hb]. apply andb_true_iff in Hp as [-> Hp].
    now apply IH.
Qed.

(** The name and the extension of a file name make up the file name. *)
Lemma name_extname (f : string) :
  no_slash f = true -> path_parse.name f ++ path.extname f = f.
Proof.
  intros H. unfold path_parse.name, path.extname. cbv zeta.
  rewrite (base_of_name f H).
  set (base := List.rev (list_ascii_of_string f)).
  assert (Hf : string_of_list_ascii (List.rev base) = f).
  { unfold base. now rewrite List.rev_involutive, string_of_list_ascii_of_string. }
  destruct (path.upto_dot base) as [[e r] |] eqn:E;
    [| now rewrite Hf, append_empty].
  destruct r as [| c r]; [now rewrite Hf, append_empty |].
  destruct (bool_decide _); [now rewrite Hf, append_empty |].
  destruct (upto_dot_Some _ _ _ E) as (pre & _ & Hbase & _).
  rewrite <- string_of_list_ascii_app, <- List.rev_app_distr, <- Hbase. exact Hf.
Qed.

Lemma startsWith_append (a b : string) : Js.startsWith (a ++ b) a = true.
Proof.
  induction a as [| c a IH]; [now destruct b |].
  change (String c a ++ b) with (String c (a ++ b)).
  cbn [Js.startsWith]. now rewrite Ascii.eqb_refl.
Qed.

Lemma startsWith_name (f : string) :
  no_slash f = true -> Js.startsWith f (path_parse.name f) = true.
Proof.
  intros H. rewrite <- (name_extname f H) at 1. apply startsWith_append.
Qed.

Lemma plain_parts (l : list ascii) :
  forallb (fun c => negb (Ascii.eqb c "/") && negb (Ascii.eqb c ".")) l = true ->
  forallb (fun c => negb (Ascii.eqb c "/")) l = true /\
  forallb (fun c => negb (Ascii.eqb c ".")) l = true.
Proof.
  induction l as [| c l IH]; cbn [forallb]; [tauto |].
  intros H. apply andb_true_iff in H as [Hc Hl]. apply andb_true_iff in Hc as [-> ->].
  exact (IH Hl).
Qed.

Lemma list_of_nonempty (u : string) : u <> "" -> List.rev (list_ascii_of_string u) <> [].
Proof.
  intros Hu E. apply Hu. apply (f_equal (@List.rev ascii)) in E.
  rewrite List.rev_involutive in E. simpl in E.
  rewrite <- (string_of_list_ascii_of_string u). now rewrite E.
Qed.

(** The name under which [upload] stores a file, [uniqueId + ext],
    splits back into the id and the extension. *)
Lemma stored_name (u ext : string) :
  u <> "" ->
  plain u = true ->
  ext = "" \/ (exists x, ext = String "." x /\ plain x = true) ->
  path_parse.name (u ++ ext) = u /\ path.extname (u ++ ext) = ext.
Proof.
  intros Hu Hp Hext. unfold plain in Hp.
  destruct (plain_parts _ Hp) as [Hus Hud].
  destruct Hext as [-> | (x & -> & Hx)].
  - rewrite append_empty. unfold path_parse.name, path.extname. cbv zeta.
    rewrite (base_of_name u Hus).
    rewrite upto_dot_None by now rewrite forallb_rev.
    now rewrite List.rev_involutive, string_of_list_ascii_of_string.
  - destruct (plain_parts _ Hx) as [Hxs Hxd].
    assert (Hs : no_slash (u ++ String "." x) = true).
    { unfold no_slash. rewrite list_ascii_of_string_app, forallb_app, Hus.
      cbn [list_ascii_of_string forallb]. now rewrite Hxs. }
    unfold path_parse.name, path.extname. cbv zeta.
    rewrite (base_of_name _ Hs), list_ascii_of_string_app.
    cbn [list_ascii_of_string]. rewrite List.rev_app_distr. cbn [List.rev].
    rewrite <- List.app_assoc. cbn [app].
    set (lx := List.rev (list_ascii_of_string x)).
    set (lu := List.rev (list_ascii_of_string u)).
    assert (Hlx : forallb (fun c => negb (Ascii.eqb c ".")) lx = true)
      by (unfold lx; now rewrite forallb_rev).
    assert (Hlu : forallb (fun c => negb (Ascii.eqb c ".")) lu = true)
      by (unfold lu; now rewrite forallb_rev).
    rewrite (upto_dot_app lx lu Hlx).
    pose proof (list_of_nonempty u Hu) as Hne. fold lu in Hne.
    destruct lu as [| c lu'] eqn:Elu; [contradiction |].
    rewrite bool_decide_eq_false_2.
    + rewrite <- Elu, List.rev_app_distr.
      change (List.rev ["."%char]) with ["."%char]. cbn [app].
      unfold lu, lx. rewrite !List.rev_involutive.
      cbn [string_of_list_ascii]. now rewrite !string_of_list_ascii_of_string.
    + intros E. destruct lx as [| d lx'].
      * cbn [app] in E. inversion E; subst. discriminate.
      * cbn [app] in E. inversion E; subst. discriminate.
Qed.

(** X9.  [mimeType] never throws and never touches the disk, and what it
    returns is always a string: one of the nine listed types, or
    application/octet-stream, which is also the answer for every path
    without an extension.  No member of [Object.prototype] can come out
    of the table, since an extension is empty or starts with a dot. *)
Theorem mimeType_is_a_listed_type (d : Driver) (p : string) (w : World) :
  exists t,
    LocalDriverReads.mimeType d p w = (Return (Str t), w) /\
    In t ("application/octet-stream" :: map snd LocalDriverReads.mimeTypes) /\
    (path.extname p = "" -> t = "application/octet-stream").
Proof.
  unfold LocalDriverReads.mimeType, ret. cbv zeta.
  destruct (extname_shape p) as [-> | (x & -> & _)].
  - exists "application/octet-stream". repeat split. now left.
  - change (Js.toLowerCase (String "." x)) with (String "." (Js.toLowerCase x)).
    set (y := Js.toLowerCase x).
    destruct (find _ LocalDriverReads.mimeTypes) as [e |] eqn:E.
    + apply List.find_some in E as [He _].
      exists (snd e). split; [| split; [| discriminate]].
      * simpl in He.
        repeat (destruct He as [<- | He]; [reflexivity |]). contradiction.
      * right. now apply in_map.
    + exists "application/octet-stream". split; [reflexivity |].
      split; [now left | discriminate].
Qed.

(** ** Listing and describing the originals *)

Lemma stat_eq (env : Reads) (file : string) (w : World) :
  In file (originals w) ->
  fs_read.stat env UPLOAD_DIR file w =
  if stat_ok env file
  then (Return {| stats_size := image_size (entry_of env w file);
                  stats_birthtime := birthtime env UPLOAD_DIR file |}, w)
  else match read_fault env (stat UPLOAD_DIR file) with
       | Some e => (Throw e, w)
       | None => (Throw fs.ENOENT, w)
       end.
Proof.
  intros Hin. destruct (lookup_In _ _ Hin) as [b Hb].
  unfold fs_read.stat, stat_ok, entry_of. cbn [image_size]. rewrite Hb.
  now destruct (read_fault env (stat UPLOAD_DIR file)).
Qed.

Lemma images_loop_eq (env : Reads) (w : World) (names : list string) :
  forall images : list ImageEntry,
    (forall f, In f names -> In f (originals w)) ->
    if forallb (stat_ok env) names
    then images_loop env names images w =
         (Return (images ++ map (entry_of env w) names)%list, w)
    else exists e, images_loop env names images w = (Throw e, w).
Proof.
  induction names as [| f names IH]; intros images Hin.
  - simpl. unfold ret. now rewrite List.app_nil_r.
  - cbn [forallb images_loop]. unfold bind.
    rewrite (stat_eq env f w (Hin f (or_introl eq_refl))).
    destruct (stat_ok env f) eqn:Ef; cbn [andb].
    + cbv beta iota. cbn [stats_size stats_birthtime].
      specialize (IH (images ++ [entry_of env w f])%list
                    (fun g Hg => Hin g (or_intror Hg))).
      destruct (forallb (stat_ok env) names).
      * rewrite <- List.app_assoc in IH. exact IH.
      * exact IH.
    + destruct (read_fault env (stat UPLOAD_DIR f)) as [e |]; eauto.
Qed.

Lemma get_images_eq (env : Reads) (w : World) :
  get_images env w =
  (Return
     (if listable env w
      then {| list_status := 200;
              list_body := images_json (List.length (originals w))
                             (map (entry_of env w) (originals w)) |}
      else {| list_status := 500; list_body := failure_json "Failed to list images" |}),
   w).
Proof.
  unfold get_images, listable, try_catch. unfold bind at 1. rewrite readdir_eq.
  destruct (fault w (readdir UPLOAD_DIR)); [reflexivity |].
  fold (originals w). unfold bind.
  pose proof (images_loop_eq env w (originals w) [] (fun f H => H)) as H.
  destruct (forallb (stat_ok env) (originals w)).
  - rewrite H. cbn [app]. unfold ret. now rewrite List.length_map.
  - destruct H as [e ->]. reflexivity.
Qed.

(** X10.  [GET /api/images] never throws and changes nothing.  When the
    directory can be listed and every working copy described, it
    answers 200 with one entry for each working copy, in the order of
    the directory, and a count that is their number; when any of these
    reads fails it answers 500 and lists nothing, whatever the other
    working copies are. *)
Theorem get_images_lists_every_file (env : Reads) (w : World) :
  exists r,
    get_images env w = (Return r, w) /\
    (listable env w = true ->
     r = {| list_status := 200;
            list_body := images_json (List.length (originals w))
                           (map (entry_of env w) (originals w)) |}) /\
    (listable env w = false ->
     r = {| list_status := 500; list_body := failure_json "Failed to list images" |}).
Proof.
  eexists. split; [apply get_images_eq |].
  destruct (listable env w); split; intros H; try discriminate H; reflexivity.
Qed.

Lemma find_exists {A : Type} (keep : A -> bool) (l : list A) (x : A) :
  In x l -> keep x = true -> exists y, find keep l = Some y.
Proof.
  induction l as [| a l IH]; simpl; [tauto |].
  intros [-> | H] Hk.
  - rewrite Hk. eauto.
  - destruct (keep a); eauto.
Qed.

Lemma dotfile_starts_with_a_dot (f : string) :
  Js.startsWith f "." = false -> dotfile f = false.
Proof.
  destruct f as [| c f]; [reflexivity |].
  destruct (Ascii.eqb_spec "." c) as [<- | Hc].
  - cbn [Js.startsWith]. rewrite Ascii.eqb_refl. discriminate.
  - intros _. unfold dotfile.
    destruct c as [[] [] [] [] [] [] [] []]; try reflexivity. contradiction.
Qed.

Lemma startsWith_no_dot (f p : string) :
  Js.startsWith f p = true ->
  p <> "" ->
  Js.startsWith p "." = false ->
  Js.startsWith f "." = false.
Proof.
  destruct p as [| c p]; [contradiction |].
  destruct f as [| c' f]; [discriminate |].
  cbn [Js.startsWith].
  destruct (Ascii.eqb_spec c c') as [<- | Hc]; [| discriminate].
  tauto.
Qed.

Lemma name_no_dot (g : string) :
  no_slash g = true ->
  g <> "" ->
  Js.startsWith g "." = false ->
  path_parse.name g <> "" /\ Js.startsWith (path_parse.name g) "." = false.
Proof.
  intros Hs Hne Hd. pose proof (name_extname g Hs) as E.
  destruct (path_parse.name g) as [| c n] eqn:En.
  - exfalso. change ("" ++ path.extname g) with (path.extname g) in E.
    destruct (extname_shape g) as [Hx | (x & Hx & _)]; rewrite Hx in E.
    + now subst g.
    + subst g. discriminate.
  - split; [discriminate |].
    rewrite <- E in Hd. exact Hd.
Qed.

(** X11.  Every id of the listing that belongs to a working copy whose
    name does not start with a dot is an id that [GET /api/image/:id]
    serves: the file handed to [res.sendFile] has a name that starts
    with the id, and it is not one that [res.sendFile] refuses.  (The
    file served is the first whose name starts with the id.) *)
Theorem listed_id_is_served (env : Reads) (w w' : World) (count : nat)
    (images : list ImageEntry) (i : ImageEntry) :
  (forall f, In f (originals w) -> no_slash f = true /\ f <> "") ->
  get_images env w =
  (Return {| list_status := 200; list_body := images_json count images |}, w') ->
  In i images ->
  Js.startsWith (image_filename i) "." = false ->
  exists f,
    get_image (image_id i) w' =
    (Return (response 200 (sendFile UPLOAD_DIR f)), w') /\
    In f (originals w') /\
    Js.startsWith f (image_id i) = true /\
    dotfile f = false.
Proof.
  intros Hns H Hi Hdot. rewrite get_images_eq in H.
  unfold listable in H.
  destruct (fault w (readdir UPLOAD_DIR)) eqn:Hr; [discriminate |].
  destruct (forallb _ _); [| discriminate].
  inversion H; subst. clear H.
  apply List.in_map_iff in Hi as (g & <- & Hg).
  cbn [entry_of image_id image_filename] in *.
  destruct (Hns g Hg) as [Hs Hne].
  destruct (name_no_dot g Hs Hne Hdot) as [Hn Hnd].
  rewrite get_image_eq by exact Hr.
  destruct (find_exists (fun f => Js.startsWith f (path_parse.name g)) (originals w') g Hg
              (startsWith_name g Hs)) as [f Hf].
  fold (find_original (originals w') (path_parse.name g)) in Hf. rewrite Hf.
  apply find_original_In in Hf as [Hin Hst].
  exists f. split; [reflexivity |]. split; [exact Hin |]. split; [exact Hst |].
  apply dotfile_starts_with_a_dot. exact (startsWith_no_dot f _ Hst Hn Hnd).
Qed.

Lemma get_info_eq (env : Reads) (id : string) (w : World) :
  get_info env id w =
  (Return
     match fault w (readdir UPLOAD_DIR) with
     | Some _ => {| list_status := 500; list_body := failure_json "Failed to get image info" |}
     | None =>
         match find_original (originals w) id with
         | None => {| list_status := 404; list_body := failure_json "Image not found" |}
         | Some file =>
             match metadata env (fs.lookup (files w UPLOAD_DIR) file),
                   stat_ok env file with
             | Return m, true =>
                 {| list_status := 200;
                    list_body :=
                      info_json id file (image_size (entry_of env w file))
                        (birthtime env UPLOAD_DIR file)
                        (Js.get m "width") (Js.get m "height") (Js.get m "format")
                        (Js.get m "space") (Js.get m "channels") (Js.get m "density")
                        (Js.get m "hasAlpha") |}
             | _, _ =>
                 {| list_status := 500;
                    list_body := failure_json "Failed to get image info" |}
             end
         end
     end, w).
Proof.
  unfold get_info, try_catch. unfold bind at 1. rewrite readdir_eq.
  destruct (fault w (readdir UPLOAD_DIR)); [reflexivity |].
  fold (originals w).
  destruct (find_original (originals w) id) as [file |] eqn:Ef; [| reflexivity].
  apply find_original_In in Ef as [Hin _].
  unfold bind, sharp_metadata.
  destruct (metadata env _) as [m | e]; [| reflexivity].
  rewrite (stat_eq env file w Hin).
  destruct (stat_ok env file); [reflexivity |].
  now destruct (read_fault env (stat UPLOAD_DIR file)).
Qed.

Lemma get_image_eq_total (id : string) (w : World) :
  get_image id w =
  match fault w (readdir UPLOAD_DIR) with
  | Some _ => (Return (response 500 (error_json "Failed to serve image" None)), w)
  | None =>
      match find_original (originals w) id with
      | None => (Return (response 404 (error_json "Image not found" None)), w)
      | Some file => (Return (response 200 (sendFile UPLOAD_DIR file)), w)
      end
  end.
Proof.
  destruct (fault w (readdir UPLOAD_DIR)) eqn:H; [| now apply get_image_eq].
  unfold get_image, try_catch, bind. now rewrite readdir_eq, H.
Qed.

(** X12.  [GET /api/info/:id] never throws and changes nothing.  It answers
    404 exactly when the directory can be listed and no working copy
    has a name that starts with the id.  What it describes with a 200
    is the first working copy whose name starts with the id, with the
    number of its bytes as the size; this is the file that
    [GET /api/image/:id] hands to [res.sendFile], which serves it
    unless its name is one that [res.sendFile] refuses. *)
Theorem get_info_describes_what_get_image_serves (env : Reads) (id : string) (w : World) :
  exists r,
    get_info env id w = (Return r, w) /\
    (list_status r = 404%N <->
     fault w (readdir UPLOAD_DIR) = None /\ find_original (originals w) id = None) /\
    (forall id' filename size uploadedAt width height format space channels density hasAlpha,
        list_body r =
        info_json id' filename size uploadedAt width height format space channels
          density hasAlpha ->
        id' = id /\
        find_original (originals w) id = Some filename /\
        (exists b, fs.lookup (files w UPLOAD_DIR) filename = Some b /\
                   size = List.length b) /\
        (dotfile filename = false ->
         get_image id w = (Return (response 200 (sendFile UPLOAD_DIR filename)), w))).
Proof.
  eexists. split; [apply get_info_eq |].
  rewrite !get_image_eq_total.
  destruct (fault w (readdir UPLOAD_DIR)).
  { split; [split; [discriminate | intros [H _]; discriminate] | discriminate]. }
  destruct (find_original (originals w) id) as [file |] eqn:Ef.
  2: { split; [split; [split; reflexivity | reflexivity] | discriminate]. }
  apply find_original_In in Ef as [Hin _].
  destruct (lookup_In _ _ Hin) as [b Hb].
  destruct (metadata env _) as [m | e], (stat_ok env file);
    (split; [split; [discriminate | intros [_ H]; discriminate] |]); try discriminate.
  intros ? ? ? ? ? ? ? ? ? ? ? H. inversion H; subst.
  split; [reflexivity |]. split; [reflexivity |]. split; [| reflexivity].
  exists b. split; [exact Hb |]. unfold entry_of. cbn [image_size]. now rewrite Hb.
Qed.

(** ** The derivative cache *)

(** X13.  [GET /api/image/:id/:size/:format] never throws, and its status is
    200, 400, 404 or 500.  The one thing it ever writes is the variant
    it has just rendered, under the cache key of the request, and only
    when it answers 200 with these bytes: in every other case the world
    is as it was. *)
Theorem get_variant_writes_only_its_cache_entry (id size format : string) (w : World) :
  exists r w',
    get_variant id size format w = (Return r, w') /\
    In (status r) [200; 400; 404; 500]%N /\
    (w' = w \/
     exists sz data,
       parseSize size = inl sz /\
       r = response 200 (send_image (contentType_of format) "public, max-age=31536000" data) /\
       w' = set_files w CACHE_DIR
              (fs.store (cacheFile id sz format) data (files w CACHE_DIR))).
Proof.
  rewrite get_variant_eq.
  destruct (negb (supported format)).
  { eexists _, _. split; [reflexivity |]. simpl. tauto. }
  destruct (fault w (readdir UPLOAD_DIR)).
  { eexists _, _. split; [reflexivity |]. simpl. tauto. }
  destruct (find_original (originals w) id) as [f |].
  2: { eexists _, _. split; [reflexivity |]. simpl. tauto. }
  destruct (parseSize size) as [sz | msg].
  2: { eexists _, _. split; [reflexivity |]. simpl. tauto. }
  cbv zeta. destruct (cache_hit w _).
  { eexists _, _. split; [reflexivity |]. simpl. tauto. }
  destruct (sharp w _ _ _ _) as [data | e].
  2: { eexists _, _. split; [reflexivity |]. simpl. tauto. }
  destruct (fault w (writeFile CACHE_DIR _)).
  { eexists _, _. split; [reflexivity |]. simpl. tauto. }
  eexists _, _. split; [reflexivity |]. split; [simpl; tauto |].
  right. exists sz, data. repeat split.
Qed.

Lemma cacheFile_no_dotfile (id : string) (sz : Size) (format : string) :
  Js.startsWith id "." = false -> dotfile (cacheFile id sz format) = false.
Proof.
  intros H. apply dotfile_starts_with_a_dot. unfold cacheFile, cacheKey.
  destruct id as [| c id]; [reflexivity | exact H].
Qed.

(** X14.  Once a variant has been rendered and sent, the same request is
    answered from the cache: the file handed to [res.sendFile] is the
    cache entry, which holds the bytes of the first answer, and the
    image library is not asked again (whatever it would answer).  This
    needs the probe of the cache entry not to fail, and an id that does
    not start with a dot: the name of the cache entry starts with the
    id, and [res.sendFile] refuses the names that start with a dot. *)
Theorem rendered_variant_is_served_from_the_cache (id size format : string)
    (w w1 : World) (Content_Type Cache_Control : string) (data : Buffer)
    (s : option Buffer -> Value -> Value -> option Encoder -> Result Buffer) :
  Js.startsWith id "." = false ->
  get_variant id size format w =
  (Return (response 200 (send_image Content_Type Cache_Control data)), w1) ->
  (forall sz, parseSize size = inl sz ->
              fault w (access CACHE_DIR (cacheFile id sz format)) = None) ->
  exists sz,
    parseSize size = inl sz /\
    fs.lookup (files w1 CACHE_DIR) (cacheFile id sz format) = Some data /\
    dotfile (cacheFile id sz format) = false /\
    get_variant id size format (with_sharp w1 s) =
    (Return (response 200 (sendFile CACHE_DIR (cacheFile id sz format))), with_sharp w1 s).
Proof.
  intros Hdot. rewrite get_variant_eq.
  destruct (negb (supported format)) eqn:Hs; [discriminate |].
  destruct (fault w (readdir UPLOAD_DIR)) eqn:Hr; [discriminate |].
  destruct (find_original (originals w) id) as [f |] eqn:Hf; [| discriminate].
  destruct (parseSize size) as [sz | msg] eqn:Hp; [| discriminate].
  cbv zeta. destruct (cache_hit w _); [discriminate |].
  destruct (sharp w _ _ _ _) as [data' | e]; [| discriminate].
  destruct (fault w (writeFile CACHE_DIR _)); [discriminate |].
  intros H Ha. inversion H; subst. clear H.
  exists sz. split; [reflexivity |].
  rewrite files_set_files. split; [apply lookup_store |].
  split; [now apply cacheFile_no_dotfile |].
  rewrite get_variant_eq, Hs, Hp.
  change (fault (with_sharp _ s)) with (fault w). rewrite Hr.
  change (originals (with_sharp _ s)) with (originals w). rewrite Hf.
  cbv zeta. unfold cache_hit, fs.access, bind, fs.attempt.
  change (fault (with_sharp _ s)) with (fault w). rewrite (Ha sz eq_refl).
  cbn [files with_sharp]. rewrite files_set_files, lookup_store. reflexivity.
Qed.

(** ** What an upload leaves behind *)

Lemma put_quiet (a : FilesystemAdapter) (p : string) (b : Buffer) (options : PutOptions)
    (w : World) :
  constructed a ->
  quiet w ->
  exists w1,
    FilesystemAdapter.put a p b options w = (Return true, w1) /\
    fault w1 = fault w /\ now w1 = now w /\
    files w1 UPLOAD_DIR = files w UPLOAD_DIR /\
    (class (client a) = Local ->
     fs.lookup (files w1 (LocalDriver.root (client a))) p = Some b).
Proof.
  intros Ha [Hq Hs]. unfold FilesystemAdapter.put, invoke.
  rewrite (methods_are_inherited a "put" Ha) by (simpl; tauto).
  destruct (class (client a)).
  - rewrite put_eq by apply Hq. eexists. split; [reflexivity |].
    repeat split. intros _. rewrite files_set_files. apply lookup_store.
  - unfold S3Driver.put, bind, send. destruct (Hs (S3_PutObject (this (client a) "bucket") p b
      (contentType options) (Js.or (acl options) (Str "public-read")))) as [r ->].
    eexists. split; [reflexivity |]. repeat split. discriminate.
  - unfold AzureDriver.put, bind, send.
    destruct (Hs (Azure_upload (this (client a) "containerName") p b
      (contentType options))) as [r ->].
    eexists. split; [reflexivity |]. repeat split. discriminate.
  - unfold GCSDriver.put, bind, send.
    destruct (Hs (GCS_save (this (client a) "bucketName") p b
      (contentType options))) as [r ->].
    eexists. split; [reflexivity |]. repeat split. discriminate.
Qed.

Lemma find_original_fresh (names : list string) (id f : string) :
  (forall g, In g names -> Js.startsWith g id = false) ->
  Js.startsWith f id = true ->
  find_original (names ++ [f]) id = Some f.
Proof.
  intros Hn Hf. unfold find_original.
  induction names as [| g names IH]; simpl; [now rewrite Hf |].
  rewrite (Hn g (or_introl eq_refl)). apply IH. intros h Hh. apply Hn. now right.
Qed.

Lemma lookup_fresh (l : list (string * Buffer)) (n : string) :
  ~ In n (map fst l) -> fs.lookup l n = None.
Proof.
  unfold fs.lookup. induction l as [| [k c] l IH]; simpl; [reflexivity |].
  intros H. destruct (String.eqb_spec k n) as [-> | Hne]; [tauto |]. apply IH. tauto.
Qed.

(** X15.  When the disk resolves and nothing fails, [POST /api/upload] has
    written the file to the disk and to the working copies by the time
    it answers 500 (the call of [disk.url] throws).  The working copy is
    named by the id and the extension of the original name, its name
    splits back into that id, and, when no other working copy has a name
    that starts with the id, [GET /api/image/:id] serves it. *)
Theorem upload_stores_before_it_fails (config : Config) (m : StorageManager)
    (userId : Value) (f : UploadedFile) (body_disk : Value) (w : World)
    (a : FilesystemAdapter) :
  StorageManager.constructor config = Return m ->
  StorageManager.disk m (diskName_of config body_disk) = Return (StorageManager.Adapter a) ->
  quiet w ->
  uuid w <> "" ->
  plain (uuid w) = true ->
  (forall g, In g (originals w) -> Js.startsWith g (uuid w) = false) ->
  let filename := uuid w ++ path.extname (originalname f) in
  exists w',
    upload config m userId (Some f) body_disk w =
    (Return (response 500
       (error_json "Upload failed" (Some "this.client.url is not a function"))), w') /\
    fs.lookup (files w' UPLOAD_DIR) filename = Some (buffer f) /\
    (class (client a) = Local ->
     fs.lookup (files w' (LocalDriver.root (client a))) ("images/" ++ filename) =
     Some (buffer f)) /\
    path_parse.name filename = uuid w /\
    get_image (uuid w) w' = (Return (response 200 (sendFile UPLOAD_DIR filename)), w').
Proof.
  intros Hm Hd Hq Hu Hp Hfresh filename.
  pose proof (disk_adapter_constructed config m _ a Hm Hd) as Ha.
  destruct (put_quiet a ("images/" ++ filename) (buffer f)
              {| contentType := Str (mimetype f); acl := Undefined |} w Ha Hq)
    as (w1 & E1 & Hf1 & Hn1 & Hu1 & Hl1).
  destruct Hq as [Hq _].
  assert (Hnew : fs.lookup (files w UPLOAD_DIR) filename = None).
  { apply lookup_fresh. intros Hin. apply Hfresh in Hin.
    unfold filename in Hin. now rewrite startsWith_append in Hin. }
  set (w2 := set_files w1 UPLOAD_DIR (fs.store filename (buffer f) (files w1 UPLOAD_DIR))).
  exists w2.
  assert (Hl2 : fs.lookup (files w2 UPLOAD_DIR) filename = Some (buffer f)).
  { unfold w2. rewrite files_set_files. apply lookup_store. }
  split; [| split; [exact Hl2 | split; [| split]]].
  - unfold upload, try_catch. unfold bind at 1. unfold uuidv4 at 1. cbv zeta.
    unfold bind at 1. unfold lift. rewrite Hd.
    unfold bind at 1. unfold disk_call at 1. fold filename. rewrite E1.
    unfold bind at 1. rewrite writeFile_eq, Hf1, Hq. fold w2.
    unfold bind at 1. unfold toISOString at 1.
    unfold bind at 1. unfold disk_call at 1. rewrite (url_throws a _ w2 Ha).
    reflexivity.
  - intros Hc. unfold w2. rewrite files_set_files_other by discriminate. now apply Hl1.
  - unfold filename. apply stored_name; [exact Hu | exact Hp | apply extname_shape].
  - rewrite get_image_eq by (unfold w2; cbn [fault set_files]; rewrite Hf1; apply Hq).
    unfold originals, w2. rewrite files_set_files, Hu1.
    unfold fs.store. rewrite Hnew, List.map_app. cbn [map fst].
    fold (originals w). rewrite find_original_fresh; [reflexivity | exact Hfresh |].
    unfold filename. apply startsWith_append.
Qed.

(** ** The disks of the environment *)

(** With no name configured twice, each configured name holds the
    adapter built from its own entry. *)
Lemma configured_entry (entries : list (string * DiskConfig)) :
  forall (disks0 disks : gmap string FilesystemAdapter) (name : string) (c : DiskConfig),
    StorageManager.configured entries disks0 = Return disks ->
    List.NoDup (map fst entries) ->
    In (name, c) entries ->
    exists a,
      FilesystemAdapter.constructor (disk_driver c) (disk_config c) = Return a /\
      disks !! name = Some a.
Proof.
  induction entries as [| [n c0] entries IH]; intros disks0 disks name c H Hnd Hin;
    simpl in H; [contradiction |].
  destruct (FilesystemAdapter.constructor _ _) as [a | e] eqn:E; [| discriminate].
  simpl in Hnd. apply List.NoDup_cons_iff in Hnd as [Hn Hnd].
  destruct Hin as [Heq | Hin].
  - inversion Heq; subst. exists a. split; [exact E |].
    rewrite (configured_keeps _ _ _ name H Hn). apply lookup_insert_eq.
  - exact (IH _ _ name c H Hnd Hin).
Qed.

Lemma manager_disks_eq (config : Config) (m : StorageManager) :
  StorageManager.constructor config = Return m ->
  exists ds,
    StorageManager.configured (storage_disks config) ∅ = Return ds /\
    (manager_disks m = ds \/
     exists fallback,
       ds !! defaultDisk m = None /\
       class (client fallback) = Local /\
       manager_disks m = <[defaultDisk m := fallback]> ds).
Proof.
  unfold StorageManager.constructor, StorageManager.initializeDisks.
  destruct (StorageManager.configured _ _) as [ds | e] eqn:E; [| discriminate].
  exists ds. split; [reflexivity |].
  destruct (StorageManager.disks_get ds _) eqn:Edd.
  - inversion H; subst. now left.
  - inversion H; subst. now left.
  - destruct (FilesystemAdapter.constructor _ _) as [a | e] eqn:Ea; [| discriminate].
    inversion H; subst. right. exists a. cbn [defaultDisk manager_disks].
    split; [| split; [| reflexivity]].
    + unfold StorageManager.disks_get in Edd.
      now destruct (ds !! _).
    + unfold FilesystemAdapter.constructor in Ea. simpl in Ea. now inversion Ea.
Qed.

Lemma manager_disk_configured (config : Config) (m : StorageManager) (name : string)
    (c : DiskConfig) :
  StorageManager.constructor config = Return m ->
  List.NoDup (map fst (storage_disks config)) ->
  In (name, c) (storage_disks config) ->
  name <> "" ->
  exists a,
    FilesystemAdapter.constructor (disk_driver c) (disk_config c) = Return a /\
    StorageManager.disk m (Str name) = Return (StorageManager.Adapter a).
Proof.
  intros Hm Hnd Hin Hne.
  destruct (manager_disks_eq config m Hm) as (ds & Hds & Hcase).
  destruct (configured_entry _ _ _ name c Hds Hnd Hin) as (a & Ha & Hl).
  exists a. split; [exact Ha |].
  rewrite disk_of_name by exact Hne. unfold StorageManager.disks_get.
  destruct Hcase as [-> | (fb & Hdd & _ & ->)].
  - now rewrite Hl.
  - rewrite lookup_insert_ne by congruence. now rewrite Hl.
Qed.

Lemma manager_disk_unconfigured (config : Config) (m : StorageManager) (name : string)
    (a : FilesystemAdapter) :
  StorageManager.constructor config = Return m ->
  ~ In name (map fst (storage_disks config)) ->
  name <> "" ->
  StorageManager.disk m (Str name) = Return (StorageManager.Adapter a) ->
  class (client a) = Local.
Proof.
  intros Hm Hn Hne. rewrite disk_of_name by exact Hne.
  destruct (manager_disks_eq config m Hm) as (ds & Hds & Hcase).
  assert (Hl : ds !! name = None).
  { apply (configured_lookup _ _ _ name Hds). split; [apply lookup_empty | exact Hn]. }
  unfold StorageManager.disks_get.
  destruct Hcase as [-> | (fb & Hdd & Hc & ->)].
  - rewrite Hl. unfold Js.inherited. destruct (Js.array_includes _ _); discriminate.
  - destruct (decide (defaultDisk m = name)) as [-> | Hd].
    + rewrite lookup_insert_eq. intros H. now inversion H; subst.
    + rewrite lookup_insert_ne by exact Hd. rewrite Hl.
      unfold Js.inherited. destruct (Js.array_includes _ _); discriminate.
Qed.

Lemma environment_names (envVars : EnvVars) :
  map fst (storage_disks (config_of envVars)) =
  ("local" ::
   (if Js.ToBoolean (STORAGE_S3_BUCKET envVars) then ["s3"] else []) ++
   (if Js.ToBoolean (STORAGE_AZURE_CONNECTION_STRING envVars) then ["azure"] else []) ++
   (if Js.ToBoolean (STORAGE_GCS_BUCKET envVars) then ["gcs"] else []))%list.
Proof.
  unfold config_of, storage_disks, spread_if. cbn [storage disks].
  destruct (Js.ToBoolean (STORAGE_S3_BUCKET envVars)),
    (Js.ToBoolean (STORAGE_AZURE_CONNECTION_STRING envVars)),
    (Js.ToBoolean (STORAGE_GCS_BUCKET envVars)); reflexivity.
Qed.

Lemma environment_NoDup (envVars : EnvVars) :
  List.NoDup (map fst (storage_disks (config_of envVars))).
Proof.
  rewrite environment_names.
  destruct (Js.ToBoolean (STORAGE_S3_BUCKET envVars)),
    (Js.ToBoolean (STORAGE_AZURE_CONNECTION_STRING envVars)),
    (Js.ToBoolean (STORAGE_GCS_BUCKET envVars));
    repeat constructor; simpl; intuition discriminate.
Qed.

Lemma environment_cloud_disk (envVars : EnvVars) (m : StorageManager) (name : string)
    (flag : Value) (c : DiskConfig) (cl : DriverClass) :
  StorageManager.constructor (config_of envVars) = Return m ->
  name <> "" ->
  cl <> Local ->
  (forall a, FilesystemAdapter.constructor (disk_driver c) (disk_config c) = Return a ->
             class (client a) = cl) ->
  (Js.ToBoolean flag = true -> In (name, c) (storage_disks (config_of envVars))) ->
  (Js.ToBoolean flag = false -> ~ In name (map fst (storage_disks (config_of envVars)))) ->
  (exists a, StorageManager.disk m (Str name) = Return (StorageManager.Adapter a) /\
             class (client a) = cl) <->
  Js.ToBoolean flag = true.
Proof.
  intros Hm Hne Hcl Hclass Hin Hout. split.
  - intros (a & Hd & Hc). destruct (Js.ToBoolean flag) eqn:E; [reflexivity |].
    rewrite (manager_disk_unconfigured _ m name a Hm (Hout eq_refl) Hne Hd) in Hc.
    congruence.
  - intros E.
    destruct (manager_disk_configured _ m name c Hm (environment_NoDup envVars)
                (Hin E) Hne) as (a & Ha & Hd).
    exists a. split; [exact Hd | exact (Hclass a Ha)].
Qed.

(** X16.  The disks that the variables of the environment give.  Whenever
    the manager is built from them, the name "local" resolves to a disk
    of the local driver, rooted where STORAGE_LOCAL_ROOT says; and each
    of the names "s3", "azure" and "gcs" resolves to a disk of its own
    driver exactly when its variable (the bucket, the connection string,
    the bucket) is set to a string that is not empty. *)
Theorem environment_disks (envVars : EnvVars) (m : StorageManager) :
  StorageManager.constructor (config_of envVars) = Return m ->
  (exists a,
      StorageManager.disk m (Str "local") = Return (StorageManager.Adapter a) /\
      class (client a) = Local /\
      this (client a) "root" = Js.or (STORAGE_LOCAL_ROOT envVars) (Str "./storage")) /\
  ((exists a, StorageManager.disk m (Str "s3") = Return (StorageManager.Adapter a) /\
              class (client a) = S3) <->
   Js.ToBoolean (STORAGE_S3_BUCKET envVars) = true) /\
  ((exists a, StorageManager.disk m (Str "azure") = Return (StorageManager.Adapter a) /\
              class (client a) = Azure) <->
   Js.ToBoolean (STORAGE_AZURE_CONNECTION_STRING envVars) = true) /\
  ((exists a, StorageManager.disk m (Str "gcs") = Return (StorageManager.Adapter a) /\
              class (client a) = GCS) <->
   Js.ToBoolean (STORAGE_GCS_BUCKET envVars) = true).
Proof.
  intros Hm. split; [| split; [| split]].
  - destruct (manager_disk_configured _ m "local"
                {| disk_driver := Str "local";
                   disk_config := Some [ ("root", STORAGE_LOCAL_ROOT envVars);
                                         ("url", STORAGE_LOCAL_URL envVars) ] |}
                Hm (environment_NoDup envVars)) as (a & Ha & Hd);
      [now left | discriminate |].
    exists a. split; [exact Hd |].
    unfold FilesystemAdapter.constructor in Ha. simpl in Ha. inversion Ha; subst.
    split; reflexivity.
  - apply (environment_cloud_disk envVars m "s3" (STORAGE_S3_BUCKET envVars)
             {| disk_driver := Str "s3";
                  disk_config := Some
                    [ ("bucket", STORAGE_S3_BUCKET envVars);
                      ("region", STORAGE_S3_REGION envVars);
                      ("url", STORAGE_S3_URL envVars);
                      ("credentials",
                       if Js.ToBoolean (AWS_ACCESS_KEY_ID envVars) &&
                          Js.ToBoolean (AWS_SECRET_ACCESS_KEY envVars)
                       then Js.Obj "credentials" else Undefined) ] |}
             S3 Hm); try discriminate.
    + intros a Ha. unfold FilesystemAdapter.constructor in Ha. simpl in Ha.
      inversion Ha; subst. reflexivity.
    + intros E. unfold config_of, storage_disks, spread_if. cbn [storage disks].
      rewrite E. rewrite !List.in_app_iff. simpl. auto 10.
    + intros E. rewrite environment_names, E.
      destruct (Js.ToBoolean (STORAGE_AZURE_CONNECTION_STRING envVars)),
        (Js.ToBoolean (STORAGE_GCS_BUCKET envVars)); simpl; intuition discriminate.
  - apply (environment_cloud_disk envVars m "azure" (STORAGE_AZURE_CONNECTION_STRING envVars)
             {| disk_driver := Str "azure";
                  disk_config := Some
                    [ ("container", STORAGE_AZURE_CONTAINER envVars);
                      ("connectionString", STORAGE_AZURE_CONNECTION_STRING envVars);
                      ("url", STORAGE_AZURE_URL envVars) ] |}
             Azure Hm); try discriminate.
    + intros a Ha. unfold FilesystemAdapter.constructor in Ha. simpl in Ha.
      inversion Ha; subst. reflexivity.
    + intros E. unfold config_of, storage_disks, spread_if. cbn [storage disks].
      rewrite E. rewrite !List.in_app_iff. simpl. auto 10.
    + intros E. rewrite environment_names, E.
      destruct (Js.ToBoolean (STORAGE_S3_BUCKET envVars)),
        (Js.ToBoolean (STORAGE_GCS_BUCKET envVars)); simpl; intuition discriminate.
  - apply (environment_cloud_disk envVars m "gcs" (STORAGE_GCS_BUCKET envVars)
             {| disk_driver := Str "gcs";
                  disk_config := Some
                    [ ("bucket", STORAGE_GCS_BUCKET envVars);
                      ("projectId", STORAGE_GCS_PROJECT_ID envVars);
                      ("keyFilename", STORAGE_GCS_KEY_FILENAME envVars);
                      ("url", STORAGE_GCS_URL envVars) ] |}
             GCS Hm); try discriminate.
    + intros a Ha. unfold FilesystemAdapter.constructor in Ha. simpl in Ha.
      inversion Ha; subst. reflexivity.
    + intros E. unfold config_of, storage_disks, spread_if. cbn [storage disks].
      rewrite E. rewrite !List.in_app_iff. simpl. auto 10.
    + intros E. rewrite environment_names, E.
      destruct (Js.ToBoolean (STORAGE_S3_BUCKET envVars)),
        (Js.ToBoolean (STORAGE_AZURE_CONNECTION_STRING envVars)); simpl;
        intuition discriminate.
Qed.

(** ** Authentication *)

(** X17.  [authenticate] lets a request through only with a token that
    [jwt.verify] accepted, and then [req.user] is the payload of that
    token and [req.userId] the first of its [id], [userId] and [sub]
    that is truthy.  Every other request is answered 401, except that a
    verification error named neither TokenExpiredError nor
    JsonWebTokenError is answered 500 with the message of the error. *)
Theorem authenticate_continues_only_with_a_verified_token
    (verify : string -> Result Payload) (authorization : option string) :
  match auth.authenticate verify authorization with
  | next req =>
      exists authHeader decoded,
        authorization = Some authHeader /\
        auth.token_of authHeader <> "" /\
        verify (auth.token_of authHeader) = Return decoded /\
        req = {| req_user := Some decoded; req_userId := auth.userId_of decoded |}
  | answered r =>
      (status r = 401%N /\ exists msg, body r = error_json "Unauthorized" (Some msg)) \/
      (status r = 500%N /\
       exists authHeader e,
         authorization = Some authHeader /\
         verify (auth.token_of authHeader) = Throw e /\
         name e <> "TokenExpiredError" /\ name e <> "JsonWebTokenError" /\
         body r = error_json "Authentication error" (Some (message e)))
  end.
Proof.
  unfold auth.authenticate, auth.unauthorized.
  destruct authorization as [authHeader |]; [| left; simpl; eauto].
  destruct (String.eqb authHeader ""); [left; simpl; eauto |].
  cbv zeta. destruct (String.eqb_spec (auth.token_of authHeader) "") as [E | Hne];
    [left; simpl; eauto |].
  destruct (verify (auth.token_of authHeader)) as [decoded | e] eqn:Ev.
  - exists authHeader, decoded. repeat split; assumption.
  - destruct (String.eqb_spec (name e) "TokenExpiredError"); [left; simpl; eauto |].
    destruct (String.eqb_spec (name e) "JsonWebTokenError"); [left; simpl; eauto |].
    right. split; [reflexivity |]. exists authHeader, e. repeat split; assumption.
Qed.

Lemma token_of_Bearer (t : string) : auth.token_of ("Bearer " ++ t) = t.
Proof. reflexivity. Qed.

(** X18.  The prefix [Bearer ] is optional: a token sent bare is treated as
    the same token sent after [Bearer ], by [authenticate] and by
    [optionalAuth].  (The token is not empty and does not itself start
    with [Bearer ].) *)
Theorem bearer_prefix_is_optional (verify : string -> Result Payload) (t : string) :
  t <> "" ->
  Js.startsWith t "Bearer " = false ->
  auth.authenticate verify (Some ("Bearer " ++ t)) = auth.authenticate verify (Some t) /\
  auth.optionalAuth verify (Some ("Bearer " ++ t)) = auth.optionalAuth verify (Some t).
Proof.
  intros Hne Hs.
  assert (Ht : auth.token_of t = t) by (unfold auth.token_of; now rewrite Hs).
  unfold auth.authenticate, auth.optionalAuth. rewrite token_of_Bearer, Ht.
  change (String.eqb ("Bearer " ++ t) "") with false.
  destruct (String.eqb_spec t ""); [contradiction |]. split; reflexivity.
Qed.

(** X19.  [optionalAuth] always lets the request through: with the identity
    [authenticate] would have accepted, and without any when
    [authenticate] would have answered. *)
Theorem optionalAuth_is_authenticate_without_refusal
    (verify : string -> Result Payload) (authorization : option string) :
  auth.optionalAuth verify authorization =
  match auth.authenticate verify authorization with
  | next req => next req
  | answered _ => next anonymous
  end.
Proof.
  unfold auth.optionalAuth, auth.authenticate, auth.unauthorized.
  destruct authorization as [authHeader |]; [| reflexivity].
  destruct (String.eqb authHeader ""); [reflexivity |].
  cbv zeta. destruct (String.eqb (auth.token_of authHeader) ""); [reflexivity |].
  destruct (verify (auth.token_of authHeader)) as [decoded | e]; [reflexivity |].
  destruct (String.eqb (name e) "TokenExpiredError"); [reflexivity |].
  now destruct (String.eqb (name e) "JsonWebTokenError").
Qed.

(** X20.  For a token made by [createTokenPayload], [req.userId] is the id
    of the user, and [authorize] decides on one role: the [role] of the
    user when it is truthy, and otherwise the first of the user's
    [roles].  The request passes exactly when that role is one of the
    allowed names, and is answered 403 otherwise; the other roles of
    the user are not looked at. *)
Theorem authorize_decides_on_one_role (roles : list string) (user : User)
    (seconds : Value) :
  let decoded := createTokenPayload user seconds in
  let req := {| req_user := Some decoded; req_userId := auth.userId_of decoded |} in
  req_userId req = user_id user /\
  (auth.authorize roles req = next req <->
   (exists r, user_role user = Str r /\ r <> "" /\ In r roles) \/
   (Js.ToBoolean (user_role user) = false /\
    exists r rest, user_roles user = Some (Str r :: rest) /\ In r roles)) /\
  (auth.authorize roles req = next req \/
   auth.authorize roles req =
   answered {| status := 403;
               body := error_json "Forbidden" (Some "Insufficient permissions") |}).
Proof.
  cbv zeta. split; [| split].
  - unfold auth.userId_of, createTokenPayload, Js.or. cbn [p_id p_userId p_sub req_userId].
    destruct (Js.ToBoolean (user_id user)) eqn:E; rewrite ?E; reflexivity.
  - unfold auth.authorize, auth.userRole, createTokenPayload, Js.or.
    cbn [req_user p_role p_roles].
    destruct (Js.ToBoolean (user_role user)) eqn:Eb.
    + destruct (user_role user) as [| n | r | tag] eqn:Er.
      * discriminate.
      * split; [discriminate |].
        intros [(r & H & _) | [H _]]; discriminate.
      * simpl in Eb. destruct (Js.array_includes roles r) eqn:Ei; cbn [negb].
        -- split; [intros _ | reflexivity]. left. exists r.
           split; [reflexivity |]. split; [| now apply array_includes_In].
           intros ->. discriminate.
        -- split; [discriminate |].
           intros [(r' & H & _ & Hin) | [H _]]; [| discriminate].
           inversion H; subst. apply array_includes_In in Hin. congruence.
      * split; [discriminate |].
        intros [(r & H & _) | [H _]]; discriminate.
    + assert (Hno : forall r, user_role user = Str r -> r <> "" -> False).
      { intros r Hr Hne. rewrite Hr in Eb. simpl in Eb.
        destruct (String.eqb_spec r ""); [contradiction | discriminate]. }
      destruct (user_roles user) as [[| v rest] |] eqn:El;
        [| destruct v as [| n | r | tag] |];
        try (split; [discriminate |];
             intros [(r' & H & Hne & _) | (_ & r' & rest' & H & _)];
             [exfalso; eauto | discriminate]).
      destruct (Js.array_includes roles r) eqn:Ei; cbn [negb].
      * split; [intros _ | reflexivity]. right. split; [reflexivity |].
        exists r, rest. split; [reflexivity | now apply array_includes_In].
      * split; [discriminate |].
        intros [(r' & H & Hne & _) | (_ & r' & rest' & H & Hin)]; [exfalso; eauto |].
        inversion H; subst. apply array_includes_In in Hin. congruence.
  - unfold auth.authorize. cbn [req_user].
    destruct (negb _); [now right | now left].
Qed.

(** ** The upload filter *)

(** X21.  The upload filter accepts or refuses with the error "Only image
    files are allowed", and what it accepts has an extension of at
    least one character after the dot: a file whose name has no
    extension, or only a dot for one, is refused whatever type is
    declared for it. *)
Theorem fileFilter_needs_an_extension (originalname mimetype : string) :
  (fileFilter originalname mimetype = Return true /\
   exists x, path.extname originalname = String "." x /\ x <> "" /\ plain x = true) \/
  fileFilter originalname mimetype =
  Throw (mkError "Error" None "Only image files are allowed").
Proof.
  unfold fileFilter. cbv zeta.
  destruct (extname_shape originalname) as [-> | (x & -> & Hx)].
  - change (allowedTypes_test (Js.toLowerCase "")) with false.
    rewrite andb_false_r. now right.
  - destruct x as [| c x].
    + change (allowedTypes_test (Js.toLowerCase ".")) with false.
      rewrite andb_false_r. now right.
    + destruct (_ && _); [left | now right].
      split; [reflexivity |]. exists (String c x). repeat split; [discriminate | exact Hx].
Qed.

(** ** Uploading to a bucket *)

(** X22.  An upload to a disk of the s3 driver sends one call to the
    SDK and no other: a PutObject of the bytes under
    [images/<id><ext>], with the declared type as ContentType and the
    ACL public-read.  When that call fails the answer is the 500 of the
    catch-all with the message of the failure, and no working copy has
    been written. *)
Theorem upload_to_s3_is_public_read (config : Config) (m : StorageManager)
    (userId : Value) (f : UploadedFile) (body_disk : Value) (w : World)
    (a : FilesystemAdapter) :
  StorageManager.constructor config = Return m ->
  StorageManager.disk m (diskName_of config body_disk) = Return (StorageManager.Adapter a) ->
  class (client a) = S3 ->
  let call :=
    S3_PutObject (this (client a) "bucket")
      ("images/" ++ uuid w ++ path.extname (originalname f)) (buffer f)
      (Str (mimetype f)) (Str "public-read") in
  exists msg w',
    upload config m userId (Some f) body_disk w =
    (Return (response 500 (error_json "Upload failed" (Some msg))), w') /\
    sent w' = call :: sent w /\
    (forall e, sdk w call = Throw e ->
               msg = message e /\ files w' UPLOAD_DIR = files w UPLOAD_DIR).
Proof.
  intros Hm Hd Hc call.
  pose proof (disk_adapter_constructed config m _ a Hm Hd) as Ha.
  unfold upload, try_catch. unfold bind at 1. unfold uuidv4 at 1. cbv zeta.
  unfold bind at 1. unfold lift. rewrite Hd.
  unfold bind at 1. unfold disk_call at 1.
  unfold FilesystemAdapter.put, invoke.
  rewrite (methods_are_inherited a "put" Ha) by (simpl; tauto).
  rewrite Hc. unfold S3Driver.put. unfold bind at 1. unfold send.
  cbn [contentType acl]. change (Js.or Undefined (Str "public-read")) with (Str "public-read").
  fold call. destruct (sdk w call) as [b | e].
  - cbn [ret]. unfold bind at 1. rewrite writeFile_eq. cbn [fault log_call].
    destruct (fault w (writeFile UPLOAD_DIR _)) as [e' |].
    + eexists _, _. split; [reflexivity |]. split; [reflexivity | discriminate].
    + unfold bind at 1. unfold toISOString at 1.
      unfold bind at 1. unfold disk_call at 1. rewrite (url_throws a _ _ Ha).
      eexists _, _. split; [reflexivity |]. split; [reflexivity | discriminate].
  - eexists _, _. split; [reflexivity |]. split; [reflexivity |].
    intros e' H. inversion H; subst. split; reflexivity.
Qed.

(** ** Ids are prefixes *)

Lemma startsWith_trans (s p q : string) :
  Js.startsWith s p = true -> Js.startsWith p q = true -> Js.startsWith s q = true.
Proof.
  revert s p. induction q as [| c q IH]; intros s p Hsp Hpq; [now destruct s |].
  destruct p as [| b p]; [discriminate |].
  destruct s as [| a s]; [discriminate |].
  cbn [Js.startsWith] in *.
  destruct (Ascii.eqb_spec c b) as [-> | Hcb]; [| discriminate].
  destruct (Ascii.eqb_spec b a) as [-> | Hba]; [| discriminate].
  exact (IH s p Hsp Hpq).
Qed.

(** X23.  [GET /api/image/:id] looks the id up as a prefix: when an id
    is served, so is every prefix of it (by the first working copy
    whose name starts with that prefix). *)
Theorem prefix_of_an_id_is_served (id prefix file : string) (w : World) :
  Js.startsWith id prefix = true ->
  get_image id w = (Return (response 200 (sendFile UPLOAD_DIR file)), w) ->
  exists file',
    get_image prefix w = (Return (response 200 (sendFile UPLOAD_DIR file')), w) /\
    In file' (originals w) /\
    Js.startsWith file' prefix = true.
Proof.
  intros Hp. rewrite !get_image_eq_total.
  destruct (fault w (readdir UPLOAD_DIR)); [discriminate |].
  destruct (find_original (originals w) id) as [g |] eqn:Eg; [| discriminate].
  intros _. apply find_original_In in Eg as [Hin Hs].
  destruct (find_exists (fun f => Js.startsWith f prefix) (originals w) g Hin
              (startsWith_trans g id prefix Hs Hp)) as [g' Hg'].
  fold (find_original (originals w) prefix) in Hg'. rewrite Hg'.
  exists g'. split; [reflexivity |]. now apply find_original_In.
Qed.

(** ** Instances *)

Lemma local_put_then_get_witness :
  let d := client Sample.fallback in
  exists w1,
    LocalDriver.put d "images/a.png" Sample.pixels Fixture.options (Sample.world [] [] []) =
    (Return true, w1) /\
    LocalDriverReads.get Fixture.reads d "images/a.png" w1 = (Return Sample.pixels, w1) /\
    LocalDriverReads.size Fixture.reads d "images/a.png" w1 = (Return 4, w1) /\
    LocalDriver.exists_ d "images/a.png" w1 = (Return true, w1).
Proof.
  intros d.
  apply (local_put_then_get Fixture.reads d "images/a.png" Sample.pixels Fixture.options
           (Sample.world [] [] [])); reflexivity.
Defined.

Lemma local_put_changes_one_path_witness :
  let d := client Sample.fallback in
  let w := Sample.world [] [] [("images/b.png", Sample.rendered)] in
  let w1 := snd (LocalDriver.put d "images/a.png" Sample.pixels Fixture.options w) in
  fs.lookup (files w1 (LocalDriver.root d)) "images/b.png" =
  fs.lookup (files w (LocalDriver.root d)) "images/b.png".
Proof.
  intros d w w1.
  apply (proj1 (local_put_changes_one_path d "images/a.png" Sample.pixels Fixture.options
                  w w1 (Return true) eq_refl eq_refl)).
  - reflexivity.
  - discriminate.
Defined.

Lemma local_put_makes_the_directory_first_witness :
  let d := client Sample.fallback in
  let w := Sample.with_fault (Sample.world [] [] []) Fixture.mkdir_refused in
  let w' := Sample.with_fault (Sample.world [] [] []) Fixture.blocked_by_a_file in
  LocalDriver.put d "images/a.png" Sample.pixels Fixture.options w =
  (Throw Sample.EACCES, w) /\
  LocalDriver.put d "images/a.png" Sample.pixels Fixture.options w' =
  (Throw Fixture.ENOTDIR, w').
Proof.
  intros d w w'. split.
  - apply (proj1 (local_put_makes_the_directory_first d "images/a.png" Sample.pixels
                    Fixture.options w Sample.EACCES eq_refl)).
    discriminate.
  - apply (proj2 (local_put_makes_the_directory_first d "images/a.png" Sample.pixels
                    Fixture.options w' Fixture.EEXIST eq_refl)).
    reflexivity.
Defined.

Lemma local_delete_then_absent_witness :
  let d := client Sample.fallback in
  let w := Sample.world [] [] [("images/a.png", Sample.pixels)] in
  exists w1,
    LocalDriver.delete d "images/a.png" w = (Return true, w1) /\
    fst (LocalDriver.exists_ d "images/a.png" w1) = Return false /\
    LocalDriver.delete d "images/a.png" w1 = (Return false, w1) /\
    (forall q, normal q = true -> q <> "images/a.png" ->
               fs.lookup (files w1 (LocalDriver.root d)) q =
               fs.lookup (files w (LocalDriver.root d)) q).
Proof.
  intros d w.
  apply (local_delete_then_absent d "images/a.png" Sample.pixels w); reflexivity.
Defined.

Lemma local_copy_witness :
  let d := client Sample.fallback in
  let w := Sample.world [] [] [("images/a.png", Sample.pixels)] in
  exists w1,
    LocalDriver.copy d "images/a.png" "images/b.png" w = (Return true, w1) /\
    fs.lookup (files w1 (LocalDriver.root d)) "images/b.png" = Some Sample.pixels /\
    fs.lookup (files w1 (LocalDriver.root d)) "images/a.png" = Some Sample.pixels /\
    (forall q, normal q = true -> q <> "images/b.png" ->
               fs.lookup (files w1 (LocalDriver.root d)) q =
               fs.lookup (files w (LocalDriver.root d)) q).
Proof.
  intros d w.
  apply (local_copy d "images/a.png" "images/b.png" Sample.pixels w); reflexivity.
Defined.

Lemma fallback_constructed : constructed Sample.fallback.
Proof.
  exists (Str "local"), (Some [("root", Str "storage"); ("url", Str "/storage")]).
  reflexivity.
Defined.

Lemma local_move_relocates_witness :
  let w := Sample.world [] [] [("images/a.png", Sample.pixels)] in
  exists w2,
    FilesystemAdapter.move Sample.fallback "images/a.png" "images/b.png" w =
    (Return true, w2) /\
    fs.lookup (files w2 (Root "storage")) "images/b.png" = Some Sample.pixels /\
    fs.lookup (files w2 (Root "storage")) "images/a.png" = None /\
    (forall q, normal q = true -> q <> "images/a.png" -> q <> "images/b.png" ->
               fs.lookup (files w2 (Root "storage")) q =
               fs.lookup (files w (Root "storage")) q).
Proof.
  intros w.
  apply (local_move_relocates Sample.fallback fallback_constructed eq_refl
           "images/a.png" "images/b.png" Sample.pixels w);
    [reflexivity | reflexivity | discriminate | reflexivity ..].
Defined.

Lemma local_move_onto_itself_deletes_witness :
  let w := Sample.world [] [] [("images/a.png", Sample.pixels)] in
  exists w2,
    FilesystemAdapter.move Sample.fallback "images/a.png" "images/a.png" w =
    (Return true, w2) /\
    fs.lookup (files w2 (Root "storage")) "images/a.png" = None /\
    (forall q, q <> "images/a.png" ->
               fs.lookup (files w2 (Root "storage")) q =
               fs.lookup (files w (Root "storage")) q).
Proof.
  intros w.
  apply (local_move_onto_itself_deletes Sample.fallback fallback_constructed eq_refl
           "images/a.png" Sample.pixels w); reflexivity.
Defined.

Lemma local_temporaryUrl_throws_witness :
  let w := Sample.world [] [] [("images/a.png", Sample.pixels)] in
  adapter_temporaryUrl (fun _ _ _ => ret "signed") Sample.fallback "images/a.png"
    (Num (Js.num 3600)) w =
  (Throw (TypeError "this.url is not a function"), w).
Proof.
  intros w.
  apply (local_temporaryUrl_throws Sample.fallback fallback_constructed eq_refl).
Defined.

Lemma listed_id_is_served_witness :
  let w := Sample.world [("abc.png", Sample.pixels)] [] [] in
  get_images Fixture.reads w =
  (Return {| list_status := 200;
             list_body := images_json 1 [entry_of Fixture.reads w "abc.png"] |}, w) /\
  exists f,
    get_image "abc" w = (Return (response 200 (sendFile UPLOAD_DIR f)), w) /\
    In f (originals w) /\
    Js.startsWith f "abc" = true /\
    dotfile f = false.
Proof.
  intros w. split; [reflexivity |].
  apply (listed_id_is_served Fixture.reads w w 1 [entry_of Fixture.reads w "abc.png"]
           (entry_of Fixture.reads w "abc.png")).
  - intros f [<- | []]. split; [reflexivity | discriminate].
  - reflexivity.
  - left. reflexivity.
  - reflexivity.
Defined.

Lemma rendered_variant_is_served_from_the_cache_witness :
  let w := Sample.world [("abc.png", Sample.pixels)] [] [] in
  let w1 := snd (get_variant "abc" "150x150" "png" w) in
  let broken := fun _ _ _ _ => Throw (mkError "Error" None "Input buffer is corrupt") in
  exists sz,
    parseSize "150x150" = inl sz /\
    fs.lookup (files w1 CACHE_DIR) (cacheFile "abc" sz "png") = Some Sample.rendered /\
    dotfile (cacheFile "abc" sz "png") = false /\
    get_variant "abc" "150x150" "png" (with_sharp w1 broken) =
    (Return (response 200 (sendFile CACHE_DIR (cacheFile "abc" sz "png"))),
     with_sharp w1 broken).
Proof.
  intros w w1 broken.
  apply (rendered_variant_is_served_from_the_cache "abc" "150x150" "png" w w1
           "image/png" "public, max-age=31536000" Sample.rendered broken).
  - reflexivity.
  - reflexivity.
  - intros sz _. reflexivity.
Defined.

Lemma upload_stores_before_it_fails_witness :
  let w := Sample.world [] [] [] in
  exists w',
    upload Sample.config_default Sample.manager_default (Str "u1")
      (Some Fixture.upload_png) Undefined w =
    (Return (response 500
       (error_json "Upload failed" (Some "this.client.url is not a function"))), w') /\
    fs.lookup (files w' UPLOAD_DIR) "1b9d6bcd.png" = Some Sample.pixels /\
    (class (client Sample.fallback) = Local ->
     fs.lookup (files w' (Root "storage")) "images/1b9d6bcd.png" = Some Sample.pixels) /\
    path_parse.name "1b9d6bcd.png" = "1b9d6bcd" /\
    get_image "1b9d6bcd" w' =
    (Return (response 200 (sendFile UPLOAD_DIR "1b9d6bcd.png")), w').
Proof.
  intros w.
  apply (upload_stores_before_it_fails Sample.config_default Sample.manager_default
           (Str "u1") Fixture.upload_png Undefined w Sample.fallback eq_refl eq_refl).
  - split; [reflexivity |]. intros c. exists true. reflexivity.
  - discriminate.
  - reflexivity.
  - intros g [].
Defined.

Lemma environment_disks_witness :
  StorageManager.constructor (config_of Fixture.env_s3) = Return Fixture.manager_s3 /\
  (exists a,
      StorageManager.disk Fixture.manager_s3 (Str "s3") = Return (StorageManager.Adapter a) /\
      class (client a) = S3) /\
  ~ (exists a,
      StorageManager.disk Fixture.manager_s3 (Str "gcs") = Return (StorageManager.Adapter a) /\
      class (client a) = GCS).
Proof.
  split; [reflexivity |].
  pose proof (environment_disks Fixture.env_s3 Fixture.manager_s3 eq_refl)
    as (_ & Hs3 & _ & Hgcs).
  split.
  - apply Hs3. reflexivity.
  - intros H. apply Hgcs in H. discriminate H.
Defined.

Lemma bearer_prefix_is_optional_witness :
  auth.authenticate Fixture.verify (Some "Bearer abc") =
  auth.authenticate Fixture.verify (Some "abc") /\
  auth.optionalAuth Fixture.verify (Some "Bearer abc") =
  auth.optionalAuth Fixture.verify (Some "abc").
Proof.
  apply (bearer_prefix_is_optional Fixture.verify "abc"); [discriminate | reflexivity].
Defined.

Lemma upload_to_s3_is_public_read_witness :
  let w := Sample.with_sdk (Sample.world [] [] []) Sample.unreachable in
  let call :=
    S3_PutObject (Str "assets") "images/1b9d6bcd.png" Sample.pixels (Str "image/png")
      (Str "public-read") in
  exists msg w',
    upload (config_of Fixture.env_s3) Fixture.manager_s3 (Str "u1")
      (Some Fixture.upload_png) (Str "s3") w =
    (Return (response 500 (error_json "Upload failed" (Some msg))), w') /\
    sent w' = [call] /\
    (forall e, sdk w call = Throw e ->
               msg = message e /\ files w' UPLOAD_DIR = files w UPLOAD_DIR).
Proof.
  intros w call.
  apply (upload_to_s3_is_public_read (config_of Fixture.env_s3) Fixture.manager_s3
           (Str "u1") Fixture.upload_png (Str "s3") w Fixture.s3_disk);
    reflexivity.
Defined.

Lemma prefix_of_an_id_is_served_witness :
  let w := Sample.world [("1b9d6bcd.png", Sample.pixels)] [] [] in
  exists file',
    get_image "1" w = (Return (response 200 (sendFile UPLOAD_DIR file')), w) /\
    In file' (originals w) /\
    Js.startsWith file' "1" = true.
Proof.
  intros w.
  apply (prefix_of_an_id_is_served "1b9d6bcd" "1" "1b9d6bcd.png" w); reflexivity.
Defined.
